(** * Hargassner telnet client: receive loop, frame decoder, latest-value store

    A shallow embedding of
    [custom_components/bauergroup_hargassnerintegration/telnet_client.py]
    and of the part of [coordinator.py] that talks to the client.

    - Python built-ins ([bytes.decode], [str.strip], [str.split],
      [str.startswith]) are modelled after CPython.
    - Exceptions are values: a function that can raise returns an
      [outcome].
    - Dictionaries are objects on a heap, referred to by identity, so that
      sharing between the parsed map, the latest-value store, the handlers
      and the callers of [get_latest_data] is visible.
    - The receive loop is a function of the state of the world and of what
      the outside answers in each pass (connection attempt, clock, read);
      what it does to the outside is recorded as a trace of events.
    - A data handler may change the objects on the heap and the host
      application, and it may call [register_callback] and
      [unregister_callback] while it is dispatched: the dispatch walks the
      registry list itself, as the [for] statement does.
    - A [datetime] is a number of microseconds; the constants of
      [const.py], the parser of [message_parser.py] and the type
      [ParameterData] of [types.py] are parameters.

    The definitions come first; the lemmas follow. *)

From Stdlib Require Import ZArith List Strings.Byte Lia.
From stdpp Require Import base option list strings gmap finite.
Import ListNotations.
Open Scope Z_scope.

(** ** Exceptions *)

(** The exception classes that occur in the two source files.  Everything
    here derives from Python's [Exception]. *)
Inductive exn :=
  | UnicodeDecodeError
  | LookupError
  | AttributeError (name : string)
  | HargassnerTimeoutError
  | HargassnerConnectionError
  | OtherError (msg : string).

Inductive outcome (A : Type) :=
  | Ok (a : A)
  | Raise (e : exn).
Arguments Ok {A} a.
Arguments Raise {A} e.

(** ** Python built-ins used by the frame decoder *)

Module Py.

(** A [str] is a sequence of Unicode code points, a [bytes] object a
    sequence of octets. *)
Definition text := list Z.
Definition bytes := list byte.

Definition byte_val (b : byte) : Z := Z.of_N (Byte.to_N b).

(** *** [bytes.decode(encoding, errors)] *)

Inductive error_handler := Strict | Replace.

Definition REPLACEMENT_CHARACTER : Z := 0xFFFD.

(** Prepend a decoded code point to the rest of the decoding. *)
Definition emit (c : Z) (rest : outcome text) : outcome text :=
  match rest with
  | Ok t => Ok (c :: t)
  | Raise e => Raise e
  end.

(** What the codec does at an ill-formed position: ["strict"] raises,
    ["replace"] emits U+FFFD and resumes where the error ends. *)
Definition on_error (errors : error_handler) (resume : outcome text) : outcome text :=
  match errors with
  | Strict => Raise UnicodeDecodeError
  | Replace => emit REPLACEMENT_CHARACTER resume
  end.

Definition is_continuation (c : Z) : bool := (0x80 <=? c) && (c <? 0xC0).

Definition cp2 (ch ch2 : Z) : Z :=
  Z.shiftl (Z.land ch 0x1F) 6 + Z.land ch2 0x3F.
Definition cp3 (ch ch2 ch3 : Z) : Z :=
  Z.shiftl (Z.land ch 0x0F) 12 + Z.shiftl (Z.land ch2 0x3F) 6 + Z.land ch3 0x3F.
Definition cp4 (ch ch2 ch3 ch4 : Z) : Z :=
  Z.shiftl (Z.land ch 0x07) 18 + Z.shiftl (Z.land ch2 0x3F) 12
  + Z.shiftl (Z.land ch3 0x3F) 6 + Z.land ch4 0x3F.

(** The UTF-8 decoder of CPython: well-formed sequences are those of the
    Unicode standard (no overlong forms, no surrogates, nothing above
    U+10FFFF).  An invalid start byte is an error of length 1, an invalid
    continuation byte at offset [k] an error of length [k], a truncated
    sequence at the end of the input an error reaching to the end. *)
Fixpoint utf_8_decode (errors : error_handler) (s : bytes) {struct s} : outcome text :=
  match s with
  | [] => Ok []
  | b0 :: s1 =>
    let ch := byte_val b0 in
    let invalid_1 := on_error errors (utf_8_decode errors s1) in
    let unexpected_end := on_error errors (Ok []) in
    if ch <? 0x80 then emit ch (utf_8_decode errors s1)
    else if ch <? 0xC2 then invalid_1
    else if ch <? 0xE0 then
      match s1 with
      | [] => unexpected_end
      | b1 :: s2 =>
        let ch2 := byte_val b1 in
        if is_continuation ch2
        then emit (cp2 ch ch2) (utf_8_decode errors s2)
        else invalid_1
      end
    else if ch <? 0xF0 then
      match s1 with
      | [] => unexpected_end
      | b1 :: s2 =>
        let ch2 := byte_val b1 in
        if negb (is_continuation ch2)
           || (if ch2 <? 0xA0 then ch =? 0xE0 else ch =? 0xED)
        then invalid_1
        else
          match s2 with
          | [] => unexpected_end
          | b2 :: s3 =>
            let ch3 := byte_val b2 in
            if is_continuation ch3
            then emit (cp3 ch ch2 ch3) (utf_8_decode errors s3)
            else on_error errors (utf_8_decode errors s2)
          end
      end
    else if ch <? 0xF5 then
      match s1 with
      | [] => unexpected_end
      | b1 :: s2 =>
        let ch2 := byte_val b1 in
        if negb (is_continuation ch2)
           || (if ch2 <? 0x90 then ch =? 0xF0 else ch =? 0xF4)
        then invalid_1
        else
          match s2 with
          | [] => unexpected_end
          | b2 :: s3 =>
            let ch3 := byte_val b2 in
            if negb (is_continuation ch3)
            then on_error errors (utf_8_decode errors s2)
            else
              match s3 with
              | [] => unexpected_end
              | b3 :: s4 =>
                let ch4 := byte_val b3 in
                if is_continuation ch4
                then emit (cp4 ch ch2 ch3 ch4) (utf_8_decode errors s4)
                else on_error errors (utf_8_decode errors s3)
              end
          end
      end
    else invalid_1
  end.

(** A charmap codec: every byte is looked up in a table; a byte the table
    leaves undefined is an error of length 1. *)
Fixpoint charmap_decode (table : Z -> option Z) (errors : error_handler)
    (s : bytes) : outcome text :=
  match s with
  | [] => Ok []
  | b :: s' =>
    match table (byte_val b) with
    | Some c => emit c (charmap_decode table errors s')
    | None => on_error errors (charmap_decode table errors s')
    end
  end.

(** ISO 8859-1: byte [n] is code point [n]. *)
Definition latin_1_table (b : Z) : option Z := Some b.

(** Windows-1252 as shipped with CPython: 0x81, 0x8D, 0x8F, 0x90 and 0x9D
    are undefined. *)
Definition cp1252_table (b : Z) : option Z :=
  if (b <? 0x80) || (0xA0 <=? b) then Some b
  else nth (Z.to_nat (b - 0x80))
    [ Some 0x20AC; None;        Some 0x201A; Some 0x0192;
      Some 0x201E; Some 0x2026; Some 0x2020; Some 0x2021;
      Some 0x02C6; Some 0x2030; Some 0x0160; Some 0x2039;
      Some 0x0152; None;        Some 0x017D; None;
      None;        Some 0x2018; Some 0x2019; Some 0x201C;
      Some 0x201D; Some 0x2022; Some 0x2013; Some 0x2014;
      Some 0x02DC; Some 0x2122; Some 0x0161; Some 0x203A;
      Some 0x0153; None;        Some 0x017E; Some 0x0178 ]
    None.

(** [data.decode(encoding, errors)] for the codec names the client uses;
    any other name is an unknown encoding. *)
Definition decode (encoding : string) (errors : error_handler) (data : bytes)
    : outcome text :=
  if String.eqb encoding "utf-8" then utf_8_decode errors data
  else if String.eqb encoding "latin-1" then charmap_decode latin_1_table errors data
  else if String.eqb encoding "cp1252" then charmap_decode cp1252_table errors data
  else Raise LookupError.

(** *** [str.strip()], [str.split(sep)], [str.startswith(prefix)] *)

(** [str.isspace] on one code point: the white space of the Unicode
    character database as CPython tabulates it. *)
Definition isspace (c : Z) : bool :=
  ((0x09 <=? c) && (c <=? 0x0D)) || ((0x1C <=? c) && (c <=? 0x20))
  || (c =? 0x85) || (c =? 0xA0) || (c =? 0x1680)
  || ((0x2000 <=? c) && (c <=? 0x200A))
  || (c =? 0x2028) || (c =? 0x2029) || (c =? 0x202F) || (c =? 0x205F)
  || (c =? 0x3000).

Fixpoint lstrip (s : text) : text :=
  match s with
  | [] => []
  | c :: s' => if isspace c then lstrip s' else s
  end.

Definition rstrip (s : text) : text := rev (lstrip (rev s)).

Definition strip (s : text) : text := rstrip (lstrip s).

(** [s.split(sep)] for a one-character separator: never the empty list. *)
Fixpoint split (sep : Z) (s : text) : list text :=
  match s with
  | [] => [[]]
  | c :: s' =>
    if c =? sep then [] :: split sep s'
    else
      match split sep s' with
      | [] => [[c]]
      | l :: ls => (c :: l) :: ls
      end
  end.

Fixpoint startswith (s prefix : text) : bool :=
  match prefix, s with
  | [], _ => true
  | _ :: _, [] => false
  | p :: prefix', c :: s' => (c =? p) && startswith s' prefix'
  end.

(** A Unicode scalar value: a code point that is not a surrogate. *)
Definition is_scalar_value (c : Z) : bool :=
  (0 <=? c) && (c <=? 0x10FFFF) && negb ((0xD800 <=? c) && (c <=? 0xDFFF)).

(** [sep.join(pieces)] for a one-character separator. *)
Fixpoint join (sep : Z) (pieces : list text) : text :=
  match pieces with
  | [] => []
  | [piece] => piece
  | piece :: rest => piece ++ sep :: join sep rest
  end.

(** The literals ["\n"] and ["pm"]. *)
Definition NEWLINE : Z := 10.
Definition PM : text := [112; 109].

End Py.

(** ** The telnet client *)

Module Client.

(** Object identities on the Python heap, and socket stream handles. *)
Definition loc := positive.
Definition handle := nat.

(** [const.py] is not among the sources: its values are parameters.
    Delays and timeouts are in seconds. *)
Record constants := {
  TELNET_DATA_STALENESS_TIMEOUT : Z;
  TELNET_MAX_CONSECUTIVE_TIMEOUTS : Z;
  TELNET_MAX_RECONNECT_DELAY : Z;
  TELNET_RECONNECT_DELAY : Z;
}.

(** A [datetime] is a number of microseconds on the wall clock;
    [total_seconds() > timeout] compares microseconds. *)
Definition MICROSECONDS : Z := 1000000.

(** The texts written to [_stats["last_error"]], one constructor per
    format string of the source. *)
Inductive error_text :=
  | DataStale (elapsed : Z)
  | DeadConnection (timeouts : Z)
  | ConnectionTimeout
  | ConnectionFailed
  | LoopError (e : exn).

(** What the coordinator stores under ["connected"]: the flag, or whatever
    object it was called with. *)
Inductive value :=
  | VBool (b : bool)
  | VRef (l : loc).

Record StatisticsData := {
  messages_received : Z;
  messages_parsed : Z;
  parse_errors : Z;
  reconnections : Z;
  last_error : option error_text;
}.

Section WithCollaborators.

(** [types.ParameterData] is not among the sources either. *)
Context {ParameterData : Type}.

(** Data handlers are compared with [==] by [register_callback].  The
    callables a program ever registers are finitely many. *)
Context {handler : Type} `{EqDecision handler} `{!Finite handler}.

(** The state of the host application, which handlers may change. *)
Context {App : Type}.

(** The mutable objects the client and its callers share.  A parsed
    map is a [dict] from parameter names to references; the coordinator
    adds a ["_connection"] dictionary to it. *)
Inductive object :=
  | ParameterMap (entries : gmap string loc)
  | ParameterObject (d : ParameterData)
  | ConnectionInfo (connected : value) (last_update : option Z)
      (statistics : StatisticsData).

(** The fields of [HargassnerTelnetClient.__init__] the loop reads or
    writes.  Host, port and firmware version never change and the lock
    is never contended inside one task; the parser is [parse_message]
    below. *)
Record client := {
  _reader : option handle;
  _writer : option handle;
  _connected : bool;
  _running : bool;
  _reconnect_delay : Z;
  _consecutive_timeouts : Z;
  _latest_data : loc;
  _last_update : option Z;
  _stats : StatisticsData;
  _data_callbacks : list handler;
}.

(** What the program does to the outside, in order. *)
Inductive event :=
  | EvConnect
  | EvClose (w : handle)
  | EvRead (r : handle)
  | EvSleep (delay : Z)
  | EvParse (line : Py.text)
  | EvStore (l : loc)
  | EvCallback (cb : handler) (l : loc).

Record world := {
  cl : client;
  heap : gmap loc object;
  app : App;
  trace : list event;
}.

(** *** Field updates *)

Definition set_streams (r w : option handle) (c : client) : client :=
  {| _reader := r; _writer := w; _connected := _connected c;
     _running := _running c; _reconnect_delay := _reconnect_delay c;
     _consecutive_timeouts := _consecutive_timeouts c;
     _latest_data := _latest_data c; _last_update := _last_update c;
     _stats := _stats c; _data_callbacks := _data_callbacks c |}.

Definition set_connected (b : bool) (c : client) : client :=
  {| _reader := _reader c; _writer := _writer c; _connected := b;
     _running := _running c; _reconnect_delay := _reconnect_delay c;
     _consecutive_timeouts := _consecutive_timeouts c;
     _latest_data := _latest_data c; _last_update := _last_update c;
     _stats := _stats c; _data_callbacks := _data_callbacks c |}.

Definition set_running (b : bool) (c : client) : client :=
  {| _reader := _reader c; _writer := _writer c; _connected := _connected c;
     _running := b; _reconnect_delay := _reconnect_delay c;
     _consecutive_timeouts := _consecutive_timeouts c;
     _latest_data := _latest_data c; _last_update := _last_update c;
     _stats := _stats c; _data_callbacks := _data_callbacks c |}.

Definition set_reconnect_delay (d : Z) (c : client) : client :=
  {| _reader := _reader c; _writer := _writer c; _connected := _connected c;
     _running := _running c; _reconnect_delay := d;
     _consecutive_timeouts := _consecutive_timeouts c;
     _latest_data := _latest_data c; _last_update := _last_update c;
     _stats := _stats c; _data_callbacks := _data_callbacks c |}.

Definition set_consecutive_timeouts (n : Z) (c : client) : client :=
  {| _reader := _reader c; _writer := _writer c; _connected := _connected c;
     _running := _running c; _reconnect_delay := _reconnect_delay c;
     _consecutive_timeouts := n;
     _latest_data := _latest_data c; _last_update := _last_update c;
     _stats := _stats c; _data_callbacks := _data_callbacks c |}.

Definition set_latest (l : loc) (t : Z) (c : client) : client :=
  {| _reader := _reader c; _writer := _writer c; _connected := _connected c;
     _running := _running c; _reconnect_delay := _reconnect_delay c;
     _consecutive_timeouts := _consecutive_timeouts c;
     _latest_data := l; _last_update := Some t;
     _stats := _stats c; _data_callbacks := _data_callbacks c |}.

Definition set_stats (s : StatisticsData) (c : client) : client :=
  {| _reader := _reader c; _writer := _writer c; _connected := _connected c;
     _running := _running c; _reconnect_delay := _reconnect_delay c;
     _consecutive_timeouts := _consecutive_timeouts c;
     _latest_data := _latest_data c; _last_update := _last_update c;
     _stats := s; _data_callbacks := _data_callbacks c |}.

Definition set_data_callbacks (cbs : list handler) (c : client) : client :=
  {| _reader := _reader c; _writer := _writer c; _connected := _connected c;
     _running := _running c; _reconnect_delay := _reconnect_delay c;
     _consecutive_timeouts := _consecutive_timeouts c;
     _latest_data := _latest_data c; _last_update := _last_update c;
     _stats := _stats c; _data_callbacks := cbs |}.

Definition set_last_error (e : error_text) (s : StatisticsData) : StatisticsData :=
  {| messages_received := messages_received s;
     messages_parsed := messages_parsed s;
     parse_errors := parse_errors s;
     reconnections := reconnections s;
     last_error := Some e |}.

Definition incr_messages_received (s : StatisticsData) : StatisticsData :=
  {| messages_received := messages_received s + 1;
     messages_parsed := messages_parsed s;
     parse_errors := parse_errors s;
     reconnections := reconnections s;
     last_error := last_error s |}.

Definition incr_messages_parsed (s : StatisticsData) : StatisticsData :=
  {| messages_received := messages_received s;
     messages_parsed := messages_parsed s + 1;
     parse_errors := parse_errors s;
     reconnections := reconnections s;
     last_error := last_error s |}.

Definition incr_parse_errors (s : StatisticsData) : StatisticsData :=
  {| messages_received := messages_received s;
     messages_parsed := messages_parsed s;
     parse_errors := parse_errors s + 1;
     reconnections := reconnections s;
     last_error := last_error s |}.

Definition incr_reconnections (s : StatisticsData) : StatisticsData :=
  {| messages_received := messages_received s;
     messages_parsed := messages_parsed s;
     parse_errors := parse_errors s;
     reconnections := reconnections s + 1;
     last_error := last_error s |}.

Definition on_client (f : client -> client) (w : world) : world :=
  {| cl := f (cl w); heap := heap w; app := app w; trace := trace w |}.

Definition on_stats (f : StatisticsData -> StatisticsData) (w : world) : world :=
  on_client (fun c => set_stats (f (_stats c)) c) w.

Definition record (e : event) (w : world) : world :=
  {| cl := cl w; heap := heap w; app := app w; trace := trace w ++ [e] |}.

Definition set_heap (h : gmap loc object) (w : world) : world :=
  {| cl := cl w; heap := h; app := app w; trace := trace w |}.

Definition set_app (a : App) (w : world) : world :=
  {| cl := cl w; heap := heap w; app := a; trace := trace w |}.

(** A new object at an identity no live object has. *)
Definition alloc (o : object) (h : gmap loc object) : loc * gmap loc object :=
  let l := fresh (dom h) in (l, <[l := o]> h).

(** *** Collaborators *)

Context (K : constants).

(** [HargassnerMessageParser.parse_message]: the items of the [dict]
    it returns ([None] when it returns nothing), or the exception it
    raises.  [message_parser.py] is not among the sources. *)
Inductive parse_outcome :=
  | ParseReturns (parsed_data : option (list (string * ParameterData)))
  | ParseRaises (e : exn).

Context (parse_message : Py.text -> parse_outcome).
Context (expected_length : Z).

(** Calling a registered handler with the object at [l]: it sees the
    client through its read-only properties, may change the objects on
    the heap and the host application, and returns or raises.  What it
    does to the registry while it runs is [handler_calls] below. *)
Context (call_handler :
  handler -> loc -> client -> App -> gmap loc object ->
  outcome unit * App * gmap loc object).

(** *** [__init__] *)

Definition __init__ (h : gmap loc object) : client * gmap loc object :=
  let '(l, h') := alloc (ParameterMap ∅) h in
  ({| _reader := None; _writer := None;
      _connected := false; _running := false;
      _reconnect_delay := TELNET_RECONNECT_DELAY K;
      _consecutive_timeouts := 0;
      _latest_data := l; _last_update := None;
      _stats := {| messages_received := 0; messages_parsed := 0;
                   parse_errors := 0; reconnections := 0;
                   last_error := None |};
      _data_callbacks := [] |}, h').

(** *** [_connect] *)

(** How [asyncio.open_connection] under [wait_for] and the keepalive
    setup end: both streams and all socket options set; both streams
    but a socket option refused ([OSError]); a timeout; an [OSError]. *)
Inductive connect_outcome :=
  | Opened (r w : handle)
  | OpenedKeepaliveRefused (r w : handle)
  | OpenTimeout
  | OpenRefused.

Definition _connect (o : connect_outcome) (w : world) : outcome unit * world :=
  let w := record EvConnect w in
  match o with
  | Opened r wr =>
    let w := on_client (set_streams (Some r) (Some wr)) w in
    let w := on_client (set_connected true) w in
    let w := on_client (set_consecutive_timeouts 0) w in
    (Ok tt, on_stats incr_reconnections w)
  | OpenedKeepaliveRefused r wr =>
    let w := on_client (set_streams (Some r) (Some wr)) w in
    (Raise HargassnerConnectionError, on_stats (set_last_error ConnectionFailed) w)
  | OpenTimeout =>
    (Raise HargassnerTimeoutError, on_stats (set_last_error ConnectionTimeout) w)
  | OpenRefused =>
    (Raise HargassnerConnectionError, on_stats (set_last_error ConnectionFailed) w)
  end.

(** *** [_close_connection] *)

Definition _close_connection (w : world) : world :=
  let w :=
    match _writer (cl w) with
    | Some wr => on_client (set_streams None None) (record (EvClose wr) w)
    | None => w
    end in
  on_client (set_connected false) w.

(** *** [_process_data] *)

(** The [for encoding in ...: try ... break / except UnicodeDecodeError:
    continue] loop; the result is the value of [text] after it. *)
Fixpoint try_encodings (encodings : list string) (data : Py.bytes)
    : outcome (option Py.text) :=
  match encodings with
  | [] => Ok None
  | encoding :: rest =>
    match Py.decode encoding Py.Strict data with
    | Ok text => Ok (Some text)
    | Raise UnicodeDecodeError => try_encodings rest data
    | Raise e => Raise e
    end
  end.

Definition ENCODINGS : list string := ["utf-8"; "latin-1"; "cp1252"].

Definition decode_chunk (data : Py.bytes) : outcome Py.text :=
  match try_encodings ENCODINGS data with
  | Ok (Some text) => Ok text
  | Ok None => Py.decode "utf-8" Py.Replace data
  | Raise e => Raise e
  end.

(** The [dict] the parser returned, as objects on the heap. *)
Fixpoint alloc_items (items : list (string * ParameterData))
    (entries : gmap string loc) (h : gmap loc object)
    : gmap string loc * gmap loc object :=
  match items with
  | [] => (entries, h)
  | (name, d) :: rest =>
    let '(l, h') := alloc (ParameterObject d) h in
    alloc_items rest (<[name := l]> entries) h'
  end.

Definition alloc_parsed (items : list (string * ParameterData))
    (h : gmap loc object) : loc * gmap loc object :=
  let '(entries, h') := alloc_items items ∅ h in
  alloc (ParameterMap entries) h'.

(** *** The handler registry *)

Definition register_callback (callback : handler) (c : client) : client :=
  if bool_decide (callback ∈ _data_callbacks c) then c
  else set_data_callbacks (_data_callbacks c ++ [callback]) c.

(** [list.remove]: the first occurrence goes. *)
Fixpoint list_remove (callback : handler) (l : list handler) : list handler :=
  match l with
  | [] => []
  | x :: l' => if bool_decide (x = callback) then l' else x :: list_remove callback l'
  end.

Definition unregister_callback (callback : handler) (c : client) : client :=
  if bool_decide (callback ∈ _data_callbacks c)
  then set_data_callbacks (list_remove callback (_data_callbacks c)) c
  else c.

(** What a handler can do to the client while it runs: call the two
    synchronous methods of the public boundary. *)
Inductive registry_call :=
  | Register (callback : handler)
  | Unregister (callback : handler).

Definition apply_call (c : client) (rc : registry_call) : client :=
  match rc with
  | Register callback => register_callback callback c
  | Unregister callback => unregister_callback callback c
  end.

Definition apply_calls (calls : list registry_call) (c : client) : client :=
  foldl apply_call c calls.

(** The calls of [register_callback] and [unregister_callback] a handler
    makes while it is called with the object at [l], in order. *)
Context (handler_calls :
  handler -> loc -> client -> App -> gmap loc object -> list registry_call).

(** *** Dispatch *)

(** [for callback in self._data_callbacks: try: callback(parsed_data)
    except Exception: log].  The [for] statement walks the list itself,
    by position: with [i] elements taken, it takes the element at
    position [i] if there is one and stops otherwise.  What a handler
    registers or unregisters while it runs changes the list under the
    walk.  [fuel] bounds the number of calls. *)
Fixpoint notify_from (fuel i : nat) (l : loc) (w : world) : world :=
  match fuel with
  | O => w
  | S fuel =>
    match _data_callbacks (cl w) !! i with
    | None => w
    | Some callback =>
      let w := record (EvCallback callback l) w in
      let calls := handler_calls callback l (cl w) (app w) (heap w) in
      match call_handler callback l (cl w) (app w) (heap w) with
      | (Ok _, a, h) =>
        notify_from fuel (S i) l (on_client (apply_calls calls) (set_app a (set_heap h w)))
      | (Raise _, a, h) =>
        notify_from fuel (S i) l (on_client (apply_calls calls) (set_app a (set_heap h w)))
      end
    end
  end.

(** With finitely many handlers the walk ends by itself within this many
    calls (lemma [notify_from_enough]): [register_callback] never adds a
    handler the list holds already. *)
Definition dispatch_bound (c : client) : nat :=
  (length (_data_callbacks c) + card handler)%nat.

Definition notify (l : loc) (w : world) : world :=
  notify_from (dispatch_bound (cl w)) 0 l w.

(** [if not line or not line.startswith("pm"): continue] *)
Definition is_candidate (line : Py.text) : bool :=
  negb (bool_decide (line = [])) && Py.startswith line Py.PM.

(** The [for line in lines] loop; [now] is what [datetime.now()] returns
    when a parsed map is stored. *)
Fixpoint process_lines (now : Z) (lines : list Py.text) (w : world) : world :=
  match lines with
  | [] => w
  | line :: rest =>
    let line := Py.strip line in
    if negb (is_candidate line) then process_lines now rest w
    else
      let w := record (EvParse line) w in
      match parse_message line with
      | ParseReturns (Some (item :: items)) =>
        let '(l, h) := alloc_parsed (item :: items) (heap w) in
        let w := set_heap h w in
        let w := record (EvStore l) (on_client (set_latest l now) w) in
        let w := on_stats incr_messages_parsed w in
        notify l w
      | ParseReturns _ => process_lines now rest w
      | ParseRaises _ => process_lines now rest (on_stats incr_parse_errors w)
      end
  end.

Definition _process_data (now : Z) (data : Py.bytes) (w : world) : world :=
  let w := on_stats incr_messages_received w in
  match decode_chunk data with
  | Ok text => process_lines now (Py.split Py.NEWLINE (Py.strip text)) w
  | Raise _ => on_stats incr_parse_errors w
  end.

(** *** [_receiver_loop] *)

(** How the bounded read ends. *)
Inductive read_outcome :=
  | ReadBytes (data : Py.bytes)
  | ReadTimeout
  | ReadFails (e : exn).

(** What the outside answers during one pass through the loop body:
    the connection attempt (asked only when not connected), the clock
    at the staleness check, the read, the clock when a map is stored. *)
Record answers := {
  on_connect : connect_outcome;
  now_check : Z;
  on_read : read_outcome;
  now_store : Z;
}.

(** [except Exception as err:] of the loop body. *)
Definition loop_except (e : exn) (w : world) : world :=
  let w := on_stats (set_last_error (LoopError e)) w in
  let w := on_client (set_connected false) w in
  let w := on_client (set_consecutive_timeouts 0) w in
  let w := _close_connection w in
  let w := record (EvSleep (_reconnect_delay (cl w))) w in
  on_client (fun c => set_reconnect_delay
    (Z.min (_reconnect_delay c * 2) (TELNET_MAX_RECONNECT_DELAY K)) c) w.

(** [time_since_update > TELNET_DATA_STALENESS_TIMEOUT], when
    [_last_update] is set. *)
Definition stale (now : Z) (c : client) : option Z :=
  match _last_update c with
  | Some t =>
    let time_since_update := now - t in
    if time_since_update >? TELNET_DATA_STALENESS_TIMEOUT K * MICROSECONDS
    then Some time_since_update else None
  | None => None
  end.

(** [except asyncio.TimeoutError:] of the read. *)
Definition read_timeout (w : world) : world :=
  let w := on_client (fun c => set_consecutive_timeouts (_consecutive_timeouts c + 1) c) w in
  if _consecutive_timeouts (cl w) >=? TELNET_MAX_CONSECUTIVE_TIMEOUTS K then
    let w := on_stats (set_last_error (DeadConnection (_consecutive_timeouts (cl w)))) w in
    let w := on_client (set_connected false) w in
    let w := on_client (set_consecutive_timeouts 0) w in
    _close_connection w
  else w.

(** The staleness check and the read, once the connection is ensured. *)
Definition check_and_read (a : answers) (w : world) : world :=
  match stale (now_check a) (cl w) with
  | Some time_since_update =>
    let w := on_stats (set_last_error (DataStale time_since_update)) w in
    let w := on_client (set_connected false) w in
    _close_connection w
  | None =>
    match _reader (cl w) with
    | None => w
    | Some r =>
      let w := record (EvRead r) w in
      match on_read a with
      | ReadBytes [] =>
        let w := on_client (set_connected false) w in
        on_client (set_consecutive_timeouts 0) w
      | ReadBytes data =>
        let w := _process_data (now_store a) data w in
        let w := on_client (set_reconnect_delay (TELNET_RECONNECT_DELAY K)) w in
        on_client (set_consecutive_timeouts 0) w
      | ReadTimeout => read_timeout w
      | ReadFails e => loop_except e w
      end
    end
  end.

(** One pass through the body of [while self._running]. *)
Definition iteration (a : answers) (w : world) : world :=
  let '(connecting, w) :=
    if _connected (cl w) then (Ok tt, w) else _connect (on_connect a) w in
  match connecting with
  | Raise e => loop_except e w
  | Ok _ => check_and_read a w
  end.

(** The loop over the answers of the outside, for as long as the
    running flag is set. *)
Fixpoint _receiver_loop (script : list answers) (w : world) : world :=
  match script with
  | [] => w
  | a :: rest =>
    if _running (cl w) then _receiver_loop rest (iteration a w) else w
  end.

(** *** [async_stop] *)

(** [self._running = False], then, once the receiver task has been
    cancelled and awaited, [await self._close_connection()].  A cancelled
    task makes no further pass: that is the end of [_receiver_loop]. *)
Definition async_stop (w : world) : world :=
  _close_connection (on_client (set_running false) w).

(** *** The public boundary *)

(** [return self._latest_data.copy()]: a new [dict] with the entries of
    the stored one. *)
Definition get_latest_data (w : world) : outcome loc * world :=
  match heap w !! _latest_data (cl w) with
  | Some (ParameterMap entries) =>
    let '(l, h) := alloc (ParameterMap entries) (heap w) in
    (Ok l, set_heap h w)
  | _ => (Raise (AttributeError "copy"), w)
  end.

Definition connected (c : client) : bool := _connected c.
Definition last_update (c : client) : option Z := _last_update c.
Definition statistics (c : client) : StatisticsData := _stats c.
Definition expected_message_length (c : client) : Z := expected_length.

(** The attributes of a [HargassnerTelnetClient]: what the class body
    defines and what [__init__] assigns. *)
Definition attributes : list string :=
  [ "__init__"; "async_start"; "async_stop"; "_receiver_loop"; "_connect";
    "_close_connection"; "_process_data"; "get_latest_data";
    "register_callback"; "unregister_callback"; "connected"; "last_update";
    "statistics"; "expected_message_length";
    "_host"; "_port"; "_firmware_version"; "_reader"; "_writer";
    "_connected"; "_running"; "_receiver_task"; "_reconnect_delay";
    "_consecutive_timeouts"; "_parser"; "_latest_data"; "_data_lock";
    "_last_update"; "_stats"; "_data_callbacks" ].

(** [client.<name>(callback)] for a method that takes a handler:
    attribute lookup first, then the call. *)
Definition call_with_handler (name : string) (callback : handler) (c : client)
    : outcome unit * client :=
  if bool_decide (name ∈ attributes) then
    if String.eqb name "register_callback" then (Ok tt, register_callback callback c)
    else if String.eqb name "unregister_callback" then (Ok tt, unregister_callback callback c)
    else (Raise (OtherError "TypeError"), c)
  else (Raise (AttributeError name), c).

(** *** Observations *)

(** What happened between two states of the world. *)
Definition events_since (w w' : world) : list event :=
  drop (length (trace w)) (trace w').

Definition is_close (e : event) : bool :=
  match e with EvClose _ => true | _ => false end.
Definition is_read (e : event) : bool :=
  match e with EvRead _ => true | _ => false end.
Definition is_sleep (e : event) : bool :=
  match e with EvSleep _ => true | _ => false end.
Definition is_store (e : event) : bool :=
  match e with EvStore _ => true | _ => false end.

Definition count (p : event -> bool) (l : list event) : nat :=
  length (List.filter p l).

(** The candidate frames among the lines of a text, trimmed, in order. *)
Definition candidates (lines : list Py.text) : list Py.text :=
  List.filter is_candidate (map Py.strip lines).

(** The lines [_process_data] loops over. *)
Definition chunk_lines (data : Py.bytes) : list Py.text :=
  match decode_chunk data with
  | Ok text => Py.split Py.NEWLINE (Py.strip text)
  | Raise _ => []
  end.

(** The parser returns a non-empty map for this line. *)
Definition parses (line : Py.text) : bool :=
  match parse_message line with
  | ParseReturns (Some (_ :: _)) => true
  | _ => false
  end.

(** The decoding policy in the words of the specification: UTF-8 strict,
    Latin-1 strict, code page 1252 strict, first success wins; UTF-8 with
    replacement as the last resort. *)
Definition strictly (encoding : string) (data : Py.bytes) : option Py.text :=
  match Py.decode encoding Py.Strict data with
  | Ok text => Some text
  | Raise _ => None
  end.

Definition decoding_policy (data : Py.bytes) : outcome Py.text :=
  match strictly "utf-8" data with
  | Some text => Ok text
  | None =>
    match strictly "latin-1" data with
    | Some text => Ok text
    | None =>
      match strictly "cp1252" data with
      | Some text => Ok text
      | None => Py.decode "utf-8" Py.Replace data
      end
    end
  end.

(** The events of [_process_data]: parsing, storing, notifying. *)
Definition is_frame_event (e : event) : bool :=
  match e with
  | EvParse _ | EvStore _ | EvCallback _ _ => true
  | _ => false
  end.

(** The fields [_process_data] never writes.  The registry is not among
    them: the handlers it calls may register and unregister handlers. *)
Definition link_untouched (c c' : client) : Prop :=
  _reader c' = _reader c /\ _writer c' = _writer c
  /\ _connected c' = _connected c /\ _running c' = _running c
  /\ _reconnect_delay c' = _reconnect_delay c
  /\ _consecutive_timeouts c' = _consecutive_timeouts c
  /\ reconnections (_stats c') = reconnections (_stats c)
  /\ last_error (_stats c') = last_error (_stats c).

(** The ways a pass can leave the backoff delay: reset after a non-empty
    read, doubled after a failure that sleeps, or as it was. *)
Definition backoff_step (w w' : world) (events : list event) : Prop :=
  (_reconnect_delay (cl w') = TELNET_RECONNECT_DELAY K
   /\ messages_received (_stats (cl w')) = messages_received (_stats (cl w)) + 1
   /\ count is_sleep events = 0%nat)
  \/ (_reconnect_delay (cl w')
        = Z.min (_reconnect_delay (cl w) * 2) (TELNET_MAX_RECONNECT_DELAY K)
      /\ messages_received (_stats (cl w')) = messages_received (_stats (cl w))
      /\ count is_sleep events = 1%nat)
  \/ (_reconnect_delay (cl w') = _reconnect_delay (cl w)
      /\ messages_received (_stats (cl w')) = messages_received (_stats (cl w))
      /\ count is_sleep events = 0%nat).

(** The connection attempt does not end with a connected client. *)
Definition connect_fails (o : connect_outcome) : bool :=
  match o with
  | Opened _ _ => false
  | _ => true
  end.

(** The read of this pass returns a non-empty chunk none of whose
    candidate frames parses. *)
Definition reads_unparseable (a : answers) : Prop :=
  exists b data,
    on_read a = ReadBytes (b :: data)
    /\ Forall (fun line => parses line = false) (candidates (chunk_lines (b :: data))).

(** The consecutive-timeout counter is below the threshold (below 1 when
    the threshold is not positive). *)
Definition timeouts_in_range (c : client) : Prop :=
  0 <= _consecutive_timeouts c < Z.max 1 (TELNET_MAX_CONSECUTIVE_TIMEOUTS K).

(** No counter has gone down. *)
Definition counters_grow (s s' : StatisticsData) : Prop :=
  messages_received s <= messages_received s'
  /\ messages_parsed s <= messages_parsed s'
  /\ parse_errors s <= parse_errors s'
  /\ reconnections s <= reconnections s'.

(** [_last_update] is set exactly when a parsed map has been counted. *)
Definition stored_iff_parsed (c : client) : Prop :=
  match _last_update c with
  | None => messages_parsed (_stats c) = 0
  | Some _ => 0 < messages_parsed (_stats c)
  end.

(** No more maps parsed than chunks received. *)
Definition parsed_within_received (c : client) : Prop :=
  0 <= messages_parsed (_stats c) <= messages_received (_stats c).

(** No handler changes the registry while it runs. *)
Definition leaves_registry : Prop :=
  forall cb l c a h,
    _data_callbacks (apply_calls (handler_calls cb l c a h) c) = _data_callbacks c.

(** The length of a registry plus the number of handlers it does not
    hold.  [register_callback] of a new handler moves one from the second
    part to the first, [unregister_callback] takes one from the first and
    adds at most one to the second: the sum never grows. *)
Definition registry_potential (cbs : list handler) : nat :=
  (length cbs + length (filter (fun x => x ∉ cbs) (enum handler)))%nat.

(** The handlers leave dictionaries dictionaries. *)
Definition keeps_maps : Prop :=
  forall cb l c a h l0 entries,
    h !! l0 = Some (ParameterMap entries) ->
    exists entries', snd (call_handler cb l c a h) !! l0 = Some (ParameterMap entries').

(** [_latest_data] refers to a dictionary. *)
Definition store_live (w : world) : Prop :=
  exists entries, heap w !! _latest_data (cl w) = Some (ParameterMap entries).

(** The parser raises on this line. *)
Definition raises (line : Py.text) : bool :=
  match parse_message line with
  | ParseRaises _ => true
  | ParseReturns _ => false
  end.

(** A connected client holds both streams. *)
Definition streams_open (c : client) : Prop :=
  _connected c = true -> is_Some (_reader c) /\ is_Some (_writer c).

(** What each step of a pass keeps: the streams of a connected client,
    the range of the timeout counter, the link between [_last_update] and
    [messages_parsed], the order of the two message counters; and no
    counter goes down. *)
Definition kept (c c' : client) : Prop :=
  (streams_open c -> streams_open c')
  /\ (timeouts_in_range c -> timeouts_in_range c')
  /\ (stored_iff_parsed c -> stored_iff_parsed c')
  /\ (parsed_within_received c -> parsed_within_received c')
  /\ counters_grow (_stats c) (_stats c').


(** What a caller holding the dictionary at [l] can read through it: the
    names and, under each, the object it refers to. *)
Definition snapshot (h : gmap loc object) (l : loc)
    : option (gmap string (option object)) :=
  match h !! l with
  | Some (ParameterMap entries) => Some ((fun r => h !! r) <$> entries)
  | _ => None
  end.

(** A caller changes the dictionary at [l] itself: entries are bound,
    rebound or deleted. *)
Definition assign_entries (l : loc) (entries : gmap string loc)
    (h : gmap loc object) : gmap loc object :=
  <[l := ParameterMap entries]> h.

(** A caller changes, in place, the object the dictionary at [l] holds
    under [name]. *)
Definition assign_inside (l : loc) (name : string) (o : object)
    (h : gmap loc object) : gmap loc object :=
  match h !! l with
  | Some (ParameterMap entries) =>
    match entries !! name with
    | Some r => <[r := o]> h
    | None => h
    end
  | _ => h
  end.

(** Every reference of the stored map leads to a live object. *)
Definition store_closed (w : world) : Prop :=
  exists entries,
    heap w !! _latest_data (cl w) = Some (ParameterMap entries)
    /\ forall name r, entries !! name = Some r -> is_Some (heap w !! r).

End WithCollaborators.
Arguments object : clear implicits.
Arguments client : clear implicits.
Arguments event : clear implicits.
Arguments world : clear implicits.
Arguments parse_outcome : clear implicits.
Arguments registry_call : clear implicits.

End Client.

(** ** The coordinator *)

Module Coordinator.
Import Client.

(** The two bound methods the coordinator hands to the client. *)
Inductive bound_method :=
  | _handle_data_update
  | _handle_connection_change.

#[global] Instance bound_method_eq_dec : EqDecision bound_method.
Proof. solve_decision. Defined.

#[global, refine] Instance bound_method_finite : Finite bound_method :=
  {| enum := [_handle_data_update; _handle_connection_change] |}.
Proof.
- apply (bool_decide_unpack _). exact I.
- intros []; apply (bool_decide_unpack _); exact I.
Defined.

Section WithParameterData.

Context {ParameterData : Type}.

Abbreviation object := (Client.object ParameterData).
Abbreviation client := (Client.client bound_method).

(** The [{"connected": ..., "last_update": ..., "statistics": ...}]
    dictionary. *)
Definition connection_info (connected : value) (c : client) : object :=
  ConnectionInfo connected (Client.last_update c) (Client.statistics c).

(** Truth value of [self.data], of [data]: [None] and [{}] are false. *)
Definition nonempty (l : option loc) (h : gmap loc object) : bool :=
  match l with
  | Some l =>
    match h !! l with
    | Some (ParameterMap entries) => negb (bool_decide (entries = ∅))
    | Some _ => true
    | None => false
    end
  | None => false
  end.

(** [data["_connection"] = info] on the dictionary at [data]. *)
Definition set_connection (data : loc) (info : object) (h : gmap loc object)
    : outcome unit * gmap loc object :=
  match h !! data with
  | Some (ParameterMap entries) =>
    let '(l, h) := alloc info h in
    (Ok tt, <[data := ParameterMap (<["_connection" := l]> entries)]> h)
  | _ => (Raise (OtherError "TypeError"), h)
  end.

(** [_handle_data_update(data)]; [self] is [self.data], which
    [async_set_updated_data] assigns. *)
Definition handle_data_update (data : loc) (c : client) (self : option loc)
    (h : gmap loc object) : outcome unit * option loc * gmap loc object :=
  match set_connection data (connection_info (VBool (Client.connected c)) c) h with
  | (Ok _, h) => (Ok tt, Some data, h)
  | (Raise e, h) => (Raise e, self, h)
  end.

(** [_handle_connection_change(connected)] *)
Definition handle_connection_change (connected : value) (c : client)
    (self : option loc) (h : gmap loc object)
    : outcome unit * option loc * gmap loc object :=
  let '(current_data, h) :=
    match self with
    | Some data => if nonempty self h then (data, h) else alloc (ParameterMap ∅) h
    | None => alloc (ParameterMap ∅) h
    end in
  match set_connection current_data (connection_info connected c) h with
  | (Ok _, h) => (Ok tt, Some current_data, h)
  | (Raise e, h) => (Raise e, self, h)
  end.

(** The two bound methods when the client calls them with [data]. *)
Definition call (m : bound_method) (data : loc) (c : client)
    (self : option loc) (h : gmap loc object)
    : outcome unit * option loc * gmap loc object :=
  match m with
  | _handle_data_update => handle_data_update data c self h
  | _handle_connection_change => handle_connection_change (VRef data) c self h
  end.

(** Neither bound method calls [register_callback] or
    [unregister_callback]. *)
Definition registry_calls (m : bound_method) (data : loc) (c : client)
    (self : option loc) (h : gmap loc object) : list (registry_call bound_method) :=
  [].

(** [__init__], after [super().__init__]: the two registrations. *)
Definition __init__ (c : client) : outcome unit * client :=
  match call_with_handler "register_callback" _handle_data_update c with
  | (Ok _, c) =>
    call_with_handler "register_connection_callback" _handle_connection_change c
  | (Raise e, c) => (Raise e, c)
  end.

(** [_async_update_data]: the fallback fetch. *)
Definition _async_update_data (w : Client.world ParameterData bound_method (option loc))
    : outcome loc * Client.world ParameterData bound_method (option loc) :=
  match get_latest_data w with
  | (Ok data, w) =>
    if nonempty (Some data) (heap w) then
      match set_connection data
              (connection_info (VBool (Client.connected (cl w))) (cl w)) (heap w) with
      | (Ok _, h) => (Ok data, set_heap h w)
      | (Raise e, h) => (Raise e, set_heap h w)
      end
    else
      let '(l, h) := alloc (ParameterMap ∅) (heap w) in
      (Ok l, set_heap h w)
  | (Raise e, w) => (Raise e, w)
  end.

End WithParameterData.

End Coordinator.

(** ** A boiler, a parser and a host to run the client against *)

Module Scenario.
Import Client.

Definition K : constants := {|
  TELNET_DATA_STALENESS_TIMEOUT := 60;
  TELNET_MAX_CONSECUTIVE_TIMEOUTS := 3;
  TELNET_MAX_RECONNECT_DELAY := 300;
  TELNET_RECONNECT_DELAY := 5;
|}.

(** A parser for lines of the form ["pm <digit>"]: the digit is the value
    of ["temp"]; ["pm !"] makes it raise; ["pm "] and one other character
    gives an empty map; any other line nothing. *)
Definition parse_message (line : Py.text) : parse_outcome Z :=
  match line with
  | [p; m; sp; d] =>
    if (p =? 112) && (m =? 109) && (sp =? 32) then
      if (48 <=? d) && (d <=? 57) then ParseReturns (Some [("temp"%string, d - 48)])
      else if d =? 33 then ParseRaises (OtherError "ValueError")
      else ParseReturns (Some [])
    else ParseReturns None
  | _ => ParseReturns None
  end.

Abbreviation world := (Client.world Z Coordinator.bound_method (option loc)).

Definition iteration : answers -> world -> world :=
  Client.iteration K parse_message Coordinator.call Coordinator.registry_calls.

Definition _receiver_loop : list answers -> world -> world :=
  Client._receiver_loop K parse_message Coordinator.call Coordinator.registry_calls.

Definition _process_data : Z -> Py.bytes -> world -> world :=
  Client._process_data parse_message Coordinator.call Coordinator.registry_calls.

Definition bytes_of (s : string) : Py.bytes := String.list_byte_of_string s.

Definition LF : Py.bytes := [x0a].

(** A client fresh from [__init__] on an empty heap, with [handlers]
    registered, after [async_start] has set the running flag. *)
Definition started (handlers : list Coordinator.bound_method) : world :=
  let '(c, h) := __init__ K ∅ in
  {| cl := set_running true (foldl (fun c m => register_callback m c) c handlers);
     heap := h; app := None; trace := [] |}.

(** The boiler answers a connection attempt, then sends [data] at time
    [now]. *)
Definition sends (now : Z) (data : Py.bytes) : answers :=
  {| on_connect := Opened 1%nat 2%nat; now_check := now;
     on_read := ReadBytes data; now_store := now |}.


Definition refuses (now : Z) : answers :=
  {| on_connect := OpenRefused; now_check := now;
     on_read := ReadTimeout; now_store := now |}.

Definition hangs_up (now : Z) : answers :=
  {| on_connect := Opened 1%nat 2%nat; now_check := now;
     on_read := ReadBytes []; now_store := now |}.

Definition SECOND : Z := MICROSECONDS.

(** Bytes no line of which is a candidate frame. *)
Definition NOISE : Py.bytes := bytes_of "login:".

(** The client after it has connected and stored the frame ["pm 7"] at
    time 0, with [handlers] registered. *)
Definition after_first_frame (handlers : list Coordinator.bound_method) : world :=
  _receiver_loop [sends 0 (bytes_of "pm 7")] (started handlers).


(** A chunk of two candidate frames for which the parser returns an empty
    map. *)
Definition TWO_EMPTY_FRAMES : Py.bytes := bytes_of "pm x" ++ LF ++ bytes_of "pm y".

(** A chunk of three candidate frames: the parser raises on the first and
    returns a map for the second and for the third. *)
Definition THREE_FRAMES : Py.bytes :=
  bytes_of "pm !" ++ LF ++ bytes_of "pm 7" ++ LF ++ bytes_of "pm 8".

(** [await client.get_latest_data()], when it returns. *)
Definition fetch (w : world) : option loc * world :=
  match get_latest_data w with
  | (Ok l, w) => (Some l, w)
  | (Raise _, w) => (None, w)
  end.

(** What a caller reads under ["_connection"] in the dictionary at [l]. *)
Definition connection_of (w : world) (l : option loc) : option (object Z) :=
  match l with
  | Some l =>
    match snapshot (heap w) l with
    | Some entries => default None (entries !! "_connection"%string)
    | None => None
    end
  | None => None
  end.

Definition NO_STATISTICS : StatisticsData :=
  {| messages_received := 0; messages_parsed := 0; parse_errors := 0;
     reconnections := 0; last_error := None |}.

(** [d["_connection"]["connected"] = False] and the like, on the
    dictionary [d] at [l]. *)
Definition overwrite_connection (l : option loc) (w : world) : world :=
  match l with
  | Some l =>
    set_heap (assign_inside l "_connection"
                (ConnectionInfo (VBool false) None NO_STATISTICS) (heap w)) w
  | None => w
  end.

(** Two handlers of a host that counts the calls it gets: one returns,
    one raises. *)
Inductive probe := Quiet | Faulty.

#[global] Instance probe_eq_dec : EqDecision probe.
Proof. solve_decision. Defined.

#[global, refine] Instance probe_finite : Finite probe :=
  {| enum := [Quiet; Faulty] |}.
Proof.
- apply (bool_decide_unpack _). exact I.
- intros []; apply (bool_decide_unpack _); exact I.
Defined.

Definition call_probe (p : probe) (l : loc) (c : client probe) (calls : nat)
    (h : gmap loc (object Z)) : outcome unit * nat * gmap loc (object Z) :=
  match p with
  | Quiet => (Ok tt, S calls, h)
  | Faulty => (Raise (OtherError "RuntimeError"), S calls, h)
  end.

(** Neither probe touches the registry. *)
Definition probe_calls (p : probe) (l : loc) (c : client probe) (calls : nat)
    (h : gmap loc (object Z)) : list (registry_call probe) :=
  [].

(** A connected client with the two probes registered, the faulty one
    first. *)
Definition probed : Client.world Z probe nat :=
  let '(c, h) := __init__ K ∅ in
  {| cl := set_connected true (set_streams (Some 1%nat) (Some 2%nat)
             (set_running true
                (register_callback Quiet (register_callback Faulty c))));
     heap := h; app := 0%nat; trace := [] |}.

(** Two handlers of the same host: a one-shot subscription, which
    unregisters itself when it is called, and an ordinary listener. *)
Inductive subscriber := OneShot | Listener.

#[global] Instance subscriber_eq_dec : EqDecision subscriber.
Proof. solve_decision. Defined.

#[global, refine] Instance subscriber_finite : Finite subscriber :=
  {| enum := [OneShot; Listener] |}.
Proof.
- apply (bool_decide_unpack _). exact I.
- intros []; apply (bool_decide_unpack _); exact I.
Defined.

Definition call_subscriber (s : subscriber) (l : loc) (c : client subscriber)
    (calls : nat) (h : gmap loc (object Z))
    : outcome unit * nat * gmap loc (object Z) :=
  (Ok tt, S calls, h).

Definition subscriber_calls (s : subscriber) (l : loc) (c : client subscriber)
    (calls : nat) (h : gmap loc (object Z)) : list (registry_call subscriber) :=
  match s with
  | OneShot => [Unregister OneShot]
  | Listener => []
  end.

(** A connected client with the one-shot subscription registered first
    and the listener second. *)
Definition subscribed : Client.world Z subscriber nat :=
  let '(c, h) := __init__ K ∅ in
  {| cl := set_connected true (set_streams (Some 1%nat) (Some 2%nat)
             (set_running true
                (register_callback Listener (register_callback OneShot c))));
     heap := h; app := 0%nat; trace := [] |}.

End Scenario.

(** * Properties *)

(** ** The codecs *)

Module PyFacts.
Import Py.

(** Whatever holds of the empty decoding and is kept by [emit] and by the
    error handler holds of every decoding. *)
Lemma utf_8_decode_ind (errors : error_handler) (P : outcome text -> Prop) :
  P (Ok []) ->
  (forall c r, P r -> P (emit c r)) ->
  (forall r, P r -> P (on_error errors r)) ->
  forall s, P (utf_8_decode errors s).
Proof.
  intros Hnil Hemit Herr s.
  remember (length s) as n eqn:Hn. revert s Hn.
  induction n as [n IH] using lt_wf_ind. intros s Hn.
  assert (Hrec : forall s', (length s' < length s)%nat -> P (utf_8_decode errors s')).
  { intros s' Hlt. apply (IH (length s')); [lia | reflexivity]. }
  clear IH Hn.
  destruct s as [|b0 s1]; [exact Hnil|].
  assert (H1 : P (utf_8_decode errors s1)) by (apply Hrec; simpl; lia).
  cbn [utf_8_decode].
  destruct s1 as [|b1 s2].
  { repeat case_match; auto. }
  assert (H2 : P (utf_8_decode errors s2)) by (apply Hrec; simpl; lia).
  destruct s2 as [|b2 s3].
  { repeat case_match; auto. }
  assert (H3 : P (utf_8_decode errors s3)) by (apply Hrec; simpl; lia).
  destruct s3 as [|b3 s4].
  { repeat case_match; auto. }
  assert (H4 : P (utf_8_decode errors s4)) by (apply Hrec; simpl; lia).
  repeat case_match; auto.
Qed.

Lemma charmap_decode_ind (table : Z -> option Z) (errors : error_handler)
    (P : outcome text -> Prop) :
  P (Ok []) ->
  (forall c r, P r -> P (emit c r)) ->
  (forall r, P r -> P (on_error errors r)) ->
  forall s, P (charmap_decode table errors s).
Proof.
  intros Hnil Hemit Herr s.
  induction s as [|b s IH]; simpl; [exact Hnil|].
  destruct (table (byte_val b)); auto.
Qed.

Definition returns {A} (r : outcome A) : Prop := exists a, r = Ok a.

Lemma emit_returns c r : returns r -> returns (emit c r).
Proof. intros [t ->]. eexists; reflexivity. Qed.

(** With ["replace"] no codec raises. *)
Lemma utf_8_replace_total s : returns (utf_8_decode Replace s).
Proof.
  apply utf_8_decode_ind.
  - eexists; reflexivity.
  - apply emit_returns.
  - intros r Hr. apply emit_returns, Hr.
Qed.

Definition returns_or_decode_error (r : outcome text) : Prop :=
  returns r \/ r = Raise UnicodeDecodeError.

Lemma emit_returns_or_decode_error c r :
  returns_or_decode_error r -> returns_or_decode_error (emit c r).
Proof.
  intros [Hr | ->]; [left; apply emit_returns, Hr | right; reflexivity].
Qed.

(** A codec raises nothing but [UnicodeDecodeError]. *)
Lemma utf_8_raises_only_decode_error errors s :
  returns_or_decode_error (utf_8_decode errors s).
Proof.
  apply utf_8_decode_ind.
  - left; eexists; reflexivity.
  - apply emit_returns_or_decode_error.
  - intros r Hr. destruct errors; simpl.
    + right; reflexivity.
    + apply emit_returns_or_decode_error, Hr.
Qed.

(** Latin-1 maps every byte to the code point of the same number. *)
Lemma latin_1_total errors s :
  charmap_decode latin_1_table errors s = Ok (map byte_val s).
Proof.
  induction s as [|b s IH]; simpl; [reflexivity|].
  rewrite IH. reflexivity.
Qed.

Lemma decode_utf_8 errors data :
  decode "utf-8" errors data = utf_8_decode errors data.
Proof. reflexivity. Qed.

Lemma decode_latin_1 errors data :
  decode "latin-1" errors data = Ok (map byte_val data).
Proof. unfold decode; simpl. apply latin_1_total. Qed.

(** *** [str.strip], [str.split], [str.startswith] *)

Lemma lstrip_suffix s :
  exists blanks, s = blanks ++ lstrip s /\ forallb isspace blanks = true.
Proof.
  induction s as [|c s (blanks & Hs & Hb)]; simpl.
  - exists []. split; reflexivity.
  - destruct (isspace c) eqn:Hc.
    + exists (c :: blanks). simpl. rewrite Hc, Hb. split; [f_equal; exact Hs|reflexivity].
    + exists []. split; reflexivity.
Qed.

Lemma lstrip_head s c t : lstrip s = c :: t -> isspace c = false.
Proof.
  induction s as [|x s IH]; simpl; [discriminate|].
  destruct (isspace x) eqn:Hx; [exact IH|].
  intros [= -> _]. exact Hx.
Qed.

Lemma lstrip_fixed s : (forall c t, s = c :: t -> isspace c = false) -> lstrip s = s.
Proof.
  destruct s as [|c t]; [reflexivity|]. intros H. simpl.
  rewrite (H c t eq_refl). reflexivity.
Qed.

(** What [strip] returns sits inside its argument, between white space. *)
Lemma strip_infix s :
  exists before after,
    s = before ++ strip s ++ after
    /\ forallb isspace before = true /\ forallb isspace after = true.
Proof.
  unfold strip, rstrip.
  destruct (lstrip_suffix s) as (before & Hs & Hb).
  destruct (lstrip_suffix (rev (lstrip s))) as (blanks & Hr & Ha).
  exists before, (rev blanks). split; [|split; [exact Hb|]].
  - rewrite Hs at 1. f_equal.
    rewrite <- (rev_involutive (lstrip s)) at 1. rewrite Hr at 1.
    apply rev_app_distr.
  - rewrite forallb_forall in *. intros x Hx. apply Ha, in_rev, Hx.
Qed.

Lemma strip_head s c t : strip s = c :: t -> isspace c = false.
Proof.
  unfold strip, rstrip. intros Hs.
  destruct (lstrip_suffix (rev (lstrip s))) as (blanks & Hr & _).
  assert (Hl : lstrip s = (c :: t) ++ rev blanks).
  { rewrite <- Hs, <- rev_app_distr, <- Hr. symmetry. apply rev_involutive. }
  exact (lstrip_head s c _ Hl).
Qed.

Lemma strip_last s t c : strip s = t ++ [c] -> isspace c = false.
Proof.
  unfold strip, rstrip. intros Hs.
  apply (lstrip_head (rev (lstrip s)) c (rev t)).
  rewrite <- (rev_involutive (lstrip (rev (lstrip s)))), Hs.
  rewrite rev_app_distr. reflexivity.
Qed.

Lemma strip_idempotent s : strip (strip s) = strip s.
Proof.
  assert (Hl : lstrip (strip s) = strip s).
  { apply lstrip_fixed. intros c t. apply strip_head. }
  unfold strip at 1. rewrite Hl. unfold rstrip.
  rewrite lstrip_fixed; [apply rev_involutive|].
  intros c t Hr. apply (strip_last s (rev t) c).
  rewrite <- (rev_involutive (strip s)), Hr. reflexivity.
Qed.

Lemma split_nonempty sep s : split sep s <> [].
Proof.
  destruct s as [|c s]; simpl; [discriminate|].
  destruct (c =? sep); [discriminate|]. destruct (split sep s); discriminate.
Qed.

Lemma split_no_separator sep s :
  Forall (fun piece => ~ In sep piece) (split sep s).
Proof.
  induction s as [|c s IH]; simpl.
  - constructor; [intros []|constructor].
  - destruct (c =? sep) eqn:Hc.
    + constructor; [intros []|exact IH].
    + destruct (split sep s) as [|piece pieces]; [repeat constructor; simpl; lia|].
      apply Forall_cons in IH as [Hp Hps]. constructor; [|exact Hps].
      intros [Heq | Hin]; [lia | exact (Hp Hin)].
Qed.

Lemma join_split sep s : join sep (split sep s) = s.
Proof.
  induction s as [|c s IH]; [reflexivity|]. simpl.
  destruct (c =? sep) eqn:Hc.
  - apply Z.eqb_eq in Hc. subst c.
    pose proof (split_nonempty sep s) as Hne.
    change (join sep ([] :: split sep s))
      with (match split sep s with [] => [] | _ :: _ => [] ++ sep :: join sep (split sep s) end).
    destruct (split sep s) as [|piece pieces]; [congruence|].
    simpl. f_equal. exact IH.
  - destruct (split sep s) as [|piece pieces] eqn:Hsp.
    + exfalso. exact (split_nonempty sep s Hsp).
    + rewrite <- IH. destruct pieces; reflexivity.
Qed.

Lemma startswith_prefix s prefix :
  startswith s prefix = true <-> exists rest, s = prefix ++ rest.
Proof.
  revert s. induction prefix as [|p prefix IH]; intros s; simpl.
  - split; [exists s; reflexivity | destruct s; reflexivity].
  - destruct s as [|c s].
    + split; [discriminate | intros [rest Hr]; discriminate Hr].
    + simpl. rewrite andb_true_iff, Z.eqb_eq, IH. split.
      * intros [-> [rest ->]]. exists rest. reflexivity.
      * intros [rest [= -> ->]]. split; [reflexivity | exists rest; reflexivity].
Qed.

(** *** More on the codecs *)

Lemma byte_val_range b : 0 <= byte_val b < 256.
Proof.
  unfold byte_val. pose proof (Byte.to_N_bounded b) as Hb. lia.
Qed.

(** The induction principle again, with the input in view: what is
    decoded after a code point or after an error is a shorter input. *)
Lemma utf_8_decode_ind_sized (errors : error_handler)
    (P : bytes -> outcome text -> Prop) :
  P [] (Ok []) ->
  (forall s s' c r, (length s' < length s)%nat -> P s' r -> P s (emit c r)) ->
  (forall s s' r, (length s' < length s)%nat -> P s' r -> P s (on_error errors r)) ->
  forall s, P s (utf_8_decode errors s).
Proof.
  intros Hnil Hemit Herr s.
  remember (length s) as n eqn:Hn. revert s Hn.
  induction n as [n IH] using lt_wf_ind. intros s Hn.
  assert (Hrec : forall s', (length s' < length s)%nat -> P s' (utf_8_decode errors s')).
  { intros s' Hlt. apply (IH (length s')); [lia | reflexivity]. }
  clear IH Hn.
  destruct s as [|b0 s1]; [exact Hnil|].
  assert (H1 : P s1 (utf_8_decode errors s1)) by (apply Hrec; simpl; lia).
  cbn [utf_8_decode].
  destruct s1 as [|b1 s2].
  { repeat case_match;
      first [ eapply Hemit; [|eassumption]; simpl; lia
            | eapply Herr; [|eassumption]; simpl; lia ]. }
  assert (H2 : P s2 (utf_8_decode errors s2)) by (apply Hrec; simpl; lia).
  destruct s2 as [|b2 s3].
  { repeat case_match;
      first [ eapply Hemit; [|eassumption]; simpl; lia
            | eapply Herr; [|eassumption]; simpl; lia ]. }
  assert (H3 : P s3 (utf_8_decode errors s3)) by (apply Hrec; simpl; lia).
  destruct s3 as [|b3 s4].
  { repeat case_match;
      first [ eapply Hemit; [|eassumption]; simpl; lia
            | eapply Herr; [|eassumption]; simpl; lia ]. }
  assert (H4 : P s4 (utf_8_decode errors s4)) by (apply Hrec; simpl; lia).
  repeat case_match;
    first [ eapply Hemit; [|eassumption]; simpl; lia
          | eapply Herr; [|eassumption]; simpl; lia ].
Qed.

Lemma emit_Ok c r t : emit c r = Ok t -> exists t', r = Ok t' /\ t = c :: t'.
Proof. destruct r as [t'|e]; simpl; [|discriminate]. intros [= <-]. eauto. Qed.

Lemma on_error_Ok errors r t :
  on_error errors r = Ok t ->
  exists t', r = Ok t' /\ t = REPLACEMENT_CHARACTER :: t'.
Proof. destruct errors; simpl; [discriminate|apply emit_Ok]. Qed.

(** No codec yields more code points than it is given bytes. *)
Lemma utf_8_decode_length errors s t :
  utf_8_decode errors s = Ok t -> (length t <= length s)%nat.
Proof.
  revert t.
  apply (utf_8_decode_ind_sized errors
           (fun s r => forall t, r = Ok t -> (length t <= length s)%nat)).
  - intros t [= <-]. simpl. lia.
  - intros s0 s' c r Hlt IH t (t' & -> & ->)%emit_Ok.
    specialize (IH t' eq_refl). simpl. lia.
  - intros s0 s' r Hlt IH t (t' & -> & ->)%on_error_Ok.
    specialize (IH t' eq_refl). simpl. lia.
Qed.

(** Bytes below 0x80 are their own code points in UTF-8. *)
Lemma utf_8_decode_ascii errors s :
  Forall (fun b => byte_val b < 0x80) s ->
  utf_8_decode errors s = Ok (map byte_val s).
Proof.
  induction 1 as [|b s Hb Hs IH]; [reflexivity|].
  cbn [utf_8_decode]. apply Z.ltb_lt in Hb. rewrite Hb, IH. reflexivity.
Qed.

(** *** Code points *)

Lemma land_low a (n : Z) : 0 <= n -> Z.land a (Z.ones n) = a mod 2 ^ n.
Proof. apply Z.land_ones. Qed.

Ltac comparisons :=
  unfold is_continuation in *;
  repeat match goal with
  | H : (_ || _) = false |- _ => apply orb_false_iff in H; destruct H
  | H : (_ && _) = true |- _ => apply andb_true_iff in H; destruct H
  | H : (_ && _) = false |- _ => apply andb_false_iff in H; destruct H
  | H : negb _ = false |- _ => apply negb_false_iff in H
  | H : negb _ = true |- _ => apply negb_true_iff in H
  | H : (_ <? _) = true |- _ => apply Z.ltb_lt in H
  | H : (_ <? _) = false |- _ => apply Z.ltb_ge in H
  | H : (_ <=? _) = true |- _ => apply Z.leb_le in H
  | H : (_ <=? _) = false |- _ => apply Z.leb_gt in H
  | H : (_ =? _) = true |- _ => apply Z.eqb_eq in H
  | H : (_ =? _) = false |- _ => apply Z.eqb_neq in H
  | H : (if ?c then _ else _) = _ |- _ => destruct c eqn:?
  end.

Ltac code_point :=
  unfold cp2, cp3, cp4;
  change 0x1F with (Z.ones 5); change 0x0F with (Z.ones 4);
  change 0x07 with (Z.ones 3); change 0x3F with (Z.ones 6);
  rewrite !land_low by lia; rewrite !Z.shiftl_mul_pow2 by lia;
  change (2 ^ 3) with 8; change (2 ^ 4) with 16; change (2 ^ 5) with 32;
  change (2 ^ 6) with 64; change (2 ^ 12) with 4096; change (2 ^ 18) with 262144.

Lemma scalar_intro c :
  0 <= c <= 0x10FFFF -> ~ (0xD800 <= c <= 0xDFFF) -> is_scalar_value c = true.
Proof.
  intros Hr Hs. unfold is_scalar_value.
  destruct (Z.leb_spec 0 c), (Z.leb_spec c 0x10FFFF),
    (Z.leb_spec 0xD800 c), (Z.leb_spec c 0xDFFF); simpl; try reflexivity; lia.
Qed.

Lemma cp2_scalar ch ch2 :
  0xC2 <= ch < 0xE0 -> 0x80 <= ch2 < 0xC0 -> is_scalar_value (cp2 ch ch2) = true.
Proof.
  intros H1 H2. apply scalar_intro; code_point; Z.div_mod_to_equations; lia.
Qed.

Lemma cp3_scalar ch ch2 ch3 :
  0xE0 <= ch < 0xF0 -> 0x80 <= ch2 < 0xC0 -> 0x80 <= ch3 < 0xC0 ->
  ~ (ch = 0xED /\ 0xA0 <= ch2) ->
  is_scalar_value (cp3 ch ch2 ch3) = true.
Proof.
  intros H1 H2 H3 Hs. apply scalar_intro; code_point; Z.div_mod_to_equations; lia.
Qed.

Lemma cp4_scalar ch ch2 ch3 ch4 :
  0xF0 <= ch < 0xF5 -> 0x80 <= ch2 < 0xC0 -> 0x80 <= ch3 < 0xC0 ->
  0x80 <= ch4 < 0xC0 ->
  ~ (ch = 0xF0 /\ ch2 < 0x90) -> ~ (ch = 0xF4 /\ 0x90 <= ch2) ->
  is_scalar_value (cp4 ch ch2 ch3 ch4) = true.
Proof.
  intros H1 H2 H3 H4 Hlow Hhigh.
  apply scalar_intro; code_point; Z.div_mod_to_equations; lia.
Qed.

Ltac scalar_leaf :=
  lazymatch goal with
  | |- is_scalar_value (cp4 _ _ _ _) = true => apply cp4_scalar; lia
  | |- is_scalar_value (cp3 _ _ _) = true => apply cp3_scalar; lia
  | |- is_scalar_value (cp2 _ _) = true => apply cp2_scalar; lia
  | |- _ => apply scalar_intro; lia
  end.

(** The induction principle once more: the code points a decoder emits
    are scalar values. *)
Lemma utf_8_decode_ind_scalar (errors : error_handler) (P : outcome text -> Prop) :
  P (Ok []) ->
  (forall c r, is_scalar_value c = true -> P r -> P (emit c r)) ->
  (forall r, P r -> P (on_error errors r)) ->
  forall s, P (utf_8_decode errors s).
Proof.
  intros Hnil Hemit Herr s.
  remember (length s) as n eqn:Hn. revert s Hn.
  induction n as [n IH] using lt_wf_ind. intros s Hn.
  assert (Hrec : forall s', (length s' < length s)%nat -> P (utf_8_decode errors s')).
  { intros s' Hlt. apply (IH (length s')); [lia | reflexivity]. }
  clear IH Hn.
  assert (Hleaf : forall c r, is_scalar_value c = true -> P r -> P (emit c r))
    by exact Hemit.
  destruct s as [|b0 s1]; [exact Hnil|].
  assert (H1 : P (utf_8_decode errors s1)) by (apply Hrec; simpl; lia).
  pose proof (byte_val_range b0) as R0.
  cbn [utf_8_decode].
  destruct s1 as [|b1 s2].
  { repeat case_match; auto; (apply Hemit; [|assumption]);
      comparisons; scalar_leaf. }
  assert (H2 : P (utf_8_decode errors s2)) by (apply Hrec; simpl; lia).
  pose proof (byte_val_range b1) as R1.
  destruct s2 as [|b2 s3].
  { repeat case_match; auto; (apply Hemit; [|assumption]); comparisons; scalar_leaf. }
  assert (H3 : P (utf_8_decode errors s3)) by (apply Hrec; simpl; lia).
  pose proof (byte_val_range b2) as R2.
  destruct s3 as [|b3 s4].
  { repeat case_match; auto; (apply Hemit; [|assumption]); comparisons; scalar_leaf. }
  assert (H4 : P (utf_8_decode errors s4)) by (apply Hrec; simpl; lia).
  pose proof (byte_val_range b3) as R3.
  repeat case_match; auto; (apply Hemit; [|assumption]); comparisons; scalar_leaf.
Qed.

Lemma utf_8_decode_scalars errors s t :
  utf_8_decode errors s = Ok t -> forallb is_scalar_value t = true.
Proof.
  revert t. apply (utf_8_decode_ind_scalar errors
    (fun r => forall t, r = Ok t -> forallb is_scalar_value t = true)).
  - intros t [= <-]. reflexivity.
  - intros c r Hc IH t (t' & -> & ->)%emit_Ok. simpl. rewrite Hc. exact (IH t' eq_refl).
  - intros r IH t (t' & -> & ->)%on_error_Ok. simpl. exact (IH t' eq_refl).
Qed.

Lemma latin_1_scalars s : forallb is_scalar_value (map byte_val s) = true.
Proof.
  induction s as [|b s IH]; [reflexivity|]. simpl. rewrite IH, andb_true_r.
  pose proof (byte_val_range b). apply scalar_intro; lia.
Qed.

End PyFacts.

(** ** The frame decoder and the dispatcher *)

Module ClientFacts.
Import Client.

Section WithCollaborators.

Context {ParameterData : Type}.
Context {handler : Type} `{EqDecision handler} `{!Finite handler}.
Context {App : Type}.
Context (K : constants).
Context (parse_message : Py.text -> parse_outcome ParameterData).
Context (call_handler :
  handler -> loc -> client handler -> App -> gmap loc (object ParameterData) ->
  outcome unit * App * gmap loc (object ParameterData)).
Context (handler_calls :
  handler -> loc -> client handler -> App -> gmap loc (object ParameterData) ->
  list (registry_call handler)).

Abbreviation world := (Client.world ParameterData handler App).
Abbreviation notify_from := (Client.notify_from call_handler handler_calls).
Abbreviation notify := (Client.notify call_handler handler_calls).
Abbreviation process_lines :=
  (Client.process_lines parse_message call_handler handler_calls).
Abbreviation _process_data :=
  (Client._process_data parse_message call_handler handler_calls).
Abbreviation iteration := (Client.iteration K parse_message call_handler handler_calls).
Abbreviation _receiver_loop :=
  (Client._receiver_loop K parse_message call_handler handler_calls).
Abbreviation parses := (Client.parses parse_message).

Implicit Types (w : world) (c : client handler) (a : answers).

(** *** Decoding *)

Lemma try_encodings_utf_8_latin_1 (rest : list string) (data : Py.bytes) :
  try_encodings ("utf-8" :: "latin-1" :: rest)%string data =
  match Py.decode "utf-8" Py.Strict data with
  | Ok text => Ok (Some text)
  | Raise _ => Ok (Some (map Py.byte_val data))
  end.
Proof.
  cbn [try_encodings].
  rewrite PyFacts.decode_latin_1, PyFacts.decode_utf_8.
  destruct (PyFacts.utf_8_raises_only_decode_error Py.Strict data) as [[t ->] | ->];
    reflexivity.
Qed.

(** *** The registry under a handler's calls *)

Lemma list_remove_split (cb : handler) l :
  In cb l ->
  exists before after,
    l = before ++ cb :: after /\ ~ In cb before
    /\ list_remove cb l = before ++ after.
Proof.
  induction l as [|x l IH]; simpl; [tauto|]. intros Hin.
  destruct (bool_decide (x = cb)) eqn:Hd.
  - apply bool_decide_eq_true_1 in Hd. subst x.
    exists [], l. split; [reflexivity|]. split; [tauto|reflexivity].
  - apply bool_decide_eq_false_1 in Hd.
    destruct Hin as [Heq|Hin]; [contradiction|].
    destruct (IH Hin) as (before & after & -> & Hb & Hr).
    exists (x :: before), after. split; [reflexivity|]. split.
    + intros [Heq|Hi]; [exact (Hd Heq)|exact (Hb Hi)].
    + simpl. rewrite Hr. reflexivity.
Qed.

Lemma apply_call_fields (c : client handler) rc :
  apply_call c rc = set_data_callbacks (_data_callbacks (apply_call c rc)) c.
Proof.
  destruct rc as [cb|cb]; simpl; unfold register_callback, unregister_callback;
    destruct (bool_decide _); destruct c; reflexivity.
Qed.

(** Whatever a handler registers and unregisters, the rest of the client
    is as it was. *)
Lemma apply_calls_fields calls (c : client handler) :
  apply_calls calls c = set_data_callbacks (_data_callbacks (apply_calls calls c)) c.
Proof.
  revert c. induction calls as [|rc calls IH]; intros c; [destruct c; reflexivity|].
  change (apply_calls (rc :: calls) c) with (apply_calls calls (apply_call c rc)).
  generalize (IH (apply_call c rc)).
  generalize (_data_callbacks (apply_calls calls (apply_call c rc))). intros R ->.
  rewrite (apply_call_fields c rc). reflexivity.
Qed.

Lemma apply_calls_same calls (c : client handler) :
  _data_callbacks (apply_calls calls c) = _data_callbacks c -> apply_calls calls c = c.
Proof.
  intros Hr. rewrite apply_calls_fields, Hr. destruct c; reflexivity.
Qed.

(** **** The walk over the registry ends *)

Lemma filter_length_mono (P Q : handler -> Prop)
    `{!forall x, Decision (P x)} `{!forall x, Decision (Q x)} (E : list handler) :
  (forall y, y ∈ E -> Q y -> P y) ->
  (length (filter Q E) <= length (filter P E))%nat.
Proof.
  induction E as [|x E IH]; intros Hi; [reflexivity|].
  assert (IH' : (length (filter Q E) <= length (filter P E))%nat).
  { apply IH. intros y Hy. apply Hi. right. exact Hy. }
  rewrite !filter_cons.
  destruct (decide (Q x)) as [Hq|Hq]; destruct (decide (P x)) as [Hp|Hp]; simpl; try lia.
  exfalso. apply Hp, Hi; [left|exact Hq].
Qed.

(** One more element may pass the second test than the first. *)
Lemma filter_length_add (P Q : handler -> Prop)
    `{!forall x, Decision (P x)} `{!forall x, Decision (Q x)} cb (E : list handler) :
  NoDup E -> (forall y, y <> cb -> Q y -> P y) ->
  (length (filter Q E) <= length (filter P E) + 1)%nat.
Proof.
  induction 1 as [|x E Hx Hnd IH]; intros Hi; [simpl; lia|].
  rewrite !filter_cons. destruct (decide (x = cb)) as [->|Hne].
  - assert (Hm : (length (filter Q E) <= length (filter P E))%nat).
    { apply filter_length_mono. intros y Hy. apply Hi. intros ->. exact (Hx Hy). }
    destruct (decide (Q cb)); destruct (decide (P cb)); simpl; lia.
  - specialize (IH Hi).
    destruct (decide (Q x)) as [Hq|Hq]; destruct (decide (P x)) as [Hp|Hp]; simpl; try lia.
    exfalso. exact (Hp (Hi x Hne Hq)).
Qed.

(** One element passes the first test and not the second. *)
Lemma filter_length_drop (P Q : handler -> Prop)
    `{!forall x, Decision (P x)} `{!forall x, Decision (Q x)} cb (E : list handler) :
  cb ∈ E -> P cb -> ~ Q cb -> (forall y, Q y -> P y) ->
  (length (filter Q E) + 1 <= length (filter P E))%nat.
Proof.
  intros Hin Hp Hq Hi. induction E as [|x E IH]; [inversion Hin|].
  rewrite !filter_cons. apply elem_of_cons in Hin as [<-|Hin].
  - destruct (decide (Q cb)); [contradiction|]. destruct (decide (P cb)); [|contradiction].
    simpl. pose proof (filter_length_mono P Q E (fun y _ => Hi y)). lia.
  - specialize (IH Hin).
    destruct (decide (Q x)) as [Hq'|Hq']; destruct (decide (P x)) as [Hp'|Hp']; simpl;
      try lia.
    exfalso. exact (Hp' (Hi x Hq')).
Qed.

Lemma registry_potential_register cb (c : client handler) :
  (registry_potential (_data_callbacks (register_callback cb c))
   <= registry_potential (_data_callbacks c))%nat.
Proof.
  unfold register_callback. destruct (bool_decide (cb ∈ _data_callbacks c)) eqn:Hd;
    [reflexivity|].
  apply bool_decide_eq_false_1 in Hd. cbn [_data_callbacks set_data_callbacks].
  unfold registry_potential. rewrite length_app. simpl.
  pose proof (filter_length_drop (fun x => x ∉ _data_callbacks c)
                (fun x => x ∉ _data_callbacks c ++ [cb]) cb (enum handler)
                (elem_of_enum cb) Hd) as Hdrop.
  assert ((length (filter (fun x => x ∉ _data_callbacks c ++ [cb]) (enum handler)) + 1
           <= length (filter (fun x => x ∉ _data_callbacks c) (enum handler)))%nat).
  { apply Hdrop.
    - intros Hn. apply Hn, elem_of_app. right. left.
    - intros y Hy Hin. apply Hy, elem_of_app. left. exact Hin. }
  lia.
Qed.

Lemma registry_potential_unregister cb (c : client handler) :
  (registry_potential (_data_callbacks (unregister_callback cb c))
   <= registry_potential (_data_callbacks c))%nat.
Proof.
  unfold unregister_callback. destruct (bool_decide (cb ∈ _data_callbacks c)) eqn:Hd;
    [|reflexivity].
  apply bool_decide_eq_true_1 in Hd. cbn [_data_callbacks set_data_callbacks].
  destruct (list_remove_split cb (_data_callbacks c)) as (before & after & Hl & Hb & Hr);
    [apply list_elem_of_In, Hd|].
  rewrite Hr, Hl. unfold registry_potential. rewrite !length_app. simpl.
  pose proof (filter_length_add (fun x => x ∉ before ++ cb :: after)
                (fun x => x ∉ before ++ after) cb (enum handler) (NoDup_enum handler))
    as Hadd.
  assert ((length (filter (fun x => x ∉ before ++ after) (enum handler))
           <= length (filter (fun x => x ∉ before ++ cb :: after) (enum handler)) + 1)%nat).
  { apply Hadd. intros y Hy Hn Hin. apply Hn.
    apply elem_of_app in Hin as [Hin|Hin]; apply elem_of_app; [left; exact Hin|].
    apply elem_of_cons in Hin as [->|Hin]; [contradiction|]. right. exact Hin. }
  lia.
Qed.

Lemma registry_potential_apply_calls calls (c : client handler) :
  (registry_potential (_data_callbacks (apply_calls calls c))
   <= registry_potential (_data_callbacks c))%nat.
Proof.
  revert c. induction calls as [|rc calls IH]; intros c; [reflexivity|].
  change (apply_calls (rc :: calls) c) with (apply_calls calls (apply_call c rc)).
  etransitivity; [apply IH|].
  destruct rc; [apply registry_potential_register|apply registry_potential_unregister].
Qed.

Lemma registry_potential_bounds (c : client handler) :
  (length (_data_callbacks c) <= registry_potential (_data_callbacks c)
   <= dispatch_bound c)%nat.
Proof.
  unfold registry_potential, dispatch_bound, card.
  pose proof (length_filter (fun x => x ∉ _data_callbacks c) (enum handler)). lia.
Qed.

(** *** Dispatch *)

Lemma notify_from_step fuel i l w :
  notify_from (S fuel) i l w
  = match _data_callbacks (cl w) !! i with
    | None => w
    | Some callback =>
      notify_from fuel (S i) l
        (on_client
           (apply_calls (handler_calls callback l (cl w) (app w) (heap w)))
           (set_app (snd (fst (call_handler callback l (cl w) (app w) (heap w))))
              (set_heap (snd (call_handler callback l (cl w) (app w) (heap w)))
                 (record (EvCallback callback l) w))))
    end.
Proof.
  cbn [Client.notify_from]. destruct (_data_callbacks (cl w) !! i) as [cb|]; [|reflexivity].
  cbn [cl app heap record].
  destruct (call_handler cb l (cl w) (app w) (heap w)) as [[[u|e] a'] h']; reflexivity.
Qed.

(** The walk stops because the list ends, not because the fuel does:
    more fuel changes nothing. *)
Lemma notify_from_enough fuel fuel' i l w :
  (registry_potential (_data_callbacks (cl w)) <= fuel + i)%nat -> (fuel <= fuel')%nat ->
  notify_from fuel' i l w = notify_from fuel i l w.
Proof.
  revert fuel' i w. induction fuel as [|fuel IH]; intros fuel' i w Hp Hle.
  - pose proof (proj1 (registry_potential_bounds (cl w))) as Hlen.
    destruct fuel' as [|fuel']; [reflexivity|]. rewrite notify_from_step.
    rewrite lookup_ge_None_2 by lia. reflexivity.
  - destruct fuel' as [|fuel']; [lia|]. rewrite !notify_from_step.
    destruct (_data_callbacks (cl w) !! i) as [cb|]; [|reflexivity].
    apply IH; [|lia]. cbn [cl on_client set_app set_heap record].
    pose proof (registry_potential_apply_calls
                  (handler_calls cb l (cl w) (app w) (heap w)) (cl w)). lia.
Qed.

Lemma notify_enough fuel l w :
  (dispatch_bound (cl w) <= fuel)%nat -> notify_from fuel 0 l w = notify l w.
Proof.
  intros Hle. apply notify_from_enough; [|exact Hle].
  pose proof (proj2 (registry_potential_bounds (cl w))). lia.
Qed.

(** Whatever the handlers do, the dispatch is a row of calls with the
    object it is given, and it changes nothing of the client but the
    registry. *)
Lemma notify_from_frame fuel i l w :
  exists called cbs,
    trace (notify_from fuel i l w) = trace w ++ map (fun cb => EvCallback cb l) called
    /\ cl (notify_from fuel i l w) = set_data_callbacks cbs (cl w).
Proof.
  revert i w. induction fuel as [|fuel IH]; intros i w.
  - exists [], (_data_callbacks (cl w)). simpl. rewrite app_nil_r.
    split; [reflexivity|]. destruct (cl w); reflexivity.
  - rewrite notify_from_step. destruct (_data_callbacks (cl w) !! i) as [cb|].
    + match goal with |- context [notify_from fuel (S i) l ?w0] =>
        destruct (IH (S i) w0) as (called & cbs & Ht & Hc) end.
      exists (cb :: called), cbs. rewrite Ht, Hc. cbn [cl trace on_client set_app set_heap record].
      split; [rewrite <- app_assoc; reflexivity|].
      rewrite (apply_calls_fields _ (cl w)). reflexivity.
    + exists [], (_data_callbacks (cl w)). simpl. rewrite app_nil_r.
      split; [reflexivity|]. destruct (cl w); reflexivity.
Qed.

Lemma notify_frame l w :
  exists called cbs,
    trace (notify l w) = trace w ++ map (fun cb => EvCallback cb l) called
    /\ cl (notify l w) = set_data_callbacks cbs (cl w).
Proof. apply notify_from_frame. Qed.

(** When no handler changes the registry, the walk calls every handler of
    the list once, in the order of the list. *)
Lemma notify_from_leaves_registry fuel i l w :
  leaves_registry handler_calls ->
  trace (notify_from fuel i l w)
  = trace w ++ map (fun cb => EvCallback cb l) (take fuel (drop i (_data_callbacks (cl w))))
  /\ cl (notify_from fuel i l w) = cl w.
Proof.
  intros Hq. revert i w. induction fuel as [|fuel IH]; intros i w.
  - simpl. rewrite app_nil_r. split; reflexivity.
  - rewrite notify_from_step. destruct (_data_callbacks (cl w) !! i) as [cb|] eqn:Hi.
    + match goal with |- context [notify_from fuel (S i) l ?w0] =>
        destruct (IH (S i) w0) as (Ht & Hc) end.
      rewrite Ht, Hc. cbn [cl trace on_client set_app set_heap record].
      rewrite (apply_calls_same _ (cl w)) by apply Hq.
      rewrite (drop_S _ _ _ Hi). simpl. rewrite <- app_assoc. split; reflexivity.
    + rewrite drop_ge by (apply lookup_ge_None; exact Hi).
      rewrite take_nil. simpl. rewrite app_nil_r. split; reflexivity.
Qed.

Lemma notify_leaves_registry l w :
  leaves_registry handler_calls ->
  trace (notify l w)
  = trace w ++ map (fun cb => EvCallback cb l) (_data_callbacks (cl w))
  /\ cl (notify l w) = cl w.
Proof.
  intros Hq. destruct (notify_from_leaves_registry (dispatch_bound (cl w)) 0 l w Hq)
    as (Ht & Hc).
  split; [|exact Hc]. unfold Client.notify. rewrite Ht, drop_0, take_ge; [reflexivity|].
  unfold dispatch_bound. lia.
Qed.

(** The client after a dispatch, but for the registry. *)
Ltac notified :=
  match goal with
  | |- context [Client.notify _ _ ?l ?w0] =>
    let called := fresh "called" in
    let cbs := fresh "cbs" in
    let Ht := fresh "Ht" in
    let Hcl := fresh "Hcl" in
    destruct (notify_frame l w0) as (called & cbs & Ht & Hcl); rewrite Hcl; clear Ht
  end.

Lemma callback_events_inj l (called called' : list handler) :
  map (fun cb => EvCallback (handler := handler) cb l) called
  = map (fun cb => EvCallback cb l) called' ->
  called = called'.
Proof.
  revert called'. induction called as [|cb called IH]; intros [|cb' called']; simpl;
    try discriminate; [reflexivity|].
  intros [= -> Ht]. f_equal. apply IH, Ht.
Qed.

Lemma notify_spec l w :
  exists called cbs,
    trace (notify l w) = trace w ++ map (fun cb => EvCallback cb l) called
    /\ cl (notify l w) = set_data_callbacks cbs (cl w)
    /\ (leaves_registry handler_calls ->
        called = _data_callbacks (cl w) /\ cl (notify l w) = cl w).
Proof.
  destruct (notify_frame l w) as (called & cbs & Ht & Hc).
  exists called, cbs. split; [exact Ht|]. split; [exact Hc|].
  intros Hq. destruct (notify_leaves_registry l w Hq) as (Ht' & Hc').
  split; [|exact Hc']. rewrite Ht' in Ht. apply app_inv_head in Ht.
  symmetry. exact (callback_events_inj _ _ _ Ht).
Qed.

(** *** The line loop *)

Lemma candidates_cons line lines :
  candidates (line :: lines) =
  if is_candidate (Py.strip line) then Py.strip line :: candidates lines
  else candidates lines.
Proof. reflexivity. Qed.

Lemma link_untouched_refl c : link_untouched c c.
Proof. repeat split. Qed.

(** What the loop does when no candidate parses. *)
Lemma process_lines_none now lines w :
  Forall (fun line => parses line = false) (candidates lines) ->
  let w' := process_lines now lines w in
  trace w' = trace w ++ map EvParse (candidates lines)
  /\ heap w' = heap w /\ app w' = app w
  /\ link_untouched (cl w) (cl w')
  /\ _latest_data (cl w') = _latest_data (cl w)
  /\ _last_update (cl w') = _last_update (cl w)
  /\ messages_parsed (_stats (cl w')) = messages_parsed (_stats (cl w))
  /\ messages_received (_stats (cl w')) = messages_received (_stats (cl w)).
Proof.
  revert w. induction lines as [|line lines IH]; intros w Hnone; cbn zeta.
  - simpl. rewrite app_nil_r. repeat split.
  - rewrite candidates_cons in *. cbn [Client.process_lines].
    destruct (is_candidate (Py.strip line)) eqn:Hc; cbn [negb].
    + apply Forall_cons in Hnone as [Hline Hnone].
      unfold Client.parses in Hline.
      destruct (parse_message (Py.strip line)) as [[[|item items]|]|e];
        try discriminate Hline.
      * destruct (IH (record (EvParse (Py.strip line)) w) Hnone)
          as (Ht & Hh & Ha & Hl & Hd & Hu & Hp & Hr).
        rewrite Ht. simpl. rewrite <- app_assoc. repeat split; try tauto.
        all: try (apply Hl). all: assumption.
      * destruct (IH (record (EvParse (Py.strip line)) w) Hnone)
          as (Ht & Hh & Ha & Hl & Hd & Hu & Hp & Hr).
        rewrite Ht. simpl. rewrite <- app_assoc. repeat split; try tauto.
        all: try (apply Hl). all: assumption.
      * destruct (IH (on_stats incr_parse_errors (record (EvParse (Py.strip line)) w)) Hnone)
          as (Ht & Hh & Ha & Hl & Hd & Hu & Hp & Hr).
        rewrite Ht. simpl. rewrite <- app_assoc. repeat split; try tauto.
        all: try (apply Hl). all: assumption.
    + apply IH, Hnone.
Qed.


(** What the loop does at the first candidate that parses. *)
Lemma process_lines_select now lines w pre line post items :
  candidates lines = pre ++ line :: post ->
  Forall (fun x => parses x = false) pre ->
  parse_message line = ParseReturns (Some items) -> items <> [] ->
  let w' := process_lines now lines w in
  let l := fst (alloc_parsed items (heap w)) in
  (exists called,
     trace w' = trace w ++ map EvParse pre ++ [EvParse line; EvStore l]
                  ++ map (fun cb => EvCallback cb l) called
     /\ (leaves_registry handler_calls ->
         called = _data_callbacks (cl w)
         /\ _data_callbacks (cl w') = _data_callbacks (cl w)))
  /\ _latest_data (cl w') = l
  /\ _last_update (cl w') = Some now
  /\ messages_parsed (_stats (cl w')) = messages_parsed (_stats (cl w)) + 1.
Proof.
  intros Hc Hpre Hparse Hitems. cbn zeta.
  revert w pre Hc Hpre.
  induction lines as [|x lines IH]; intros w pre Hc Hpre.
  - destruct pre; discriminate Hc.
  - rewrite candidates_cons in Hc. cbn [Client.process_lines].
    destruct (is_candidate (Py.strip x)) eqn:Hx; cbn [negb].
    + destruct pre as [|p pre]; simpl in Hc; injection Hc as Hhd Htl.
      * rewrite Hhd, Hparse.
        destruct items as [|item items]; [congruence|].
        change (heap (record (EvParse line) w)) with (heap w).
        destruct (alloc_parsed (item :: items) (heap w)) as [l h] eqn:Hal.
        match goal with |- context [Client.notify _ _ l ?w0] =>
          destruct (notify_spec l w0) as (called & cbs & Ht & Hcl & Hq) end.
        rewrite Ht, Hcl. simpl in Hq |- *.
        split; [|repeat split]. exists called.
        split; [rewrite <- !app_assoc; reflexivity|].
        intros Hl. destruct (Hq Hl) as (-> & Hcl'). split; [reflexivity|].
        rewrite Hcl in Hcl'. apply (f_equal _data_callbacks) in Hcl'. exact Hcl'.
      * apply Forall_cons in Hpre as [Hp Hpre]. subst p.
        unfold Client.parses in Hp.
        destruct (parse_message (Py.strip x)) as [[[|i its]|]|e]; try discriminate Hp.
        all: match goal with |- context [Client.process_lines _ _ _ _ _ ?w0] =>
               destruct (IH w0 pre Htl Hpre) as ((called & Ht & Hq) & Hl & Hu & Hm) end.
        all: rewrite Hl, Hu, Hm; simpl in Ht, Hq |- *.
        all: split; [|repeat split]; exists called.
        all: split; [rewrite Ht, <- !app_assoc; reflexivity|exact Hq].
    + apply IH; assumption.
Qed.

(** The loop writes nothing but the latest-value store and its counters,
    and does nothing but parse, store and notify. *)
Lemma process_lines_frame now lines w :
  let w' := process_lines now lines w in
  link_untouched (cl w) (cl w')
  /\ messages_received (_stats (cl w')) = messages_received (_stats (cl w))
  /\ (_last_update (cl w') = _last_update (cl w) \/ _last_update (cl w') = Some now)
  /\ exists events, trace w' = trace w ++ events
       /\ forallb is_frame_event events = true.
Proof.
  cbn zeta. revert w. induction lines as [|x lines IH]; intros w.
  - simpl. split; [apply link_untouched_refl|]. split; [reflexivity|].
    split; [left; reflexivity|]. exists []. rewrite app_nil_r. split; reflexivity.
  - cbn [Client.process_lines].
    destruct (is_candidate (Py.strip x)) eqn:Hx; cbn [negb]; [|apply IH].
    destruct (parse_message (Py.strip x)) as [[[|i its]|]|e].
    2: {
      change (heap (record (EvParse (Py.strip x)) w)) with (heap w).
      destruct (alloc_parsed (i :: its) (heap w)) as [l h] eqn:Hal.
      match goal with |- context [Client.notify _ _ l ?w0] =>
        destruct (notify_frame l w0) as (called & cbs & Ht & Hcl) end.
      rewrite Ht, Hcl. simpl.
      split; [repeat split|]. split; [reflexivity|]. split; [right; reflexivity|].
      eexists. rewrite <- !app_assoc. split; [reflexivity|].
      simpl. clear. induction called; [reflexivity|assumption]. }
    all: match goal with |- context [Client.process_lines _ _ _ _ _ ?w0] =>
           destruct (IH w0) as (Hl & Hr & Hu & evs & Ht & Hf) end.
    all: split; [exact Hl|]; split; [exact Hr|]; split; [exact Hu|].
    all: exists (EvParse (Py.strip x) :: evs); rewrite Ht; simpl;
         rewrite <- app_assoc; split; [reflexivity|exact Hf].
Qed.

Lemma _process_data_frame now data w :
  let w' := _process_data now data w in
  link_untouched (cl w) (cl w')
  /\ messages_received (_stats (cl w')) = messages_received (_stats (cl w)) + 1
  /\ (_last_update (cl w') = _last_update (cl w) \/ _last_update (cl w') = Some now)
  /\ exists events, trace w' = trace w ++ events
       /\ forallb is_frame_event events = true.
Proof.
  cbn zeta. unfold Client._process_data.
  destruct (decode_chunk data) as [text|e].
  - destruct (process_lines_frame now (Py.split Py.NEWLINE (Py.strip text))
                (on_stats incr_messages_received w)) as (Hl & Hr & Hu & Hev).
    split; [exact Hl|]. split; [rewrite Hr; reflexivity|].
    split; [exact Hu|exact Hev].
  - simpl. split; [repeat split|]. split; [reflexivity|].
    split; [left; reflexivity|]. exists []. rewrite app_nil_r. split; reflexivity.
Qed.

(** *** Events *)

Lemma events_since_app w w' events :
  trace w' = trace w ++ events -> events_since w w' = events.
Proof. intros Ht. unfold events_since. rewrite Ht. apply drop_app_length. Qed.

Lemma count_app p (l1 l2 : list (event handler)) :
  count p (l1 ++ l2) = (count p l1 + count p l2)%nat.
Proof. unfold count. rewrite List.filter_app, length_app. reflexivity. Qed.

Lemma count_frame_events p (events : list (event handler)) :
  (forall e, is_frame_event e = true -> p e = false) ->
  forallb is_frame_event events = true -> count p events = 0%nat.
Proof.
  intros Hp. unfold count. induction events as [|e events IH]; simpl; [reflexivity|].
  intros [He Hf]%andb_prop. rewrite (Hp e He). apply IH, Hf.
Qed.

Lemma frame_event_not_sleep (e : event handler) :
  is_frame_event e = true -> is_sleep e = false.
Proof. destruct e; simpl; congruence. Qed.


Lemma frame_event_not_close (e : event handler) :
  is_frame_event e = true -> is_close e = false.
Proof. destruct e; simpl; congruence. Qed.

(** *** One pass through the loop body *)

Lemma loop_except_backoff e w :
  exists events, trace (loop_except K e w) = trace w ++ events
    /\ backoff_step K w (loop_except K e w) events.
Proof.
  unfold loop_except, _close_connection; simpl.
  destruct (_writer (cl w)); simpl; eexists; rewrite <- ?app_assoc;
    (split; [reflexivity|]); right; left; repeat split.
Qed.

Lemma check_and_read_backoff a w :
  exists events, trace (check_and_read K parse_message call_handler handler_calls a w) = trace w ++ events
    /\ backoff_step K w (check_and_read K parse_message call_handler handler_calls a w) events.
Proof.
  unfold check_and_read.
  destruct (stale K (now_check a) (cl w)) as [t|].
  { unfold _close_connection; simpl. destruct (_writer (cl w)); simpl.
    - eexists. split; [reflexivity|]. right; right; repeat split.
    - exists []. rewrite app_nil_r. split; [reflexivity|].
      right; right; repeat split. }
  destruct (_reader (cl w)) as [r|].
  2: { exists []. rewrite app_nil_r. split; [reflexivity|]. right; right; repeat split. }
  destruct (on_read a) as [[|b data]| |e].
  - simpl. eexists. split; [reflexivity|]. right; right; repeat split.
  - destruct (_process_data_frame (now_store a) (b :: data) (record (EvRead r) w))
      as (Hl & Hr & Hu & evs & Ht & Hf).
    exists (EvRead r :: evs). split.
    + cbn [cl on_client trace]. rewrite Ht. simpl. rewrite <- app_assoc. reflexivity.
    + left. cbn [cl on_client _reconnect_delay set_reconnect_delay
                 set_consecutive_timeouts _stats].
      split; [reflexivity|]. split; [rewrite Hr; reflexivity|].
      change (EvRead r :: evs) with ([EvRead r] ++ evs). rewrite count_app.
      apply (count_frame_events _ _ frame_event_not_sleep Hf).
  - unfold read_timeout, _close_connection. simpl.
    destruct (_ >=? _); simpl; [destruct (_writer (cl w)); simpl|];
      eexists; rewrite <- ?app_assoc; (split; [reflexivity|]);
      right; right; repeat split.
  - destruct (loop_except_backoff e (record (EvRead r) w)) as (evs & Ht & Hb).
    rewrite Ht. simpl. rewrite <- app_assoc. eexists. split; [reflexivity|].
    destruct Hb as [(?&?&?)|[(?&?&?)|(?&?&?)]];
      [left|right;left|right;right]; repeat split; try assumption;
      match goal with |- count _ (?e :: ?l) = _ =>
        change (e :: l) with ([e] ++ l); rewrite count_app; simpl; assumption end.
Qed.

Lemma iteration_backoff a w :
  exists events, trace (iteration a w) = trace w ++ events
    /\ backoff_step K w (iteration a w) events.
Proof.
  unfold Client.iteration.
  destruct (_connected (cl w)) eqn:Hconn; [apply check_and_read_backoff|].
  destruct (on_connect a) as [r wr|r wr| |]; cbn [_connect].
  - match goal with |- context [check_and_read _ _ _ _ _ ?w0] =>
      destruct (check_and_read_backoff a w0) as (evs & Ht & Hb) end.
    rewrite Ht. simpl. rewrite <- app_assoc. eexists. split; [reflexivity|].
    destruct Hb as [(?&?&?)|[(?&?&?)|(?&?&?)]];
      [left|right;left|right;right]; repeat split; try assumption;
      match goal with |- count _ (?e :: ?l) = _ =>
        change (e :: l) with ([e] ++ l); rewrite count_app; simpl; assumption end.
  - match goal with |- context [loop_except _ _ ?w0] =>
      destruct (loop_except_backoff HargassnerConnectionError w0) as (evs & Ht & Hb) end.
    rewrite Ht. simpl. rewrite <- app_assoc. eexists. split; [reflexivity|].
    destruct Hb as [(?&?&?)|[(?&?&?)|(?&?&?)]];
      [left|right;left|right;right]; repeat split; try assumption;
      match goal with |- count _ (?e :: ?l) = _ =>
        change (e :: l) with ([e] ++ l); rewrite count_app; simpl; assumption end.
  - match goal with |- context [loop_except _ _ ?w0] =>
      destruct (loop_except_backoff HargassnerTimeoutError w0) as (evs & Ht & Hb) end.
    rewrite Ht. simpl. rewrite <- app_assoc. eexists. split; [reflexivity|].
    destruct Hb as [(?&?&?)|[(?&?&?)|(?&?&?)]];
      [left|right;left|right;right]; repeat split; try assumption;
      match goal with |- count _ (?e :: ?l) = _ =>
        change (e :: l) with ([e] ++ l); rewrite count_app; simpl; assumption end.
  - match goal with |- context [loop_except _ _ ?w0] =>
      destruct (loop_except_backoff HargassnerConnectionError w0) as (evs & Ht & Hb) end.
    rewrite Ht. simpl. rewrite <- app_assoc. eexists. split; [reflexivity|].
    destruct Hb as [(?&?&?)|[(?&?&?)|(?&?&?)]];
      [left|right;left|right;right]; repeat split; try assumption;
      match goal with |- count _ (?e :: ?l) = _ =>
        change (e :: l) with ([e] ++ l); rewrite count_app; simpl; assumption end.
Qed.

(** *** The loop *)

Lemma _receiver_loop_cons a script w :
  _receiver_loop (a :: script) w =
  if _running (cl w) then _receiver_loop script (iteration a w) else w.
Proof. reflexivity. Qed.

Lemma min_double (b m : Z) (k : nat) :
  0 <= m ->
  Z.min (Z.min (b * 2 ^ Z.of_nat k) m * 2) m = Z.min (b * 2 ^ Z.of_nat (S k)) m.
Proof.
  intros Hm. rewrite Nat2Z.inj_succ, Z.pow_succ_r by lia.
  set (x := 2 ^ Z.of_nat k). lia.
Qed.




(** A pass whose connection attempt fails ends in the exception handler. *)
Lemma iteration_connect_fails a w :
  _connected (cl w) = false -> connect_fails (on_connect a) = true ->
  let w' := iteration a w in
  _connected (cl w') = false /\ _running (cl w') = _running (cl w)
  /\ _reconnect_delay (cl w')
       = Z.min (_reconnect_delay (cl w) * 2) (TELNET_MAX_RECONNECT_DELAY K)
  /\ _last_update (cl w') = _last_update (cl w)
  /\ messages_received (_stats (cl w')) = messages_received (_stats (cl w))
  /\ exists events, trace w' = trace w ++ events
       /\ count is_read events = 0%nat /\ count is_sleep events = 1%nat.
Proof.
  intros Hc Hf. cbn zeta. unfold Client.iteration. rewrite Hc.
  destruct (on_connect a) as [r wr|r wr| |]; try discriminate Hf;
    cbn [_connect]; unfold loop_except, _close_connection; simpl;
    try destruct (_writer (cl w)); simpl; repeat split;
    eexists; rewrite <- ?app_assoc; (split; [reflexivity|]); split; reflexivity.
Qed.


(** A pass that reads a non-empty chunk resets the delay. *)
Lemma iteration_reads_data a w r b data :
  _connected (cl w) = true -> _reader (cl w) = Some r ->
  stale K (now_check a) (cl w) = None -> on_read a = ReadBytes (b :: data) ->
  iteration a w =
  on_client (set_consecutive_timeouts 0)
    (on_client (set_reconnect_delay (TELNET_RECONNECT_DELAY K))
       (_process_data (now_store a) (b :: data) (record (EvRead r) w))).
Proof.
  intros Hc Hr Hs Hread. unfold Client.iteration, check_and_read.
  rewrite Hc, Hs, Hr, Hread. reflexivity.
Qed.

(** *** Reconnect backoff *)


(** *** The decoding chain *)

(** C5.  Decoding a chunk never raises and always yields a text: the
    source's loop over the encodings returns what the decoding policy
    prescribes (UTF-8 strict, Latin-1 strict, code page 1252 strict, first
    success wins, UTF-8 with replacement last), and that last resort itself
    returns a text for every byte sequence. *)
Theorem decode_chunk_never_raises (data : Py.bytes) :
  exists text,
    decode_chunk data = Ok text
    /\ decoding_policy data = Ok text
    /\ PyFacts.returns (Py.decode "utf-8" Py.Replace data).
Proof.
  unfold decode_chunk, decoding_policy, strictly, ENCODINGS.
  rewrite try_encodings_utf_8_latin_1, PyFacts.decode_latin_1.
  destruct (Py.decode "utf-8" Py.Strict data) as [text|e]; eexists;
    (split; [reflexivity|]); (split; [reflexivity|]);
    rewrite PyFacts.decode_utf_8; apply PyFacts.utf_8_replace_total.
Qed.

(** C10.  Strict Latin-1 decoding succeeds on every byte sequence (byte
    [n] becomes code point [n]); hence the loop over the encodings never
    ends with [text] unset, what follows ["latin-1"] in the list never
    matters, and the decoded text is that of strict UTF-8 or, when strict
    UTF-8 raises [UnicodeDecodeError], that of strict Latin-1. *)
Theorem latin_1_makes_fallbacks_unreachable (data : Py.bytes) :
  Py.decode "latin-1" Py.Strict data = Ok (map Py.byte_val data)
  /\ try_encodings ENCODINGS data <> Ok None
  /\ (forall rest : list string,
        try_encodings ("utf-8" :: "latin-1" :: rest)%string data
        = try_encodings ["utf-8"; "latin-1"]%string data)
  /\ ((exists text, Py.decode "utf-8" Py.Strict data = Ok text
                    /\ decode_chunk data = Ok text)
      \/ (Py.decode "utf-8" Py.Strict data = Raise UnicodeDecodeError
          /\ decode_chunk data = Py.decode "latin-1" Py.Strict data)).
Proof.
  split; [apply PyFacts.decode_latin_1|].
  split.
  { unfold ENCODINGS. rewrite try_encodings_utf_8_latin_1.
    destruct (Py.decode "utf-8" Py.Strict data); discriminate. }
  split.
  { intros rest. rewrite !try_encodings_utf_8_latin_1. reflexivity. }
  unfold decode_chunk, ENCODINGS. rewrite try_encodings_utf_8_latin_1.
  rewrite PyFacts.decode_latin_1, PyFacts.decode_utf_8.
  destruct (PyFacts.utf_8_raises_only_decode_error Py.Strict data) as [[t Ht] | Ht];
    rewrite Ht; [left; exists t; split; reflexivity | right; split; reflexivity].
Qed.

(** *** Connection attempts *)





(** *** Read timeouts *)



(** *** Staleness *)

Lemma stale_Some now c u :
  _last_update c = Some u ->
  now - u > TELNET_DATA_STALENESS_TIMEOUT K * MICROSECONDS ->
  stale K now c = Some (now - u).
Proof.
  intros Hu Hgt. unfold stale. rewrite Hu.
  destruct (_ >? _) eqn:Hcmp; [reflexivity|lia].
Qed.

Lemma stale_fresh now c u :
  _last_update c = Some u ->
  now - u <= TELNET_DATA_STALENESS_TIMEOUT K * MICROSECONDS ->
  stale K now c = None.
Proof.
  intros Hu Hle. unfold stale. rewrite Hu.
  destruct (_ >? _) eqn:Hcmp; [lia|reflexivity].
Qed.

Lemma stale_never_updated now c : _last_update c = None -> stale K now c = None.
Proof. intros Hu. unfold stale. rewrite Hu. reflexivity. Qed.

(** The staleness branch on a connected client. *)
Lemma iteration_stale_connected a w u wr :
  _connected (cl w) = true -> _writer (cl w) = Some wr ->
  _last_update (cl w) = Some u ->
  now_check a - u > TELNET_DATA_STALENESS_TIMEOUT K * MICROSECONDS ->
  let w' := iteration a w in
  _connected (cl w') = false
  /\ _reader (cl w') = None /\ _writer (cl w') = None
  /\ _running (cl w') = _running (cl w)
  /\ _last_update (cl w') = Some u
  /\ last_error (_stats (cl w')) = Some (DataStale (now_check a - u))
  /\ messages_received (_stats (cl w')) = messages_received (_stats (cl w))
  /\ _reconnect_delay (cl w') = _reconnect_delay (cl w)
  /\ trace w' = trace w ++ [EvClose wr].
Proof.
  intros Hc Hw Hu Hgt. cbn zeta. unfold Client.iteration, check_and_read.
  rewrite Hc, (stale_Some _ _ _ Hu Hgt). unfold _close_connection. simpl.
  rewrite Hw. simpl. repeat split. exact Hu.
Qed.

(** The staleness branch right after a successful connection attempt. *)
Lemma iteration_stale_reconnected a w u r wr :
  _connected (cl w) = false -> on_connect a = Opened r wr ->
  _last_update (cl w) = Some u ->
  now_check a - u > TELNET_DATA_STALENESS_TIMEOUT K * MICROSECONDS ->
  let w' := iteration a w in
  _connected (cl w') = false
  /\ _reader (cl w') = None /\ _writer (cl w') = None
  /\ _running (cl w') = _running (cl w)
  /\ _last_update (cl w') = Some u
  /\ last_error (_stats (cl w')) = Some (DataStale (now_check a - u))
  /\ messages_received (_stats (cl w')) = messages_received (_stats (cl w))
  /\ _reconnect_delay (cl w') = _reconnect_delay (cl w)
  /\ trace w' = trace w ++ [EvConnect; EvClose wr].
Proof.
  intros Hc Ho Hu Hgt. cbn zeta. unfold Client.iteration, check_and_read.
  rewrite Hc, Ho. cbn [_connect].
  rewrite (stale_Some (now_check a) _ u); [|exact Hu|exact Hgt].
  unfold _close_connection. simpl. rewrite <- app_assoc. repeat split. exact Hu.
Qed.

(** *** Unparseable reads *)

Lemma _process_data_none now data w :
  Forall (fun line => parses line = false) (candidates (chunk_lines data)) ->
  let w' := _process_data now data w in
  trace w' = trace w ++ map EvParse (candidates (chunk_lines data))
  /\ heap w' = heap w /\ app w' = app w
  /\ link_untouched (cl w) (cl w')
  /\ _latest_data (cl w') = _latest_data (cl w)
  /\ _last_update (cl w') = _last_update (cl w)
  /\ messages_parsed (_stats (cl w')) = messages_parsed (_stats (cl w)).
Proof.
  unfold chunk_lines, Client._process_data. cbn zeta.
  destruct (decode_chunk data) as [text|e]; intros Hnone.
  - destruct (process_lines_none now _ (on_stats incr_messages_received w) Hnone)
      as (Ht & Hh & Ha & Hl & Hd & Hu & Hp & _).
    split; [exact Ht|]. split; [exact Hh|]. split; [exact Ha|].
    split; [exact Hl|]. split; [exact Hd|]. split; [exact Hu|exact Hp].
  - simpl. rewrite app_nil_r. repeat split.
Qed.

Lemma parse_events_frame (lines : list Py.text) :
  forallb is_frame_event (map (EvParse (handler := handler)) lines) = true.
Proof. induction lines as [|line lines IH]; [reflexivity|exact IH]. Qed.

(** A pass that reads an unparseable chunk keeps the link and the
    latest-value store as they are. *)
Lemma iteration_unparseable a w r :
  _connected (cl w) = true -> _reader (cl w) = Some r ->
  stale K (now_check a) (cl w) = None ->
  reads_unparseable parse_message a ->
  let w' := iteration a w in
  _connected (cl w') = true
  /\ _reader (cl w') = Some r /\ _writer (cl w') = _writer (cl w)
  /\ _running (cl w') = _running (cl w)
  /\ _last_update (cl w') = _last_update (cl w)
  /\ _latest_data (cl w') = _latest_data (cl w)
  /\ messages_parsed (_stats (cl w')) = messages_parsed (_stats (cl w))
  /\ exists events, trace w' = trace w ++ events /\ count is_close events = 0%nat.
Proof.
  intros Hc Hr Hs (b & data & Hread & Hnone). cbn zeta.
  rewrite (iteration_reads_data a w r b data Hc Hr Hs Hread).
  destruct (_process_data_none (now_store a) (b :: data) (record (EvRead r) w) Hnone)
    as (Ht & _ & _ & Hl & Hd & Hu & Hp).
  destruct Hl as (Hl1 & Hl2 & Hl3 & Hl4 & _).
  cbn [cl on_client trace _connected _reader _writer _running _last_update
       _latest_data _stats set_consecutive_timeouts set_reconnect_delay].
  rewrite Hl1, Hl2, Hl3, Hl4, Hu, Hd, Hp, Ht. simpl.
  repeat split; try assumption.
  eexists. rewrite <- app_assoc. split; [reflexivity|].
  rewrite count_app. simpl.
  apply (count_frame_events _ _ frame_event_not_close), parse_events_frame.
Qed.

Lemma _receiver_loop_stopped script w :
  _running (cl w) = false -> _receiver_loop script w = w.
Proof. intros Hr. destruct script; simpl; [|rewrite Hr]; reflexivity. Qed.

Lemma _receiver_loop_app script1 script2 w :
  _receiver_loop (script1 ++ script2) w
  = _receiver_loop script2 (_receiver_loop script1 w).
Proof.
  revert w. induction script1 as [|a script1 IH]; intros w; [reflexivity|].
  simpl. destruct (_running (cl w)) eqn:Hr; [apply IH|].
  symmetry. apply _receiver_loop_stopped, Hr.
Qed.

(** Unparseable reads that come while the data is not stale change nothing
    about the link or the store. *)
Lemma _receiver_loop_unparseable script w r :
  _running (cl w) = true -> _connected (cl w) = true -> _reader (cl w) = Some r ->
  Forall (fun b => reads_unparseable parse_message b
                   /\ forall c : client handler,
                        _last_update c = _last_update (cl w) ->
                        stale K (now_check b) c = None) script ->
  let w' := _receiver_loop script w in
  _running (cl w') = true /\ _connected (cl w') = true
  /\ _reader (cl w') = Some r /\ _writer (cl w') = _writer (cl w)
  /\ _last_update (cl w') = _last_update (cl w)
  /\ _latest_data (cl w') = _latest_data (cl w)
  /\ messages_parsed (_stats (cl w')) = messages_parsed (_stats (cl w))
  /\ exists events, trace w' = trace w ++ events /\ count is_close events = 0%nat.
Proof.
  intros Hrun Hc Hr Hall. cbn zeta. revert w Hrun Hc Hr Hall.
  induction script as [|b script IH]; intros w Hrun Hc Hr Hall.
  - simpl. repeat split; try assumption. exists []. rewrite app_nil_r.
    split; reflexivity.
  - apply Forall_cons in Hall as [[Hb Hfresh] Hall].
    rewrite _receiver_loop_cons, Hrun.
    destruct (iteration_unparseable b w r Hc Hr (Hfresh _ eq_refl) Hb)
      as (Hc1 & Hr1 & Hw1 & Hrun1 & Hu1 & Hd1 & Hp1 & ev1 & Ht1 & Hn1).
    destruct (IH (iteration b w)) as (Hrun2 & Hc2 & Hr2 & Hw2 & Hu2 & Hd2 & Hp2 & ev2 & Ht2 & Hn2).
    + congruence.
    + exact Hc1.
    + exact Hr1.
    + eapply Forall_impl; [exact Hall|]. intros x [Hx1 Hx2]. split; [exact Hx1|].
      intros c Hcu. apply Hx2. congruence.
    + repeat split; try congruence.
      exists (ev1 ++ ev2). rewrite Ht2, Ht1, <- app_assoc. split; [reflexivity|].
      rewrite count_app, Hn1, Hn2. reflexivity.
Qed.

(** C2, as the code has it.  The staleness check is guarded by
    [if self._last_update:].  On a connected client that has stored a
    parsed map at [u], reads of unparseable data leave the link alone while
    the check sees no more than the timeout since [u]; the first pass whose
    check sees more records the error, closes the streams and clears the
    connected flag.  On a client that has never stored a parsed map the
    check is skipped: reads of unparseable data, however long they go on,
    leave it connected and close nothing. *)
Theorem staleness_disconnects_once_a_map_was_stored :
  (forall script a w u r wr,
     _running (cl w) = true -> _connected (cl w) = true ->
     _reader (cl w) = Some r -> _writer (cl w) = Some wr ->
     _last_update (cl w) = Some u ->
     Forall (fun b => reads_unparseable parse_message b
                      /\ now_check b - u
                         <= TELNET_DATA_STALENESS_TIMEOUT K * MICROSECONDS) script ->
     now_check a - u > TELNET_DATA_STALENESS_TIMEOUT K * MICROSECONDS ->
     let w1 := _receiver_loop script w in
     let w' := _receiver_loop (script ++ [a]) w in
     _connected (cl w1) = true /\ _last_update (cl w1) = Some u
     /\ count is_close (events_since w w1) = 0%nat
     /\ _connected (cl w') = false
     /\ _reader (cl w') = None /\ _writer (cl w') = None
     /\ last_error (_stats (cl w')) = Some (DataStale (now_check a - u))
     /\ events_since w1 w' = [EvClose wr])
  /\ (forall script w r,
        _running (cl w) = true -> _connected (cl w) = true ->
        _reader (cl w) = Some r -> _last_update (cl w) = None ->
        Forall (reads_unparseable parse_message) script ->
        let w' := _receiver_loop script w in
        _connected (cl w') = true /\ _last_update (cl w') = None
        /\ count is_close (events_since w w') = 0%nat).
Proof.
  split.
  - intros script a w u r wr Hrun Hc Hr Hw Hu Hall Hgt. cbn zeta.
    destruct (_receiver_loop_unparseable script w r Hrun Hc Hr)
      as (Hrun1 & Hc1 & Hr1 & Hw1 & Hu1 & _ & _ & ev & Ht & Hn).
    { eapply Forall_impl; [exact Hall|]. intros b [Hb Hle]. split; [exact Hb|].
      intros c Hcu. apply (stale_fresh _ _ u); [congruence|exact Hle]. }
    rewrite _receiver_loop_app. simpl. rewrite Hrun1.
    rewrite (events_since_app _ _ _ Ht).
    destruct (iteration_stale_connected a (_receiver_loop script w) u wr)
      as (Hc2 & Hr2 & Hw2 & _ & _ & He2 & _ & _ & Ht2); try congruence.
    rewrite (events_since_app _ _ _ Ht2).
    repeat split; try assumption; congruence.
  - intros script w r Hrun Hc Hr Hu Hall. cbn zeta.
    destruct (_receiver_loop_unparseable script w r Hrun Hc Hr)
      as (_ & Hc1 & _ & _ & Hu1 & _ & _ & ev & Ht & Hn).
    { eapply Forall_impl; [exact Hall|]. intros b Hb. split; [exact Hb|].
      intros c Hcu. apply stale_never_updated. congruence. }
    rewrite (events_since_app _ _ _ Ht). repeat split; try assumption; congruence.
Qed.

(** Once the data is stale and the client disconnected, a later pass does
    not read: a failed connection attempt ends in the exception handler, a
    successful one in the staleness branch. *)
Lemma iteration_stays_stale b w u :
  _connected (cl w) = false -> _last_update (cl w) = Some u ->
  now_check b - u > TELNET_DATA_STALENESS_TIMEOUT K * MICROSECONDS ->
  let w' := iteration b w in
  _connected (cl w') = false /\ _last_update (cl w') = Some u
  /\ messages_received (_stats (cl w')) = messages_received (_stats (cl w))
  /\ exists events, trace w' = trace w ++ events /\ count is_read events = 0%nat.
Proof.
  intros Hc Hu Hgt. cbn zeta.
  destruct (connect_fails (on_connect b)) eqn:Hf.
  - destruct (iteration_connect_fails b w Hc Hf)
      as (Hc' & _ & _ & Hu' & Hr' & ev & Ht & Hn & _).
    repeat split; try assumption; [congruence|]. exists ev. split; assumption.
  - destruct (on_connect b) as [r wr|r wr| |] eqn:Ho; try discriminate Hf.
    destruct (iteration_stale_reconnected b w u r wr Hc Ho Hu Hgt)
      as (Hc' & _ & _ & _ & Hu' & _ & Hr' & _ & Ht).
    repeat split; try assumption. eexists. split; [exact Ht|reflexivity].
Qed.

Lemma _receiver_loop_stays_stale script w u t :
  _connected (cl w) = false -> _last_update (cl w) = Some u ->
  t - u > TELNET_DATA_STALENESS_TIMEOUT K * MICROSECONDS ->
  Forall (fun b => t <= now_check b) script ->
  let w' := _receiver_loop script w in
  _connected (cl w') = false /\ _last_update (cl w') = Some u
  /\ messages_received (_stats (cl w')) = messages_received (_stats (cl w))
  /\ exists events, trace w' = trace w ++ events /\ count is_read events = 0%nat.
Proof.
  intros Hc Hu Hgt Hall. cbn zeta. revert w Hc Hu.
  induction Hall as [|b script Hb Hall IH]; intros w Hc Hu.
  - simpl. repeat split; try assumption. exists []. rewrite app_nil_r.
    split; reflexivity.
  - rewrite _receiver_loop_cons. destruct (_running (cl w)).
    2: { repeat split; try assumption. exists []. rewrite app_nil_r.
         split; reflexivity. }
    destruct (iteration_stays_stale b w u Hc Hu ltac:(lia))
      as (Hc1 & Hu1 & Hr1 & ev1 & Ht1 & Hn1).
    destruct (IH (iteration b w) Hc1 Hu1) as (Hc2 & Hu2 & Hr2 & ev2 & Ht2 & Hn2).
    repeat split; try assumption; [congruence|].
    exists (ev1 ++ ev2). rewrite Ht2, Ht1, <- app_assoc. split; [reflexivity|].
    rewrite count_app, Hn1, Hn2. reflexivity.
Qed.

(** C9.  Let a pass find the data stale ([now - lastUpdate] above the
    timeout, on a connected client or right after a successful connection
    attempt).  The pass leaves [_last_update] at its old value and the
    client disconnected.  From then on, as long as the clock does not go
    back: every pass in which the connection attempt succeeds finds the data
    stale again and closes the new streams before any read, and no pass of
    the run reads from the socket or receives a message. *)
Theorem staleness_is_permanent a w u wr :
  _last_update (cl w) = Some u ->
  now_check a - u > TELNET_DATA_STALENESS_TIMEOUT K * MICROSECONDS ->
  (_connected (cl w) = true /\ _writer (cl w) = Some wr)
  \/ (_connected (cl w) = false /\ exists r, on_connect a = Opened r wr) ->
  let w1 := iteration a w in
  _last_update (cl w1) = Some u /\ _connected (cl w1) = false
  /\ count is_read (events_since w w1) = 0%nat
  /\ (forall v b r' wr',
        _connected (cl v) = false -> _last_update (cl v) = Some u ->
        now_check a <= now_check b -> on_connect b = Opened r' wr' ->
        events_since v (iteration b v) = [EvConnect; EvClose wr']
        /\ _connected (cl (iteration b v)) = false
        /\ _last_update (cl (iteration b v)) = Some u)
  /\ (forall script,
        Forall (fun b => now_check a <= now_check b) script ->
        let w' := _receiver_loop script w1 in
        _last_update (cl w') = Some u /\ _connected (cl w') = false
        /\ count is_read (events_since w1 w') = 0%nat
        /\ messages_received (_stats (cl w')) = messages_received (_stats (cl w1))).
Proof.
  intros Hu Hgt Hlink. cbn zeta.
  assert (H1 : _last_update (cl (iteration a w)) = Some u
               /\ _connected (cl (iteration a w)) = false
               /\ count is_read (events_since w (iteration a w)) = 0%nat).
  { destruct Hlink as [[Hc Hw] | [Hc [r Ho]]].
    - destruct (iteration_stale_connected a w u wr Hc Hw Hu Hgt)
        as (Hc' & _ & _ & _ & Hu' & _ & _ & _ & Ht).
      rewrite (events_since_app _ _ _ Ht). repeat split; assumption.
    - destruct (iteration_stale_reconnected a w u r wr Hc Ho Hu Hgt)
        as (Hc' & _ & _ & _ & Hu' & _ & _ & _ & Ht).
      rewrite (events_since_app _ _ _ Ht). repeat split; assumption. }
  destruct H1 as (Hu1 & Hc1 & Hn1).
  split; [exact Hu1|]. split; [exact Hc1|]. split; [exact Hn1|]. split.
  - intros v b r' wr' Hcv Huv Hle Ho.
    destruct (iteration_stale_reconnected b v u r' wr' Hcv Ho Huv ltac:(lia))
      as (Hc' & _ & _ & _ & Hu' & _ & _ & _ & Ht).
    rewrite (events_since_app _ _ _ Ht). repeat split; assumption.
  - intros script Hall.
    destruct (_receiver_loop_stays_stale script (iteration a w) u (now_check a)
                Hc1 Hu1 Hgt Hall) as (Hc2 & Hu2 & Hr2 & ev & Ht & Hn).
    rewrite (events_since_app _ _ _ Ht). repeat split; assumption.
Qed.

(** *** Frame selection and dispatch *)

Lemma _process_data_select now data w pre line post items :
  candidates (chunk_lines data) = pre ++ line :: post ->
  Forall (fun x => parses x = false) pre ->
  parse_message line = ParseReturns (Some items) -> items <> [] ->
  let w' := _process_data now data w in
  let l := fst (alloc_parsed items (heap w)) in
  (exists called,
     trace w' = trace w ++ map EvParse pre ++ [EvParse line; EvStore l]
                  ++ map (fun cb => EvCallback cb l) called
     /\ (leaves_registry handler_calls ->
         called = _data_callbacks (cl w)
         /\ _data_callbacks (cl w') = _data_callbacks (cl w)))
  /\ _latest_data (cl w') = l
  /\ _last_update (cl w') = Some now
  /\ messages_parsed (_stats (cl w')) = messages_parsed (_stats (cl w)) + 1.
Proof.
  unfold chunk_lines, Client._process_data. cbn zeta.
  destruct (decode_chunk data) as [text|e]; intros Hc Hpre Hparse Hitems.
  - exact (process_lines_select now _ (on_stats incr_messages_received w)
             pre line post items Hc Hpre Hparse Hitems).
  - destruct pre; discriminate Hc.
Qed.

Lemma parses_items line :
  parses line = true ->
  exists items, parse_message line = ParseReturns (Some items) /\ items <> [].
Proof.
  unfold Client.parses.
  destruct (parse_message line) as [[[|item items]|]|e]; try discriminate.
  intros _. exists (item :: items). split; [reflexivity|discriminate].
Qed.

(** Either no line of a list parses, or there is a first one that does. *)
Lemma first_parsing (lines : list Py.text) :
  Forall (fun x => parses x = false) lines
  \/ exists pre line post,
       lines = pre ++ line :: post
       /\ Forall (fun x => parses x = false) pre /\ parses line = true.
Proof.
  induction lines as [|x lines IH]; [left; constructor|].
  destruct (parses x) eqn:Hx.
  - right. exists [], x, lines. repeat split; [constructor|exact Hx].
  - destruct IH as [Hnone | (pre & line & post & Heq & Hpre & Hline)].
    + left. constructor; assumption.
    + right. exists (x :: pre), line, post. rewrite Heq.
      repeat split; [constructor; assumption|exact Hline].
Qed.

Lemma count_map_callbacks p l (callbacks : list handler) :
  (forall cb, p (EvCallback cb l) = false) ->
  count p (map (fun cb => EvCallback cb l) callbacks) = 0%nat.
Proof.
  intros Hp. unfold count.
  induction callbacks as [|cb callbacks IH]; simpl; [reflexivity|].
  rewrite Hp. exact IH.
Qed.

Lemma count_map_parse p (lines : list Py.text) :
  (forall line, p (EvParse (handler := handler) line) = false) ->
  count p (map EvParse lines) = 0%nat.
Proof.
  intros Hp. unfold count.
  induction lines as [|x lines IH]; simpl; [reflexivity|].
  rewrite Hp. exact IH.
Qed.

(** C4, as the code has it.  Of the candidate frames of a chunk at most
    one is stored.  If some candidate parses to a non-empty map, the first
    such in line order is stored and handed to the data handlers (to every
    registered one, in order, when no handler changes the registry
    meanwhile), the candidates before it have been tried, and no candidate
    after it is parsed.  If no candidate does, every candidate has been
    tried and nothing is stored or handed out. *)
Theorem first_parsing_frame_is_the_only_one_stored now data w :
  let w' := _process_data now data w in
  (count is_store (events_since w w') <= 1)%nat
  /\ (forall pre line post items,
        candidates (chunk_lines data) = pre ++ line :: post ->
        Forall (fun x => parses x = false) pre ->
        parse_message line = ParseReturns (Some items) -> items <> [] ->
        let l := fst (alloc_parsed items (heap w)) in
        (exists called,
           events_since w w'
             = map EvParse pre ++ [EvParse line; EvStore l]
                 ++ map (fun cb => EvCallback cb l) called
           /\ (leaves_registry handler_calls -> called = _data_callbacks (cl w)))
        /\ count is_store (events_since w w') = 1%nat
        /\ _latest_data (cl w') = l
        /\ _last_update (cl w') = Some now
        /\ messages_parsed (_stats (cl w')) = messages_parsed (_stats (cl w)) + 1)
  /\ (Forall (fun x => parses x = false) (candidates (chunk_lines data)) ->
        events_since w w' = map EvParse (candidates (chunk_lines data))
        /\ count is_store (events_since w w') = 0%nat
        /\ _latest_data (cl w') = _latest_data (cl w)
        /\ _last_update (cl w') = _last_update (cl w)
        /\ heap w' = heap w
        /\ messages_parsed (_stats (cl w')) = messages_parsed (_stats (cl w))).
Proof.
  cbn zeta.
  assert (Hsel : forall pre line post items,
    candidates (chunk_lines data) = pre ++ line :: post ->
    Forall (fun x => parses x = false) pre ->
    parse_message line = ParseReturns (Some items) -> items <> [] ->
    (exists called,
       events_since w (_process_data now data w)
       = map EvParse pre ++ [EvParse line; EvStore (fst (alloc_parsed items (heap w)))]
           ++ map (fun cb => EvCallback cb (fst (alloc_parsed items (heap w)))) called
       /\ (leaves_registry handler_calls -> called = _data_callbacks (cl w)))
    /\ count is_store (events_since w (_process_data now data w)) = 1%nat
    /\ _latest_data (cl (_process_data now data w)) = fst (alloc_parsed items (heap w))
    /\ _last_update (cl (_process_data now data w)) = Some now
    /\ messages_parsed (_stats (cl (_process_data now data w)))
       = messages_parsed (_stats (cl w)) + 1).
  { intros pre line post items Hc Hpre Hparse Hitems.
    destruct (_process_data_select now data w pre line post items Hc Hpre Hparse Hitems)
      as ((called & Ht & Hq) & Hl & Hu & Hm).
    rewrite (events_since_app _ _ _ Ht).
    split; [|split; [|split; [exact Hl|split; [exact Hu|exact Hm]]]].
    - exists called. split; [reflexivity|]. intros Hlr. exact (proj1 (Hq Hlr)).
    - rewrite !count_app, count_map_parse, count_map_callbacks by reflexivity.
      reflexivity. }
  assert (Hnone : Forall (fun x => parses x = false) (candidates (chunk_lines data)) ->
    events_since w (_process_data now data w) = map EvParse (candidates (chunk_lines data))
    /\ count is_store (events_since w (_process_data now data w)) = 0%nat
    /\ _latest_data (cl (_process_data now data w)) = _latest_data (cl w)
    /\ _last_update (cl (_process_data now data w)) = _last_update (cl w)
    /\ heap (_process_data now data w) = heap w
    /\ messages_parsed (_stats (cl (_process_data now data w)))
       = messages_parsed (_stats (cl w))).
  { intros Hall.
    destruct (_process_data_none now data w Hall) as (Ht & Hh & _ & _ & Hd & Hu & Hp).
    rewrite (events_since_app _ _ _ Ht).
    split; [reflexivity|]. split; [apply count_map_parse; reflexivity|].
    repeat split; assumption. }
  split; [|split; [exact Hsel|exact Hnone]].
  destruct (first_parsing (candidates (chunk_lines data)))
    as [Hall | (pre & line & post & Heq & Hpre & Hline)].
  - destruct (Hnone Hall) as (_ & Hcount & _). rewrite Hcount. lia.
  - destruct (parses_items line Hline) as (items & Hparse & Hitems).
    destruct (Hsel pre line post items Heq Hpre Hparse Hitems) as (_ & Hcount & _).
    rewrite Hcount. lia.
Qed.

(** C8, as the code has it.  When [_process_data] stores a parsed map it
    walks the registry itself, position by position, at once after the
    store, and calls each handler it finds with the stored object; a
    handler that raises stops nothing.  The dispatch is a row of calls
    with that object and nothing else, and it leaves the client as it is
    but for the registry.  When no handler changes the registry while it
    runs, the handlers called are the registered ones, each once, in the
    order of registration, and the registry is as it was.  A pass of the
    loop that reads a non-empty chunk neither closes the connection nor
    sleeps, and leaves the connected flag as it was, whatever the handlers
    do. *)
Theorem handlers_notified_once_in_order_after_store :
  (forall l w,
     exists called cbs,
       trace (notify l w) = trace w ++ map (fun cb => EvCallback cb l) called
       /\ cl (notify l w) = set_data_callbacks cbs (cl w)
       /\ (leaves_registry handler_calls ->
           called = _data_callbacks (cl w) /\ cl (notify l w) = cl w))
  /\ (forall now data w pre line post items,
        candidates (chunk_lines data) = pre ++ line :: post ->
        Forall (fun x => parses x = false) pre ->
        parse_message line = ParseReturns (Some items) -> items <> [] ->
        let w' := _process_data now data w in
        exists before called,
          events_since w w'
            = before ++ [EvStore (_latest_data (cl w'))]
                ++ map (fun cb => EvCallback cb (_latest_data (cl w'))) called
          /\ count is_store before = 0%nat
          /\ (leaves_registry handler_calls ->
              called = _data_callbacks (cl w)
              /\ _data_callbacks (cl w') = _data_callbacks (cl w)))
  /\ (forall a w r b data,
        _connected (cl w) = true -> _reader (cl w) = Some r ->
        stale K (now_check a) (cl w) = None -> on_read a = ReadBytes (b :: data) ->
        let w' := iteration a w in
        _connected (cl w') = true /\ _running (cl w') = _running (cl w)
        /\ _reader (cl w') = Some r /\ _writer (cl w') = _writer (cl w)
        /\ count is_close (events_since w w') = 0%nat
        /\ count is_sleep (events_since w w') = 0%nat).
Proof.
  split; [|split].
  - intros l w. apply notify_spec.
  - intros now data w pre line post items Hc Hpre Hparse Hitems. cbn zeta.
    destruct (_process_data_select now data w pre line post items Hc Hpre Hparse Hitems)
      as ((called & Ht & Hq) & Hl & _ & _).
    rewrite Hl. exists (map EvParse pre ++ [EvParse line]), called.
    split; [|split; [|exact Hq]].
    + rewrite (events_since_app _ _ _ Ht). rewrite <- app_assoc. reflexivity.
    + rewrite count_app, count_map_parse by reflexivity. reflexivity.
  - intros a w r b data Hc Hr Hs Hread. cbn zeta.
    rewrite (iteration_reads_data a w r b data Hc Hr Hs Hread).
    destruct (_process_data_frame (now_store a) (b :: data) (record (EvRead r) w))
      as ((Hl1 & Hl2 & Hl3 & Hl4 & _) & _ & _ & evs & Ht & Hf).
    cbn [cl on_client _connected _running _reader _writer
         set_consecutive_timeouts set_reconnect_delay].
    rewrite Hl1, Hl2, Hl3, Hl4. simpl.
    erewrite events_since_app
      by (cbn [trace on_client]; rewrite Ht; simpl; rewrite <- app_assoc; reflexivity).
    repeat split; try assumption.
    + rewrite count_app. simpl.
      apply (count_frame_events _ _ frame_event_not_close Hf).
    + rewrite count_app. simpl.
      apply (count_frame_events _ _ frame_event_not_sleep Hf).
Qed.

(** *** The latest-value store *)

Lemma alloc_fresh (o : object ParameterData) (h : gmap loc (object ParameterData)) :
  h !! fst (alloc o h) = None /\ snd (alloc o h) = <[fst (alloc o h) := o]> h.
Proof.
  unfold alloc. simpl. split; [|reflexivity].
  apply not_elem_of_dom, is_fresh.
Qed.

Lemma snapshot_insert_other (h : gmap loc (object ParameterData)) l l' o entries :
  h !! l = Some (ParameterMap entries) -> l' <> l ->
  (forall name r, entries !! name = Some r -> r <> l') ->
  snapshot (<[l' := o]> h) l = snapshot h l.
Proof.
  intros Hl Hne Hcl. unfold snapshot.
  rewrite lookup_insert_ne by exact Hne. rewrite Hl. f_equal.
  apply map_fmap_ext. intros name r Hr.
  apply lookup_insert_ne. intros Heq. exact (Hcl name r Hr (eq_sym Heq)).
Qed.

Lemma iteration_peer_closed a w r :
  _connected (cl w) = true -> _reader (cl w) = Some r ->
  stale K (now_check a) (cl w) = None -> on_read a = ReadBytes [] ->
  let w' := iteration a w in
  _connected (cl w') = false /\ events_since w w' = [EvRead r].
Proof.
  intros Hc Hr Hs Hread. cbn zeta. unfold Client.iteration, check_and_read.
  rewrite Hc, Hs, Hr, Hread. split; [reflexivity|].
  apply events_since_app. reflexivity.
Qed.

(** C3, as the code has it.  [get_latest_data] returns a shallow copy: a
    new dictionary, distinct from the stored one, with the same entries,
    that is, referring to the same parameter objects.  Binding, rebinding
    or deleting entries of the returned dictionary changes neither what the
    store holds nor what a later [get_latest_data] returns, and the client,
    [_last_update] included, is not touched at all. *)
Theorem get_latest_data_returns_shallow_copy (w : world) :
  store_closed w ->
  exists l entries,
    heap w !! _latest_data (cl w) = Some (ParameterMap entries)
    /\ get_latest_data w = (Ok l, set_heap (<[l := ParameterMap entries]> (heap w)) w)
    /\ heap w !! l = None
    /\ l <> _latest_data (cl w)
    /\ cl (snd (get_latest_data w)) = cl w
    /\ snapshot (heap (snd (get_latest_data w))) l
       = snapshot (heap w) (_latest_data (cl w))
    /\ forall entries',
         let w' := set_heap (assign_entries l entries' (heap (snd (get_latest_data w))))
                     (snd (get_latest_data w)) in
         snapshot (heap w') (_latest_data (cl w'))
           = snapshot (heap w) (_latest_data (cl w))
         /\ _last_update (cl w') = _last_update (cl w)
         /\ exists l', fst (get_latest_data w') = Ok l'
              /\ snapshot (heap (snd (get_latest_data w'))) l'
                 = snapshot (heap w) (_latest_data (cl w)).
Proof.
  intros (entries & Hstore & Hclosed).
  destruct (alloc_fresh (ParameterMap entries) (heap w)) as (Hfresh & Halloc).
  set (l := fst (alloc (ParameterMap entries) (heap w))) in *.
  assert (Hget : get_latest_data w
                 = (Ok l, set_heap (<[l := ParameterMap entries]> (heap w)) w)).
  { unfold get_latest_data. rewrite Hstore. reflexivity. }
  assert (Hne : l <> _latest_data (cl w)).
  { intros Heq. rewrite Heq, Hstore in Hfresh. discriminate. }
  assert (Hother : forall name r, entries !! name = Some r -> r <> l).
  { intros name r Hr Heq. destruct (Hclosed name r Hr) as [o Ho].
    rewrite Heq, Hfresh in Ho. discriminate. }
  assert (Hsnap : forall o, snapshot (<[l := o]> (heap w)) (_latest_data (cl w))
                            = snapshot (heap w) (_latest_data (cl w))).
  { intros o. apply (snapshot_insert_other _ _ _ _ entries); assumption. }
  exists l, entries. rewrite Hget. simpl.
  split; [exact Hstore|]. split; [reflexivity|]. split; [exact Hfresh|].
  split; [exact Hne|]. split; [reflexivity|]. split.
  { unfold snapshot at 1. rewrite lookup_insert_eq.
    unfold snapshot. rewrite Hstore. f_equal.
    apply map_fmap_ext. intros name r Hr.
    apply lookup_insert_ne. intros Heq. exact (Hother name r Hr (eq_sym Heq)). }
  intros entries'. unfold assign_entries. rewrite insert_insert_eq.
  split; [apply Hsnap|]. split; [reflexivity|].
  set (h2 := <[l := ParameterMap entries']> (heap w)).
  assert (Hstore2 : h2 !! _latest_data (cl w) = Some (ParameterMap entries)).
  { unfold h2. rewrite lookup_insert_ne by exact Hne. exact Hstore. }
  destruct (alloc_fresh (ParameterMap entries) h2) as (Hfresh2 & _).
  set (l2 := fst (alloc (ParameterMap entries) h2)) in *.
  exists l2. unfold get_latest_data. simpl. fold h2. rewrite Hstore2. simpl.
  split; [reflexivity|]. fold l2.
  unfold snapshot at 1. rewrite lookup_insert_eq.
  unfold snapshot. rewrite Hstore. f_equal.
  apply map_fmap_ext. intros name r Hr.
  assert (Hr2 : r <> l2).
  { intros Heq. destruct (Hclosed name r Hr) as [o Ho].
    assert (Hrl : r <> l) by exact (Hother name r Hr).
    rewrite Heq in Hrl, Ho. unfold h2 in Hfresh2.
    rewrite lookup_insert_ne in Hfresh2 by (intros E; apply Hrl; symmetry; exact E).
    rewrite Hfresh2 in Ho. discriminate. }
  rewrite lookup_insert_ne by (intros E; apply Hr2; symmetry; exact E).
  unfold h2. apply lookup_insert_ne. intros Heq. exact (Hother name r Hr (eq_sym Heq)).
Qed.

(** ** Further properties of the client *)

(** *** What the parser is given *)

Lemma candidates_In lines line :
  In line (candidates lines) ->
  is_candidate line = true /\ exists raw, In raw lines /\ line = Py.strip raw.
Proof.
  unfold candidates. rewrite List.filter_In, in_map_iff.
  intros [(raw & Hraw & Hin) Hc]. split; [exact Hc|]. exists raw. split; [exact Hin|].
  symmetry. exact Hraw.
Qed.

Lemma parse_events_In (line : Py.text) (lines : list Py.text) :
  In (EvParse (handler := handler) line) (map EvParse lines) -> In line lines.
Proof.
  rewrite in_map_iff. intros (x & [= ->] & Hx). exact Hx.
Qed.

(** The lines tried by [_process_data] are candidates of the chunk. *)
Lemma _process_data_parses_candidates now data w line :
  In (EvParse line) (events_since w (_process_data now data w)) ->
  In line (candidates (chunk_lines data)).
Proof.
  destruct (first_parsing (candidates (chunk_lines data)))
    as [Hall | (pre & line0 & post & Heq & Hpre & Hline)].
  - destruct (_process_data_none now data w Hall) as (Ht & _).
    rewrite (events_since_app _ _ _ Ht). apply parse_events_In.
  - destruct (parses_items line0 Hline) as (items & Hparse & Hitems).
    destruct (_process_data_select now data w pre line0 post items Heq Hpre Hparse Hitems)
      as ((called & Ht & _) & _).
    rewrite (events_since_app _ _ _ Ht), Heq. rewrite !in_app_iff.
    intros [Hin | [Hin | Hin]].
    + left. apply parse_events_In, Hin.
    + right. destruct Hin as [[= ->] | [Hin | []]]; [left; reflexivity | discriminate Hin].
    + apply in_map_iff in Hin as (cb & Hcb & _). discriminate Hcb.
Qed.

(** X1.  Every line [_process_data] hands to the parser is a trimmed
    frame: it is not empty, it begins with ["pm"], it has no white space at
    either end (trimming it again changes nothing), and it contains no line
    feed. *)
Theorem parser_is_given_trimmed_frames now data w line :
  In (EvParse line) (events_since w (_process_data now data w)) ->
  line <> []
  /\ (exists rest, line = Py.PM ++ rest)
  /\ Py.strip line = line
  /\ (forall (x : Z) rest, line = x :: rest -> Py.isspace x = false)
  /\ (forall rest (x : Z), line = rest ++ [x] -> Py.isspace x = false)
  /\ ~ In Py.NEWLINE line.
Proof.
  intros Hin. apply _process_data_parses_candidates in Hin.
  apply candidates_In in Hin as (Hc & raw & Hraw & ->).
  unfold is_candidate in Hc. apply andb_prop in Hc as [Hne Hpm].
  split; [intros Heq; rewrite Heq in Hne; discriminate Hne|].
  split; [apply PyFacts.startswith_prefix, Hpm|].
  split; [apply PyFacts.strip_idempotent|].
  split; [intros x rest; apply PyFacts.strip_head|].
  split; [intros rest x; apply PyFacts.strip_last|].
  unfold chunk_lines in Hraw. destruct (decode_chunk data) as [text|e]; [|destruct Hraw].
  pose proof (PyFacts.split_no_separator Py.NEWLINE (Py.strip text)) as Hsep.
  rewrite List.Forall_forall in Hsep. specialize (Hsep raw Hraw).
  destruct (PyFacts.strip_infix raw) as (before & after & Heq & _).
  intros Hnl. apply Hsep. rewrite Heq, !in_app_iff. right. left. exact Hnl.
Qed.

(** *** What decoding yields *)

Lemma decode_chunk_cases data :
  decode_chunk data
  = match Py.utf_8_decode Py.Strict data with
    | Ok text => Ok text
    | Raise _ => Ok (map Py.byte_val data)
    end.
Proof.
  unfold decode_chunk, ENCODINGS. rewrite try_encodings_utf_8_latin_1.
  rewrite PyFacts.decode_utf_8. destruct (Py.utf_8_decode Py.Strict data); reflexivity.
Qed.

(** X2.  A chunk of bytes below 0x80 decodes to the code points of the
    same numbers: ASCII protocol lines reach the parser as they were
    sent. *)
Theorem ascii_chunk_decodes_to_itself data :
  Forall (fun b => Py.byte_val b < 0x80) data ->
  decode_chunk data = Ok (map Py.byte_val data).
Proof.
  intros Hascii. rewrite decode_chunk_cases.
  rewrite (PyFacts.utf_8_decode_ascii _ _ Hascii). reflexivity.
Qed.

(** X3.  The text decoded from a chunk has at most one code point per
    byte, and every code point is a Unicode scalar value: within
    0..0x10FFFF and not a surrogate. *)
Theorem decoded_text_is_short_and_scalar data text :
  decode_chunk data = Ok text ->
  (length text <= length data)%nat
  /\ forallb Py.is_scalar_value text = true.
Proof.
  rewrite decode_chunk_cases.
  destruct (Py.utf_8_decode Py.Strict data) as [t|e] eqn:Hu; intros [= <-].
  - split; [exact (PyFacts.utf_8_decode_length _ _ _ Hu)
           |exact (PyFacts.utf_8_decode_scalars _ _ _ Hu)].
  - split; [rewrite length_map; lia | apply PyFacts.latin_1_scalars].
Qed.

(** *** The registry of data handlers *)

Lemma list_remove_not_in (cb : handler) l : ~ In cb l -> list_remove cb l = l.
Proof.
  induction l as [|x l IH]; simpl; [reflexivity|]. intros Hn.
  rewrite bool_decide_eq_false_2 by (intros ->; apply Hn; left; reflexivity).
  f_equal. apply IH. intros Hin. apply Hn. right. exact Hin.
Qed.

Lemma list_remove_app_last (cb : handler) l :
  ~ In cb l -> list_remove cb (l ++ [cb]) = l.
Proof.
  induction l as [|x l IH]; simpl.
  - intros _. rewrite bool_decide_eq_true_2 by reflexivity. reflexivity.
  - intros Hn.
    rewrite bool_decide_eq_false_2 by (intros ->; apply Hn; left; reflexivity).
    f_equal. apply IH. intros Hin. apply Hn. right. exact Hin.
Qed.

Lemma list_remove_In (cb x : handler) l :
  In x (list_remove cb l) -> In x l.
Proof.
  induction l as [|y l IH]; simpl; [tauto|].
  destruct (bool_decide (y = cb)); simpl; [tauto|]. intros [->|Hin]; [left; reflexivity|].
  right. apply IH, Hin.
Qed.

Lemma list_remove_NoDup (cb : handler) l :
  List.NoDup l -> List.NoDup (list_remove cb l) /\ ~ In cb (list_remove cb l).
Proof.
  induction 1 as [|x l Hx Hl [IHn IHi]]; simpl.
  - split; [constructor | tauto].
  - destruct (bool_decide (x = cb)) eqn:Hd.
    + apply bool_decide_eq_true_1 in Hd. subst x. split; assumption.
    + apply bool_decide_eq_false_1 in Hd. split.
      * constructor; [|exact IHn]. intros Hin. apply Hx. exact (list_remove_In _ _ _ Hin).
      * intros [Heq | Hin]; [exact (Hd Heq) | exact (IHi Hin)].
Qed.

(** X4.  [register_callback] is idempotent, adds a new handler at the end
    and nothing else, leaves everything but the registry alone, and never
    makes the registry hold a handler twice. *)
Theorem register_callback_is_idempotent cb (c : client handler) :
  register_callback cb (register_callback cb c) = register_callback cb c
  /\ In cb (_data_callbacks (register_callback cb c))
  /\ (exists added, _data_callbacks (register_callback cb c) = _data_callbacks c ++ added
        /\ (In cb (_data_callbacks c) -> added = [])
        /\ (~ In cb (_data_callbacks c) -> added = [cb]))
  /\ (List.NoDup (_data_callbacks c) ->
      List.NoDup (_data_callbacks (register_callback cb c)))
  /\ set_data_callbacks (_data_callbacks c) (register_callback cb c)
     = set_data_callbacks (_data_callbacks c) c.
Proof.
  unfold register_callback.
  destruct (bool_decide (cb ∈ _data_callbacks c)) eqn:Hd.
  - apply bool_decide_eq_true_1 in Hd. pose proof Hd as Hin. apply list_elem_of_In in Hin.
    rewrite bool_decide_eq_true_2 by exact Hd.
    split; [reflexivity|]. split; [exact Hin|]. split.
    { exists []. rewrite app_nil_r. repeat split; tauto. }
    split; [tauto|reflexivity].
  - apply bool_decide_eq_false_1 in Hd.
    assert (Hn : ~ In cb (_data_callbacks c)) by (rewrite <- list_elem_of_In; exact Hd).
    cbn [_data_callbacks set_data_callbacks].
    rewrite bool_decide_eq_true_2 by (apply list_elem_of_In, in_app_iff; right; left; reflexivity).
    split; [reflexivity|]. split; [apply in_app_iff; right; left; reflexivity|]. split.
    { exists [cb]. repeat split; tauto. }
    split; [|reflexivity]. intros Hnd.
    apply NoDup_ListNoDup, NoDup_app. rewrite NoDup_ListNoDup. split; [exact Hnd|]. split.
    + intros x Hx [->|[]]%list_elem_of_In. apply Hd, Hx.
    + apply NoDup_singleton.
Qed.

(** X5.  [unregister_callback] of a handler that is not registered
    changes nothing; it undoes the registration of a new handler; of a
    registered handler it takes the first occurrence out of the list and
    leaves every other entry where it was, in the same order; and from a
    registry without repetitions that removes the handler for good. *)
Theorem unregister_callback_undoes_registration cb (c : client handler) :
  (~ In cb (_data_callbacks c) -> unregister_callback cb c = c)
  /\ (~ In cb (_data_callbacks c) ->
      _data_callbacks (unregister_callback cb (register_callback cb c))
      = _data_callbacks c)
  /\ (List.NoDup (_data_callbacks c) ->
      List.NoDup (_data_callbacks (unregister_callback cb c))
      /\ ~ In cb (_data_callbacks (unregister_callback cb c))
      /\ forall x, x <> cb ->
           (In x (_data_callbacks (unregister_callback cb c)) <-> In x (_data_callbacks c)))
  /\ (In cb (_data_callbacks c) ->
      exists before after,
        _data_callbacks c = before ++ cb :: after
        /\ ~ In cb before
        /\ unregister_callback cb c = set_data_callbacks (before ++ after) c).
Proof.
  split; [|split; [|split]]; cycle 3.
  { intros Hin. unfold unregister_callback.
    rewrite bool_decide_eq_true_2 by (apply list_elem_of_In, Hin).
    destruct (list_remove_split cb (_data_callbacks c) Hin)
      as (before & after & Hl & Hb & Hr).
    exists before, after. rewrite Hr. split; [exact Hl|]. split; [exact Hb|reflexivity]. }
  - intros Hn. unfold unregister_callback.
    rewrite bool_decide_eq_false_2 by (rewrite list_elem_of_In; exact Hn). reflexivity.
  - intros Hn.
    assert (Hreg : register_callback cb c
                   = set_data_callbacks (_data_callbacks c ++ [cb]) c).
    { unfold register_callback.
      rewrite bool_decide_eq_false_2 by (rewrite list_elem_of_In; exact Hn).
      reflexivity. }
    rewrite Hreg. unfold unregister_callback.
    cbn [_data_callbacks set_data_callbacks].
    rewrite bool_decide_eq_true_2
      by (apply list_elem_of_In, in_app_iff; right; left; reflexivity).
    cbn [_data_callbacks set_data_callbacks]. apply list_remove_app_last, Hn.
  - intros Hnd. unfold unregister_callback.
    destruct (bool_decide (cb ∈ _data_callbacks c)) eqn:Hd.
    + cbn [_data_callbacks set_data_callbacks].
      destruct (list_remove_NoDup cb _ Hnd) as [H1 H2].
      split; [exact H1|]. split; [exact H2|].
      intros x Hx. split; [apply list_remove_In|].
      clear Hd H1 H2 Hnd. induction (_data_callbacks c) as [|y l IH]; simpl; [tauto|].
      intros [->|Hin].
      * rewrite bool_decide_eq_false_2 by exact Hx. left. reflexivity.
      * destruct (bool_decide (y = cb)); [exact Hin | right; apply IH, Hin].
    + apply bool_decide_eq_false_1 in Hd. rewrite list_elem_of_In in Hd.
      split; [exact Hnd|]. split; [exact Hd|]. tauto.
Qed.

(** *** Closing and stopping *)

(** X6.  [_close_connection] always leaves the client disconnected; when a
    writer is held it closes that writer once and drops both streams; with
    no writer it closes nothing.  Closing again changes nothing. *)
Theorem close_connection_is_idempotent w :
  _connected (cl (_close_connection w)) = false
  /\ _writer (cl (_close_connection w)) = None
  /\ (forall wr, _writer (cl w) = Some wr ->
        _reader (cl (_close_connection w)) = None
        /\ events_since w (_close_connection w) = [EvClose wr])
  /\ (_writer (cl w) = None ->
        _reader (cl (_close_connection w)) = _reader (cl w)
        /\ events_since w (_close_connection w) = [])
  /\ _close_connection (_close_connection w) = _close_connection w.
Proof.
  unfold _close_connection.
  destruct (_writer (cl w)) as [wr|] eqn:Hw; simpl.
  - split; [reflexivity|]. split; [reflexivity|]. split.
    { intros wr' [= <-]. split; [reflexivity|]. apply events_since_app. reflexivity. }
    split; [discriminate|reflexivity].
  - rewrite Hw. split; [reflexivity|]. split; [reflexivity|]. split; [discriminate|].
    split; [|reflexivity]. intros _. split; [reflexivity|].
    apply events_since_app. rewrite app_nil_r. reflexivity.
Qed.

(** X7.  [async_stop] clears the running flag, closes the connection (the
    writer once, if one is held) and touches neither the statistics nor
    the latest-value store nor the backoff delay.  After it the receive
    loop makes no pass, whatever the outside would answer.  Stopping twice
    is stopping once, and stopping a client that was never started is
    harmless. *)
Theorem async_stop_stops_and_is_idempotent w :
  _running (cl (async_stop w)) = false
  /\ _connected (cl (async_stop w)) = false
  /\ _writer (cl (async_stop w)) = None
  /\ _stats (cl (async_stop w)) = _stats (cl w)
  /\ _latest_data (cl (async_stop w)) = _latest_data (cl w)
  /\ _last_update (cl (async_stop w)) = _last_update (cl w)
  /\ _reconnect_delay (cl (async_stop w)) = _reconnect_delay (cl w)
  /\ _data_callbacks (cl (async_stop w)) = _data_callbacks (cl w)
  /\ events_since w (async_stop w)
     = match _writer (cl w) with Some wr => [EvClose wr] | None => [] end
  /\ (forall script, _receiver_loop script (async_stop w) = async_stop w)
  /\ async_stop (async_stop w) = async_stop w.
Proof.
  unfold async_stop, _close_connection. simpl.
  destruct (_writer (cl w)) as [wr|] eqn:Hw; simpl; rewrite ?Hw;
    repeat (split; [reflexivity|]).
  - split; [apply events_since_app; reflexivity|].
    split; [intros script; apply _receiver_loop_stopped; reflexivity|reflexivity].
  - split; [apply events_since_app; rewrite app_nil_r; reflexivity|].
    split; [intros script; apply _receiver_loop_stopped; reflexivity|reflexivity].
Qed.

(** A client fresh from [__init__] that is stopped without ever
    having been started: nothing is closed and nothing changes but the
    flags, which were already false. *)
Lemma async_stop_fresh (h : gmap loc (object ParameterData)) (a : App) :
  let w := {| cl := fst (__init__ (handler := handler) K h);
              heap := snd (__init__ (handler := handler) K h);
              app := a; trace := [] |} in
  async_stop w = w.
Proof. reflexivity. Qed.

(** *** Invariants of the receive loop *)

Lemma process_lines_counters now lines w :
  let c := cl w in
  let c' := cl (process_lines now lines w) in
  parse_errors (_stats c) <= parse_errors (_stats c')
  /\ ((messages_parsed (_stats c') = messages_parsed (_stats c)
       /\ _last_update c' = _last_update c /\ _latest_data c' = _latest_data c)
      \/ (messages_parsed (_stats c') = messages_parsed (_stats c) + 1
          /\ _last_update c' = Some now)).
Proof.
  cbn zeta. revert w. induction lines as [|x lines IH]; intros w.
  - simpl. split; [lia|]. left. repeat split.
  - cbn [Client.process_lines].
    destruct (is_candidate (Py.strip x)) eqn:Hx; cbn [negb]; [|apply IH].
    destruct (parse_message (Py.strip x)) as [[[|i its]|]|e].
    2: { change (heap (record (EvParse (Py.strip x)) w)) with (heap w).
         destruct (alloc_parsed (i :: its) (heap w)) as [l h] eqn:Hal.
         notified. simpl. split; [lia|]. right. split; reflexivity. }
    all: match goal with |- context [Client.process_lines _ _ _ _ _ ?w0] =>
           destruct (IH w0) as (He & Hcases) end.
    all: simpl in He, Hcases |- *; split; [lia|exact Hcases].
Qed.

Lemma _process_data_counters now data w :
  let c := cl w in
  let c' := cl (_process_data now data w) in
  parse_errors (_stats c) <= parse_errors (_stats c')
  /\ ((messages_parsed (_stats c') = messages_parsed (_stats c)
       /\ _last_update c' = _last_update c /\ _latest_data c' = _latest_data c)
      \/ (messages_parsed (_stats c') = messages_parsed (_stats c) + 1
          /\ _last_update c' = Some now)).
Proof.
  cbn zeta. unfold Client._process_data.
  destruct (decode_chunk data) as [text|e].
  - exact (process_lines_counters now _ (on_stats incr_messages_received w)).
  - simpl. split; [lia|]. left. repeat split.
Qed.

Ltac invariants :=
  unfold kept, streams_open, timeouts_in_range, stored_iff_parsed,
    parsed_within_received, counters_grow;
  simpl;
  repeat match goal with
  | |- context [match _writer ?c with _ => _ end] => destruct (_writer c) eqn:?; simpl
  | |- context [match _last_update ?c with _ => _ end] =>
      destruct (_last_update c) eqn:?; simpl
  end;
  repeat apply conj; intros; simpl in *;
  try discriminate; try tauto; try lia; eauto.

Lemma kept_refl c : kept K c c.
Proof. unfold kept, counters_grow. repeat apply conj; try tauto; lia. Qed.

Lemma kept_trans c1 c2 c3 : kept K c1 c2 -> kept K c2 c3 -> kept K c1 c3.
Proof.
  unfold kept, counters_grow.
  intros (A1 & A2 & A3 & A4 & A5 & A6 & A7 & A8) (B1 & B2 & B3 & B4 & B5 & B6 & B7 & B8).
  repeat apply conj; try tauto; lia.
Qed.

Lemma _close_connection_kept w : kept K (cl w) (cl (_close_connection w)).
Proof.
  unfold _close_connection. invariants.
Qed.

Lemma loop_except_kept e w : kept K (cl w) (cl (loop_except K e w)).
Proof.
  unfold loop_except, _close_connection. invariants.
Qed.

Lemma _connect_kept o w : kept K (cl w) (cl (snd (_connect o w))).
Proof. destruct o; invariants. Qed.

Lemma read_timeout_kept w : kept K (cl w) (cl (read_timeout K w)).
Proof.
  unfold read_timeout, _close_connection. simpl.
  destruct (_ >=? _) eqn:Hge; invariants.
Qed.

Lemma _process_data_kept now data w :
  kept K (cl w) (cl (_process_data now data w)).
Proof.
  destruct (_process_data_frame now data w)
    as ((Hr & Hw & Hc & _ & _ & Ht & Hre & _) & Hrecv & _).
  destruct (_process_data_counters now data w) as (Hpe & Hcases).
  unfold kept, streams_open, timeouts_in_range, stored_iff_parsed,
    parsed_within_received, counters_grow.
  rewrite Hr, Hw, Hc, Ht, Hrecv, Hre.
  destruct Hcases as [(Hp & Hu & _) | (Hp & Hu)]; rewrite Hp, Hu;
    repeat split; try tauto; try lia.
  - destruct (_last_update (cl w)); lia.
Qed.

Lemma check_and_read_kept a w :
  kept K (cl w) (cl (check_and_read K parse_message call_handler handler_calls a w)).
Proof.
  unfold check_and_read.
  destruct (stale K (now_check a) (cl w)) as [t|].
  { unfold _close_connection. invariants. }
  destruct (_reader (cl w)) as [r|]; [|apply kept_refl].
  destruct (on_read a) as [[|b data]| |e].
  - invariants.
  - eapply kept_trans; [apply (_process_data_kept (now_store a) (b :: data)
                                  (record (EvRead r) w))|].
    invariants.
  - apply (read_timeout_kept (record (EvRead r) w)).
  - apply (loop_except_kept e (record (EvRead r) w)).
Qed.

Lemma iteration_kept a w : kept K (cl w) (cl (iteration a w)).
Proof.
  unfold Client.iteration.
  destruct (_connected (cl w)) eqn:Hc; [apply check_and_read_kept|].
  pose proof (_connect_kept (on_connect a) w) as Hk.
  destruct (_connect (on_connect a) w) as [[u|e] w1]; simpl in Hk.
  - eapply kept_trans; [exact Hk|apply check_and_read_kept].
  - eapply kept_trans; [exact Hk|apply loop_except_kept].
Qed.

Lemma _receiver_loop_kept script w : kept K (cl w) (cl (_receiver_loop script w)).
Proof.
  revert w. induction script as [|a script IH]; intros w; [apply kept_refl|].
  rewrite _receiver_loop_cons. destruct (_running (cl w)); [|apply kept_refl].
  eapply kept_trans; [apply iteration_kept|apply IH].
Qed.

Lemma __init___kept_base (h : gmap loc (object ParameterData)) :
  let c := fst (__init__ (handler := handler) K h) in
  streams_open c /\ timeouts_in_range K c /\ stored_iff_parsed c
  /\ parsed_within_received c.
Proof.
  cbn zeta. unfold streams_open, timeouts_in_range, stored_iff_parsed,
    parsed_within_received. simpl. repeat apply conj; try discriminate; lia.
Qed.

Lemma _close_connection_disconnected w :
  _connected (cl (_close_connection w)) = false.
Proof. unfold _close_connection. destruct (_writer (cl w)); reflexivity. Qed.

(** X8.  A connected client holds both streams: the property holds of a
    client fresh from [__init__], registering handlers does not touch it,
    and every run of the receive loop, [_close_connection] and [async_stop]
    keep it. *)
Theorem connected_client_holds_both_streams :
  (forall h : gmap loc (object ParameterData),
     streams_open (fst (__init__ (handler := handler) K h)))
  /\ (forall cb c, streams_open c -> streams_open (register_callback cb c))
  /\ (forall script w,
        streams_open (cl w) -> streams_open (cl (_receiver_loop script w)))
  /\ (forall w, streams_open (cl (_close_connection w)))
  /\ (forall w, streams_open (cl (async_stop w))).
Proof.
  split; [intros h; apply (__init___kept_base h)|].
  split.
  { intros cb c Hc. unfold register_callback.
    destruct (bool_decide _); [exact Hc|exact Hc]. }
  split; [intros script w; apply (_receiver_loop_kept script w)|].
  split; intros w Hc.
  - rewrite _close_connection_disconnected in Hc. discriminate Hc.
  - unfold async_stop in Hc. rewrite _close_connection_disconnected in Hc.
    discriminate Hc.
Qed.

(** X9.  The consecutive-timeout counter never leaves the range from 0
    up to, and not including, the threshold (or 1, if the threshold is not
    positive): it is there after [__init__] and every run of the receive
    loop keeps it there. *)
Theorem timeout_counter_stays_below_threshold :
  (forall h : gmap loc (object ParameterData),
     timeouts_in_range K (fst (__init__ (handler := handler) K h)))
  /\ (forall script w,
        timeouts_in_range K (cl w) ->
        timeouts_in_range K (cl (_receiver_loop script w))).
Proof.
  split; [intros h; apply (__init___kept_base h)|].
  intros script w. apply (_receiver_loop_kept script w).
Qed.

(** X10.  Over every run of the receive loop no statistics counter goes
    down, and the number of parsed maps stays within the number of received
    chunks: at most one map is parsed per chunk. *)
Theorem counters_only_grow script w :
  counters_grow (_stats (cl w)) (_stats (cl (_receiver_loop script w)))
  /\ (parsed_within_received (cl w) ->
      parsed_within_received (cl (_receiver_loop script w)))
  /\ (forall h : gmap loc (object ParameterData),
        parsed_within_received (fst (__init__ (handler := handler) K h))).
Proof.
  destruct (_receiver_loop_kept script w) as (_ & _ & _ & Hp & Hg).
  split; [exact Hg|]. split; [exact Hp|]. intros h. apply (__init___kept_base h).
Qed.

(** X11.  [_last_update] is absent exactly as long as no map has been
    parsed: after [__init__] it is absent and [messages_parsed] is 0, and
    every run of the receive loop keeps the two in step. *)
Theorem last_update_is_set_iff_a_map_was_parsed :
  (forall h : gmap loc (object ParameterData),
     stored_iff_parsed (fst (__init__ (handler := handler) K h)))
  /\ (forall script w,
        stored_iff_parsed (cl w) ->
        stored_iff_parsed (cl (_receiver_loop script w))
        /\ (_last_update (cl (_receiver_loop script w)) = None
            <-> messages_parsed (_stats (cl (_receiver_loop script w))) = 0)).
Proof.
  split; [intros h; apply (__init___kept_base h)|].
  intros script w Hs.
  destruct (_receiver_loop_kept script w) as (_ & _ & Hk & _).
  specialize (Hk Hs). split; [exact Hk|].
  unfold stored_iff_parsed in Hk.
  destruct (_last_update (cl (_receiver_loop script w))); split; intros; try lia;
    try discriminate; reflexivity.
Qed.

(** *** The stored map *)

Lemma alloc_keeps (o o0 : object ParameterData) h l0 :
  h !! l0 = Some o0 -> snd (alloc o h) !! l0 = Some o0.
Proof.
  intros Hl. destruct (alloc_fresh o h) as (Hf & ->).
  rewrite lookup_insert_ne; [exact Hl|]. intros Heq. rewrite Heq, Hl in Hf. discriminate.
Qed.

Lemma alloc_items_keeps (items : list (string * ParameterData)) entries h l0 o0 :
  h !! l0 = Some o0 -> snd (alloc_items items entries h) !! l0 = Some o0.
Proof.
  revert entries h. induction items as [|[name d] items IH]; intros entries h Hl;
    [exact Hl|].
  cbn [alloc_items].
  pose proof (alloc_keeps (ParameterObject d) o0 h l0 Hl) as Hk.
  destruct (alloc (ParameterObject d) h) as [l h']. apply IH. exact Hk.
Qed.

Lemma alloc_parsed_spec (items : list (string * ParameterData)) h :
  (exists entries,
     snd (alloc_parsed items h) !! fst (alloc_parsed items h)
     = Some (ParameterMap entries))
  /\ forall l0 o0, h !! l0 = Some o0 -> snd (alloc_parsed items h) !! l0 = Some o0.
Proof.
  unfold alloc_parsed.
  pose proof (alloc_items_keeps items ∅ h) as Hk.
  destruct (alloc_items items ∅ h) as [entries h']. simpl in Hk. split.
  - exists entries. unfold alloc. simpl. apply lookup_insert_eq.
  - intros l0 o0 Hl. apply alloc_keeps, Hk, Hl.
Qed.

Lemma notify_from_keeps_maps fuel i l w l0 entries :
  keeps_maps call_handler ->
  heap w !! l0 = Some (ParameterMap entries) ->
  exists entries', heap (notify_from fuel i l w) !! l0 = Some (ParameterMap entries').
Proof.
  intros Hk. revert i w entries.
  induction fuel as [|fuel IH]; intros i w entries Hl; [simpl; eauto|].
  rewrite notify_from_step. destruct (_data_callbacks (cl w) !! i) as [cb|]; [|eauto].
  destruct (Hk cb l (cl w) (app w) (heap w) l0 entries Hl) as (entries' & He).
  apply (IH _ _ entries'). exact He.
Qed.

Lemma notify_keeps_maps l w l0 entries :
  keeps_maps call_handler ->
  heap w !! l0 = Some (ParameterMap entries) ->
  exists entries', heap (notify l w) !! l0 = Some (ParameterMap entries').
Proof. apply notify_from_keeps_maps. Qed.

Lemma process_lines_store_live now lines w :
  keeps_maps call_handler -> store_live w -> store_live (process_lines now lines w).
Proof.
  intros Hk. revert w. induction lines as [|x lines IH]; intros w Hw; [exact Hw|].
  cbn [Client.process_lines].
  destruct (is_candidate (Py.strip x)) eqn:Hx; cbn [negb]; [|apply IH, Hw].
  destruct (parse_message (Py.strip x)) as [[[|i its]|]|e]; try (apply IH; exact Hw).
  change (heap (record (EvParse (Py.strip x)) w)) with (heap w).
  destruct (alloc_parsed_spec (i :: its) (heap w)) as ((entries & Hl) & _).
  destruct (alloc_parsed (i :: its) (heap w)) as [l h] eqn:Hal. simpl in Hl.
  unfold store_live. notified. simpl.
  apply (notify_keeps_maps _ _ _ entries Hk). exact Hl.
Qed.

Lemma store_live_same w w' :
  heap w' = heap w -> _latest_data (cl w') = _latest_data (cl w) ->
  store_live w -> store_live w'.
Proof. unfold store_live. intros -> ->. tauto. Qed.

Lemma _close_connection_store w :
  heap (_close_connection w) = heap w
  /\ _latest_data (cl (_close_connection w)) = _latest_data (cl w).
Proof. unfold _close_connection. destruct (_writer (cl w)); split; reflexivity. Qed.

Lemma loop_except_store e w :
  heap (loop_except K e w) = heap w
  /\ _latest_data (cl (loop_except K e w)) = _latest_data (cl w).
Proof.
  unfold loop_except, _close_connection. simpl.
  destruct (_writer (cl w)); split; reflexivity.
Qed.

Lemma read_timeout_store w :
  heap (read_timeout K w) = heap w
  /\ _latest_data (cl (read_timeout K w)) = _latest_data (cl w).
Proof.
  unfold read_timeout, _close_connection. simpl.
  destruct (_ >=? _); simpl; [destruct (_writer (cl w))|]; split; reflexivity.
Qed.

Lemma check_and_read_store_live a w :
  keeps_maps call_handler -> store_live w ->
  store_live (check_and_read K parse_message call_handler handler_calls a w).
Proof.
  intros Hk Hw. unfold check_and_read.
  destruct (stale K (now_check a) (cl w)).
  { match goal with |- store_live (_close_connection ?w0) =>
      destruct (_close_connection_store w0) as [Hh Hl] end.
    eapply store_live_same; [exact Hh|exact Hl|exact Hw]. }
  destruct (_reader (cl w)) as [r|]; [|exact Hw].
  destruct (on_read a) as [[|b data]| |e].
  - exact Hw.
  - eapply (store_live_same (_process_data (now_store a) (b :: data) (record (EvRead r) w)));
      [reflexivity|reflexivity|].
    unfold Client._process_data.
    destruct (decode_chunk (b :: data)); [|exact Hw].
    apply (process_lines_store_live (now_store a) _
             (on_stats incr_messages_received (record (EvRead r) w)) Hk Hw).
  - destruct (read_timeout_store (record (EvRead r) w)) as [Hh Hl].
    eapply store_live_same; [exact Hh|exact Hl|exact Hw].
  - destruct (loop_except_store e (record (EvRead r) w)) as [Hh Hl].
    eapply store_live_same; [exact Hh|exact Hl|exact Hw].
Qed.

Lemma iteration_store_live a w :
  keeps_maps call_handler -> store_live w -> store_live (iteration a w).
Proof.
  intros Hk Hw. unfold Client.iteration.
  destruct (_connected (cl w)); [apply check_and_read_store_live; assumption|].
  destruct (on_connect a); cbn [_connect].
  - apply check_and_read_store_live; [exact Hk|exact Hw].
  - match goal with |- store_live (loop_except _ ?e ?w0) =>
      destruct (loop_except_store e w0) as [Hh Hl] end.
    eapply store_live_same; [exact Hh|exact Hl|exact Hw].
  - match goal with |- store_live (loop_except _ ?e ?w0) =>
      destruct (loop_except_store e w0) as [Hh Hl] end.
    eapply store_live_same; [exact Hh|exact Hl|exact Hw].
  - match goal with |- store_live (loop_except _ ?e ?w0) =>
      destruct (loop_except_store e w0) as [Hh Hl] end.
    eapply store_live_same; [exact Hh|exact Hl|exact Hw].
Qed.

(** X12.  If the handlers leave dictionaries dictionaries, [_latest_data]
    always refers to a dictionary: it does after [__init__] and after every
    run of the receive loop, so that [get_latest_data] returns and never
    raises. *)
Theorem get_latest_data_always_returns :
  keeps_maps call_handler ->
  (forall (h : gmap loc (object ParameterData)) (a : App) events,
     store_live {| cl := fst (__init__ (handler := handler) K h);
                   heap := snd (__init__ (handler := handler) K h);
                   app := a; trace := events |})
  /\ (forall script w,
        store_live w ->
        store_live (_receiver_loop script w)
        /\ exists l, fst (get_latest_data (_receiver_loop script w)) = Ok l).
Proof.
  intros Hk. split.
  - intros h a events. unfold store_live, __init__, alloc. simpl.
    exists ∅. apply lookup_insert_eq.
  - intros script w Hw.
    assert (Hlive : store_live (_receiver_loop script w)).
    { revert w Hw. induction script as [|x script IH]; intros w Hw; [exact Hw|].
      rewrite _receiver_loop_cons. destruct (_running (cl w)); [|exact Hw].
      apply IH, iteration_store_live; assumption. }
    split; [exact Hlive|]. destruct Hlive as (entries & He).
    unfold get_latest_data. rewrite He. eexists. reflexivity.
Qed.

(** *** Which writer is closed *)

Ltac since :=
  erewrite events_since_app
    by (simpl; rewrite <- ?app_assoc;
        first [reflexivity | symmetry; apply app_nil_r]).

Lemma loop_except_closes e w x :
  In (EvClose x) (events_since w (loop_except K e w)) -> _writer (cl w) = Some x.
Proof.
  unfold loop_except, _close_connection. simpl.
  destruct (_writer (cl w)) as [wr|]; simpl.
  - since.
    intros [[= ->]|[Hd|[]]]; [reflexivity|discriminate Hd].
  - since. intros [Hd|[]]. discriminate Hd.
Qed.

Lemma frame_events_no_close (events : list (event handler)) x :
  forallb is_frame_event events = true -> ~ In (EvClose x) events.
Proof.
  intros Hf Hin. rewrite forallb_forall in Hf. specialize (Hf _ Hin). discriminate Hf.
Qed.

(** Within a pass, after the connection is ensured, only the writer the
    client holds is closed. *)
Lemma check_and_read_closes a w x :
  In (EvClose x) (events_since w (check_and_read K parse_message call_handler handler_calls a w)) ->
  _writer (cl w) = Some x.
Proof.
  unfold check_and_read.
  destruct (stale K (now_check a) (cl w)) as [t|].
  { unfold _close_connection. simpl. destruct (_writer (cl w)) as [wr|]; simpl.
    - since. intros [[= ->]|[]]. reflexivity.
    - since. intros []. }
  destruct (_reader (cl w)) as [r|].
  2: { since. intros []. }
  destruct (on_read a) as [[|b data]| |e].
  - since. intros [Hd|[]]. discriminate Hd.
  - destruct (_process_data_frame (now_store a) (b :: data) (record (EvRead r) w))
      as (_ & _ & _ & evs & Ht & Hf).
    erewrite events_since_app
      by (cbn [trace on_client]; rewrite Ht; simpl; rewrite <- app_assoc; reflexivity).
    intros [Hd|Hin]; [discriminate Hd|]. destruct (frame_events_no_close _ _ Hf Hin).
  - unfold read_timeout, _close_connection. simpl.
    destruct (_ >=? _); simpl; [destruct (_writer (cl w)) as [wr|]; simpl|].
    + since.
      intros [Hd|[[= ->]|[]]]; [discriminate Hd|reflexivity].
    + since. intros [Hd|[]]. discriminate Hd.
    + since. intros [Hd|[]]. discriminate Hd.
  - destruct (loop_except_backoff e (record (EvRead r) w)) as (evs & Ht & _).
    pose proof (loop_except_closes e (record (EvRead r) w) x) as Hc.
    rewrite (events_since_app _ _ _ Ht) in Hc.
    erewrite events_since_app by (rewrite Ht; simpl; rewrite <- app_assoc; reflexivity).
    intros [Hd|Hin]; [discriminate Hd|]. exact (Hc Hin).
Qed.

(** X13.  When the peer closes the connection (a read of zero bytes) the
    pass clears the connected flag and the timeout counter at once, without
    sleeping and without touching the backoff delay, but it closes nothing:
    the client keeps both streams.  The next pass connects anew; if that
    succeeds the new streams replace the old ones, and whatever that pass
    closes is the new writer: the old writer is never closed by the
    client. *)
Theorem peer_close_reconnects_without_closing a w r wr :
  _connected (cl w) = true ->
  _reader (cl w) = Some r -> _writer (cl w) = Some wr ->
  stale K (now_check a) (cl w) = None -> on_read a = ReadBytes [] ->
  let w' := iteration a w in
  _connected (cl w') = false
  /\ _consecutive_timeouts (cl w') = 0
  /\ _reader (cl w') = Some r /\ _writer (cl w') = Some wr
  /\ _reconnect_delay (cl w') = _reconnect_delay (cl w)
  /\ _stats (cl w') = _stats (cl w)
  /\ events_since w w' = [EvRead r]
  /\ forall a' r' wr',
       on_connect a' = Opened r' wr' ->
       exists events,
         events_since w' (iteration a' w') = EvConnect :: events
         /\ forall x, In (EvClose x) events -> x = wr'.
Proof.
  intros Hc Hr Hw Hs Hread. cbn zeta.
  assert (Hit : iteration a w
                = on_client (set_consecutive_timeouts 0)
                    (on_client (set_connected false) (record (EvRead r) w))).
  { unfold Client.iteration, check_and_read. rewrite Hc, Hs, Hr, Hread. reflexivity. }
  rewrite Hit. cbn [cl on_client _connected _consecutive_timeouts _reader _writer
                    _reconnect_delay _stats set_consecutive_timeouts set_connected record].
  split; [reflexivity|]. split; [reflexivity|]. split; [exact Hr|]. split; [exact Hw|].
  split; [reflexivity|]. split; [reflexivity|].
  split; [apply events_since_app; reflexivity|].
  intros a' r' wr' Ho.
  set (w1 := on_client (set_consecutive_timeouts 0)
               (on_client (set_connected false) (record (EvRead r) w))).
  unfold Client.iteration.
  change (_connected (cl w1)) with false. cbn iota. rewrite Ho. cbn [_connect].
  match goal with |- context [check_and_read _ _ _ _ _ ?w0] => set (w2 := w0) end.
  destruct (check_and_read_backoff a' w2) as (evs & Ht & _).
  exists evs. split.
  - apply events_since_app. rewrite Ht. unfold w2. simpl. rewrite <- app_assoc. reflexivity.
  - intros x Hin. pose proof (check_and_read_closes a' w2 x) as Hcl.
    rewrite (events_since_app _ _ _ Ht) in Hcl. specialize (Hcl Hin).
    unfold w2 in Hcl. simpl in Hcl. congruence.
Qed.

(** X14.  A connection that opens but whose keepalive setup is refused is
    closed in the same pass: the pass records the error, closes the new
    writer, sleeps the current backoff delay and doubles it; the client
    ends without streams and the attempt is not counted as a
    reconnection. *)
Theorem refused_keepalive_closes_the_new_connection a w r wr :
  _connected (cl w) = false -> on_connect a = OpenedKeepaliveRefused r wr ->
  let w' := iteration a w in
  events_since w w' = [EvConnect; EvClose wr; EvSleep (_reconnect_delay (cl w))]
  /\ _connected (cl w') = false
  /\ _reader (cl w') = None /\ _writer (cl w') = None
  /\ last_error (_stats (cl w')) = Some (LoopError HargassnerConnectionError)
  /\ reconnections (_stats (cl w')) = reconnections (_stats (cl w))
  /\ _reconnect_delay (cl w')
     = Z.min (_reconnect_delay (cl w) * 2) (TELNET_MAX_RECONNECT_DELAY K).
Proof.
  intros Hc Ho. cbn zeta. unfold Client.iteration. rewrite Hc, Ho.
  cbn [_connect]. unfold loop_except, _close_connection. simpl.
  split; [|repeat split].
  apply events_since_app. simpl. rewrite <- !app_assoc. reflexivity.
Qed.

(** *** How long the loop sleeps *)

Lemma _receiver_loop_extends script w :
  exists events, trace (_receiver_loop script w) = trace w ++ events.
Proof.
  revert w. induction script as [|a script IH]; intros w.
  - exists []. simpl. rewrite app_nil_r. reflexivity.
  - rewrite _receiver_loop_cons. destruct (_running (cl w)).
    + destruct (iteration_backoff a w) as (ev1 & Ht1 & _).
      destruct (IH (iteration a w)) as (ev2 & Ht2).
      exists (ev1 ++ ev2). rewrite Ht2, Ht1, <- app_assoc. reflexivity.
    + exists []. rewrite app_nil_r. reflexivity.
Qed.

Lemma iteration_connect_fails_sleeps a w :
  _connected (cl w) = false -> connect_fails (on_connect a) = true ->
  exists events, trace (iteration a w) = trace w ++ events
    /\ List.filter is_sleep events = [EvSleep (_reconnect_delay (cl w))].
Proof.
  intros Hc Hf. unfold Client.iteration. rewrite Hc.
  destruct (on_connect a) as [r wr|r wr| |]; try discriminate Hf;
    cbn [_connect]; unfold loop_except, _close_connection; simpl;
    try destruct (_writer (cl w)); simpl;
    eexists; rewrite <- ?app_assoc; (split; [reflexivity|]); reflexivity.
Qed.

Lemma sleeps_of_consecutive_failures script w (k : nat) :
  0 <= TELNET_MAX_RECONNECT_DELAY K ->
  Forall (fun a => connect_fails (on_connect a) = true) script ->
  _connected (cl w) = false -> _running (cl w) = true ->
  _reconnect_delay (cl w)
    = Z.min (TELNET_RECONNECT_DELAY K * 2 ^ Z.of_nat k) (TELNET_MAX_RECONNECT_DELAY K) ->
  List.filter is_sleep (events_since w (_receiver_loop script w))
  = map (fun i => EvSleep (Z.min (TELNET_RECONNECT_DELAY K * 2 ^ Z.of_nat i)
                             (TELNET_MAX_RECONNECT_DELAY K)))
      (seq k (length script)).
Proof.
  intros Hmax Hall. revert w k.
  induction Hall as [|a script Ha Hall IH]; intros w k Hc Hr Hd.
  - simpl. rewrite (events_since_app w w []) by (rewrite app_nil_r; reflexivity).
    reflexivity.
  - rewrite _receiver_loop_cons, Hr.
    destruct (iteration_connect_fails_sleeps a w Hc Ha) as (ev1 & Ht1 & Hs1).
    destruct (iteration_connect_fails a w Hc Ha) as (Hc' & Hr' & Hd' & _).
    destruct (_receiver_loop_extends script (iteration a w)) as (ev2 & Ht2).
    specialize (IH (iteration a w) (S k) Hc' (eq_trans Hr' Hr)).
    rewrite (events_since_app _ _ _ Ht2) in IH.
    erewrite events_since_app by (rewrite Ht2, Ht1, <- app_assoc; reflexivity).
    rewrite List.filter_app, Hs1, IH.
    + simpl. rewrite Hd. reflexivity.
    + rewrite Hd', Hd. apply min_double, Hmax.
Qed.

(** X15.  With [0 <= base <= max]: when [N] connection attempts in a row
    fail, starting from the base delay, the loop sleeps once after each,
    and the sleep after the [k]-th failure (counting from 0) lasts
    [min (base * 2^k) max] seconds. *)
Theorem consecutive_failures_sleep_doubling_delays script w :
  0 <= TELNET_RECONNECT_DELAY K <= TELNET_MAX_RECONNECT_DELAY K ->
  Forall (fun a => connect_fails (on_connect a) = true) script ->
  _connected (cl w) = false -> _running (cl w) = true ->
  _reconnect_delay (cl w) = TELNET_RECONNECT_DELAY K ->
  List.filter is_sleep (events_since w (_receiver_loop script w))
  = map (fun k => EvSleep (Z.min (TELNET_RECONNECT_DELAY K * 2 ^ Z.of_nat k)
                             (TELNET_MAX_RECONNECT_DELAY K)))
      (seq 0 (length script)).
Proof.
  intros Hk Hall Hc Hr Hd.
  apply sleeps_of_consecutive_failures; try assumption; [lia|].
  rewrite Hd. change (2 ^ Z.of_nat 0) with 1. lia.
Qed.

(** *** Counting chunks and parse errors *)

Lemma parses_not_raises line : parses line = true -> raises parse_message line = false.
Proof.
  unfold Client.parses, raises. destruct (parse_message line) as [[[|i its]|]|e];
    try discriminate; reflexivity.
Qed.

Lemma process_lines_errors_none now lines w :
  Forall (fun line => parses line = false) (candidates lines) ->
  parse_errors (_stats (cl (process_lines now lines w)))
  = parse_errors (_stats (cl w))
    + Z.of_nat (length (List.filter (raises parse_message) (candidates lines))).
Proof.
  revert w. induction lines as [|x lines IH]; intros w Hnone.
  - simpl. lia.
  - rewrite candidates_cons in *. cbn [Client.process_lines].
    destruct (is_candidate (Py.strip x)) eqn:Hc; cbn [negb]; [|apply IH, Hnone].
    apply Forall_cons in Hnone as [Hline Hnone].
    unfold Client.parses in Hline. simpl List.filter. unfold raises at 1.
    destruct (parse_message (Py.strip x)) as [[[|i its]|]|e]; try discriminate Hline;
      rewrite (IH _ Hnone); simpl; lia.
Qed.

Lemma process_lines_errors_select now lines w pre line post :
  candidates lines = pre ++ line :: post ->
  Forall (fun x => parses x = false) pre -> parses line = true ->
  parse_errors (_stats (cl (process_lines now lines w)))
  = parse_errors (_stats (cl w))
    + Z.of_nat (length (List.filter (raises parse_message) pre)).
Proof.
  intros Hc Hpre Hline. revert w pre Hc Hpre.
  induction lines as [|x lines IH]; intros w pre Hc Hpre.
  - destruct pre; discriminate Hc.
  - rewrite candidates_cons in Hc. cbn [Client.process_lines].
    destruct (is_candidate (Py.strip x)) eqn:Hx; cbn [negb]; [|apply IH; assumption].
    destruct pre as [|p pre]; simpl in Hc; injection Hc as Hhd Htl.
    + rewrite Hhd. destruct (parses_items line Hline) as (items & Hparse & Hitems).
      rewrite Hparse. destruct items as [|item items]; [congruence|].
      change (heap (record (EvParse line) w)) with (heap w).
      destruct (alloc_parsed (item :: items) (heap w)) as [l h].
      notified. simpl. lia.
    + apply Forall_cons in Hpre as [Hp Hpre]. subst p.
      unfold Client.parses in Hp. simpl List.filter. unfold raises at 1.
      destruct (parse_message (Py.strip x)) as [[[|i its]|]|e]; try discriminate Hp;
        rewrite (IH _ pre Htl Hpre); simpl; lia.
Qed.

(** X16.  Every chunk handed to [_process_data] counts once in
    [messages_received].  [parse_errors] grows by the number of candidate
    frames on which the parser raised among those it was given: all
    candidates if none parses, those before the first parsing one
    otherwise.  A frame for which the parser returns nothing or an empty
    map is not an error. *)
Theorem parse_errors_count_raising_frames now data w :
  let w' := _process_data now data w in
  messages_received (_stats (cl w')) = messages_received (_stats (cl w)) + 1
  /\ (Forall (fun x => parses x = false) (candidates (chunk_lines data)) ->
      parse_errors (_stats (cl w'))
      = parse_errors (_stats (cl w))
        + Z.of_nat (length (List.filter (raises parse_message)
                              (candidates (chunk_lines data)))))
  /\ (forall pre line post,
        candidates (chunk_lines data) = pre ++ line :: post ->
        Forall (fun x => parses x = false) pre -> parses line = true ->
        parse_errors (_stats (cl w'))
        = parse_errors (_stats (cl w))
          + Z.of_nat (length (List.filter (raises parse_message) pre))).
Proof.
  cbn zeta. split; [apply _process_data_frame|].
  unfold chunk_lines, Client._process_data. rewrite decode_chunk_cases.
  destruct (Py.utf_8_decode Py.Strict data) as [text|e]; split.
  - intros Hnone. rewrite (process_lines_errors_none _ _ _ Hnone). reflexivity.
  - intros pre line post Hc Hpre Hline.
    rewrite (process_lines_errors_select _ _ _ _ _ _ Hc Hpre Hline). reflexivity.
  - intros Hnone. rewrite (process_lines_errors_none _ _ _ Hnone). reflexivity.
  - intros pre line post Hc Hpre Hline.
    rewrite (process_lines_errors_select _ _ _ _ _ _ Hc Hpre Hline). reflexivity.
Qed.

(** *** The dispatch, as a whole *)

(** At the first candidate that parses the loop is where it started, but
    for the trace and [parse_errors]; it then stores and notifies. *)
Lemma process_lines_select_dispatch now lines w pre line post items :
  candidates lines = pre ++ line :: post ->
  Forall (fun x => parses x = false) pre ->
  parse_message line = ParseReturns (Some items) -> items <> [] ->
  exists w0,
    heap w0 = heap w /\ app w0 = app w
    /\ link_untouched (cl w) (cl w0)
    /\ _data_callbacks (cl w0) = _data_callbacks (cl w)
    /\ _last_update (cl w0) = _last_update (cl w)
    /\ messages_parsed (_stats (cl w0)) = messages_parsed (_stats (cl w))
    /\ messages_received (_stats (cl w0)) = messages_received (_stats (cl w))
    /\ process_lines now lines w
       = let '(l, h) := alloc_parsed items (heap w) in
         notify l
           (on_stats incr_messages_parsed
              (record (EvStore l)
                 (on_client (set_latest l now)
                    (set_heap h (record (EvParse line) w0))))).
Proof.
  intros Hc Hpre Hparse Hitems. revert w pre Hc Hpre.
  induction lines as [|x lines IH]; intros w pre Hc Hpre.
  - destruct pre; discriminate Hc.
  - rewrite candidates_cons in Hc. cbn [Client.process_lines].
    destruct (is_candidate (Py.strip x)) eqn:Hx; cbn [negb];
      [|exact (IH w pre Hc Hpre)].
    destruct pre as [|p pre]; simpl in Hc; injection Hc as Hhd Htl.
    + exists w. rewrite Hhd, Hparse.
      destruct items as [|item items]; [congruence|].
      split; [reflexivity|]. split; [reflexivity|].
      split; [apply link_untouched_refl|]. repeat (split; [reflexivity|]).
      change (heap (record (EvParse line) w)) with (heap w).
      destruct (alloc_parsed (item :: items) (heap w)) as [l h]. reflexivity.
    + apply Forall_cons in Hpre as [Hp Hpre]. subst p.
      unfold Client.parses in Hp.
      destruct (parse_message (Py.strip x)) as [[[|i its]|]|e]; try discriminate Hp.
      all: match goal with |- context [Client.process_lines _ _ _ _ _ ?w1] =>
             destruct (IH w1 pre Htl Hpre)
               as (w0 & Hh & Ha & Hl & Hcb & Hu & Hm & Hr & Heq)
           end.
      all: exists w0; simpl in Hh, Ha, Hl, Hcb, Hu, Hm, Hr, Heq.
      all: split; [exact Hh|]; split; [exact Ha|]; split; [exact Hl|].
      all: split; [exact Hcb|].
      all: split; [exact Hu|]; split; [exact Hm|]; split; [exact Hr|exact Heq].
Qed.

(** *** The end of a dispatch *)

Lemma notify_from_ends fuel i l w :
  (registry_potential (_data_callbacks (cl w)) <= fuel + i)%nat ->
  exists called,
    trace (notify_from fuel i l w) = trace w ++ map (fun cb => EvCallback cb l) called
    /\ (length called <= fuel)%nat
    /\ _data_callbacks (cl (notify_from fuel i l w)) !! (i + length called)%nat = None.
Proof.
  revert i w. induction fuel as [|fuel IH]; intros i w Hp.
  - pose proof (proj1 (registry_potential_bounds (cl w))) as Hlen.
    exists []. simpl. rewrite app_nil_r, Nat.add_0_r.
    split; [reflexivity|]. split; [lia|]. apply lookup_ge_None_2. lia.
  - rewrite notify_from_step. destruct (_data_callbacks (cl w) !! i) as [cb|] eqn:Hi.
    + match goal with |- context [notify_from fuel (S i) l ?w0] =>
        destruct (IH (S i) w0) as (called & Ht & Hn & Hend) end.
      { cbn [cl on_client set_app set_heap record].
        pose proof (registry_potential_apply_calls
                      (handler_calls cb l (cl w) (app w) (heap w)) (cl w)). lia. }
      exists (cb :: called). rewrite Ht. cbn [trace on_client set_app set_heap record].
      split; [simpl; rewrite <- app_assoc; reflexivity|]. split; [simpl; lia|].
      simpl length. rewrite Nat.add_succ_r. exact Hend.
    + exists []. simpl. rewrite app_nil_r, Nat.add_0_r.
      split; [reflexivity|]. split; [lia|exact Hi].
Qed.

(** X20.  The dispatch of a stored map ends by itself, whatever the
    handlers register and unregister while it runs: it makes no more calls
    than the registry is long plus the number of handlers there are, it
    stops where the list ends (no handler is left at the position it has
    reached), and a larger bound on the number of calls changes
    nothing. *)
Theorem dispatch_ends_where_the_registry_ends l w :
  exists called,
    trace (notify l w) = trace w ++ map (fun cb => EvCallback cb l) called
    /\ (length called <= length (_data_callbacks (cl w)) + card handler)%nat
    /\ _data_callbacks (cl (notify l w)) !! length called = None
    /\ forall fuel,
         (length (_data_callbacks (cl w)) + card handler <= fuel)%nat ->
         notify_from fuel 0 l w = notify l w.
Proof.
  destruct (notify_from_ends (dispatch_bound (cl w)) 0 l w) as (called & Ht & Hn & Hend).
  { pose proof (proj2 (registry_potential_bounds (cl w))). lia. }
  exists called. split; [exact Ht|]. split; [exact Hn|]. split; [exact Hend|].
  intros fuel Hle. apply notify_enough. exact Hle.
Qed.
End WithCollaborators.
End ClientFacts.

(** ** The coordinator and the client *)

Module CoordinatorFacts.
Import Client.
Import Coordinator.

(** C1.  The client has one registry, [_data_callbacks], and no attribute
    [register_connection_callback]: the coordinator's [__init__] registers
    its data handler and then raises [AttributeError] at the second
    registration.  A change of the connected flag is delivered to nobody:
    whatever handlers are registered, the pass in which the peer closes the
    connection clears the flag and does nothing but the read. *)
Theorem register_connection_callback_is_missing :
  (forall c : client bound_method,
     Coordinator.__init__ c
     = (Raise (AttributeError "register_connection_callback"),
        register_callback _handle_data_update c))
  /\ ("register_connection_callback"%string ∉ attributes)
  /\ (forall (ParameterData : Type) (K : constants)
             (parse_message : Py.text -> parse_outcome ParameterData)
             (a : answers) (w : world ParameterData bound_method (option loc))
             (r : handle),
        _connected (cl w) = true -> _reader (cl w) = Some r ->
        stale K (now_check a) (cl w) = None -> on_read a = ReadBytes [] ->
        let w' := iteration K parse_message Coordinator.call Coordinator.registry_calls a w in
        _connected (cl w') = false /\ events_since w w' = [EvRead r]).
Proof.
  split; [|split].
  - intros c. reflexivity.
  - apply (bool_decide_eq_false_1 _). vm_compute. reflexivity.
  - intros ParameterData K parse_message a w r.
    apply ClientFacts.iteration_peer_closed.
Qed.

(** *** The handlers and the fallback fetch *)

Section WithParameterData.

Context {ParameterData : Type}.

Implicit Types (h : gmap loc (object ParameterData)) (c : client bound_method).

Lemma set_connection_map data info h entries :
  h !! data = Some (ParameterMap entries) ->
  let l := fst (alloc info h) in
  h !! l = None /\ l <> data
  /\ set_connection data info h
     = (Ok tt, <[data := ParameterMap (<["_connection" := l]> entries)]>
                 (<[l := info]> h)).
Proof.
  intros Hd. cbn zeta. destruct (ClientFacts.alloc_fresh info h) as (Hf & Ha).
  split; [exact Hf|]. split.
  - intros Heq. rewrite Heq, Hd in Hf. discriminate.
  - unfold set_connection. rewrite Hd. reflexivity.
Qed.

Lemma set_connection_keeps_maps data info h l0 entries :
  h !! l0 = Some (ParameterMap entries) ->
  exists entries', snd (set_connection data info h) !! l0 = Some (ParameterMap entries').
Proof.
  intros Hl. unfold set_connection.
  destruct (h !! data) as [[es|d|x y z]|] eqn:Hd; simpl; eauto.
  destruct (ClientFacts.alloc_fresh info h) as (Hf & _).
  destruct (decide (l0 = data)) as [->|Hne].
  - rewrite lookup_insert_eq. eauto.
  - rewrite lookup_insert_ne by (intros E; apply Hne; symmetry; exact E).
    rewrite lookup_insert_ne; [eauto|].
    intros E. unfold alloc in Hf. simpl in Hf. rewrite E, Hl in Hf. discriminate.
Qed.

(** Neither handler touches the registry. *)
Lemma registry_calls_leave_registry :
  leaves_registry (ParameterData := ParameterData) Coordinator.registry_calls.
Proof. intros m l c self h. reflexivity. Qed.

(** Neither handler turns a dictionary into something else. *)
Lemma call_keeps_maps : keeps_maps (ParameterData := ParameterData) Coordinator.call.
Proof.
  intros m l c self h l0 entries Hl. destruct m; simpl.
  - unfold handle_data_update.
    destruct (set_connection_keeps_maps l
                (connection_info (VBool (connected c)) c) h l0 entries Hl)
      as (entries' & He).
    destruct (set_connection _ _ h) as [[u|e] h']; eauto.
  - unfold handle_connection_change.
    assert (Hnew : exists entries1,
              snd (alloc (ParameterMap ∅) h) !! l0 = Some (ParameterMap entries1)).
    { exists entries. apply ClientFacts.alloc_keeps, Hl. }
    destruct Hnew as (entries1 & Hnew).
    destruct self as [data|]; [destruct (nonempty (Some data) h)|].
    + destruct (set_connection_keeps_maps data
                  (connection_info (VRef l) c) h l0 entries Hl) as (entries' & He).
      destruct (set_connection _ _ h) as [[u|e] h']; eauto.
    + destruct (alloc (ParameterMap ∅) h) as [l1 h1]. simpl in Hnew.
      destruct (set_connection_keeps_maps l1
                  (connection_info (VRef l) c) h1 l0 entries1 Hnew) as (entries' & He).
      destruct (set_connection _ _ h1) as [[u|e] h']; eauto.
    + destruct (alloc (ParameterMap ∅) h) as [l1 h1]. simpl in Hnew.
      destruct (set_connection_keeps_maps l1
                  (connection_info (VRef l) c) h1 l0 entries1 Hnew) as (entries' & He).
      destruct (set_connection _ _ h1) as [[u|e] h']; eauto.
Qed.

(** The dispatch when the data handler is the one registered handler. *)
Lemma notify_data_update l (w : world ParameterData bound_method (option loc)) entries :
  _data_callbacks (cl w) = [_handle_data_update] ->
  heap w !! l = Some (ParameterMap entries) ->
  let info := connection_info (VBool (connected (cl w))) (cl w) in
  let li := fst (alloc info (heap w)) in
  notify Coordinator.call Coordinator.registry_calls l w
  = {| cl := cl w;
       heap := <[l := ParameterMap (<["_connection" := li]> entries)]>
                 (<[li := info]> (heap w));
       app := Some l;
       trace := trace w ++ [EvCallback _handle_data_update l] |}
  /\ heap w !! li = None /\ li <> l.
Proof.
  intros Hcbs Hmap. cbn zeta.
  destruct (set_connection_map l (connection_info (VBool (connected (cl w))) (cl w))
              (heap w) entries Hmap) as (Hf & Hne & Hset).
  split; [|split; [exact Hf|exact Hne]].
  unfold Client.notify, dispatch_bound. rewrite Hcbs.
  change (length [_handle_data_update] + card bound_method)%nat with 3%nat.
  rewrite ClientFacts.notify_from_step, Hcbs.
  change ([_handle_data_update] !! 0%nat) with (Some _handle_data_update).
  cbv beta iota. rewrite ClientFacts.notify_from_step.
  unfold registry_calls, apply_calls. cbn [foldl cl on_client set_app set_heap record].
  rewrite Hcbs. change ([_handle_data_update] !! 1%nat) with (@None bound_method).
  cbv beta iota. unfold call, handle_data_update. rewrite Hset. reflexivity.
Qed.

(** X17.  The data handler writes into the dictionary it is handed, and
    the client hands it the very object it has just stored.  With the
    handler registered, after a chunk with a parsing frame the client's
    store is the parser's dictionary with ["_connection"] added; the
    entry holds the connected flag, the time of this store and the
    statistics with this frame counted; and [self.data] of the coordinator
    is the client's stored object, not a copy. *)
Theorem data_update_stamps_the_clients_store
    (parse_message : Py.text -> parse_outcome ParameterData)
    now data (w : world ParameterData bound_method (option loc)) pre line post :
  _data_callbacks (cl w) = [_handle_data_update] ->
  candidates (chunk_lines data) = pre ++ line :: post ->
  Forall (fun x => parses parse_message x = false) pre ->
  parses parse_message line = true ->
  let w' := _process_data parse_message Coordinator.call Coordinator.registry_calls now data w in
  app w' = Some (_latest_data (cl w'))
  /\ exists items entries l,
       parse_message line = ParseReturns (Some items)
       /\ snd (alloc_parsed items (heap w)) !! _latest_data (cl w')
          = Some (ParameterMap entries)
       /\ heap w' !! _latest_data (cl w')
          = Some (ParameterMap (<["_connection" := l]> entries))
       /\ heap w' !! l
          = Some (ConnectionInfo (VBool (_connected (cl w))) (Some now)
                    (_stats (cl w'))).
Proof.
  intros Hcbs Hc Hpre Hline. cbn zeta.
  destruct (ClientFacts.parses_items parse_message line Hline) as (items & Hparse & Hitems).
  unfold chunk_lines in Hc. unfold Client._process_data.
  rewrite ClientFacts.decode_chunk_cases in *.
  assert (Hgo : forall lines,
    candidates lines = pre ++ line :: post ->
    let w' := process_lines parse_message Coordinator.call Coordinator.registry_calls now lines
                (on_stats incr_messages_received w) in
    app w' = Some (_latest_data (cl w'))
    /\ exists items entries l,
         parse_message line = ParseReturns (Some items)
         /\ snd (alloc_parsed items (heap w)) !! _latest_data (cl w')
            = Some (ParameterMap entries)
         /\ heap w' !! _latest_data (cl w')
            = Some (ParameterMap (<["_connection" := l]> entries))
         /\ heap w' !! l
            = Some (ConnectionInfo (VBool (_connected (cl w))) (Some now)
                      (_stats (cl w')))).
  { intros lines Hl. cbn zeta.
    destruct (ClientFacts.process_lines_select_dispatch parse_message Coordinator.call Coordinator.registry_calls
                now lines (on_stats incr_messages_received w) pre line post items
                Hl Hpre Hparse Hitems)
      as (w0 & Hh & Ha & Hlink & Hcb & Hu & Hm & Hr & ->).
    simpl in Hh, Hlink, Hcb. destruct Hlink as (_ & _ & Hconn & _).
    destruct (ClientFacts.alloc_parsed_spec items (heap w)) as ((entries & Hmap) & _).
    change (heap (on_stats incr_messages_received w)) with (heap w).
    destruct (alloc_parsed items (heap w)) as [l h] eqn:Hal. simpl in Hmap.
    match goal with |- context [notify _ _ l ?w1] =>
      destruct (notify_data_update l w1 entries) as (-> & Hf & Hne);
        [simpl; rewrite Hcb; exact Hcbs|exact Hmap|]
    end.
    simpl. split; [reflexivity|]. eexists items, entries, _.
    split; [exact Hparse|]. split; [rewrite Hal; exact Hmap|].
    split; [apply lookup_insert_eq|].
    rewrite lookup_insert_ne by (intros E; apply Hne; symmetry; exact E).
    rewrite lookup_insert_eq. unfold connection_info, connected, last_update, statistics.
    simpl. rewrite Hconn. reflexivity. }
  destruct (Py.utf_8_decode Py.Strict data) as [text|e]; apply Hgo; exact Hc.
Qed.

(** X18.  The fallback fetch works on a copy.  When [_latest_data] refers
    to a dictionary, [_async_update_data] returns a dictionary that did not
    exist before and leaves the client, the coordinator's [self.data] and
    every existing object, the stored one included, as they were.  If the
    store is empty the result is an empty dictionary without
    ["_connection"]; otherwise it has the store's entries and a new
    ["_connection"] with the connected flag, [last_update] and the
    statistics of the client. *)
Theorem fallback_fetch_leaves_the_store_alone
    (w : world ParameterData bound_method (option loc)) :
  store_live w ->
  exists l entries,
    heap w !! _latest_data (cl w) = Some (ParameterMap entries)
    /\ fst (_async_update_data w) = Ok l
    /\ heap w !! l = None
    /\ let w' := snd (_async_update_data w) in
       cl w' = cl w /\ app w' = app w /\ trace w' = trace w
       /\ (forall l0 o, heap w !! l0 = Some o -> heap w' !! l0 = Some o)
       /\ (entries = ∅ -> heap w' !! l = Some (ParameterMap ∅))
       /\ (entries <> ∅ ->
           exists li,
             heap w !! li = None
             /\ heap w' !! l = Some (ParameterMap (<["_connection" := li]> entries))
             /\ heap w' !! li
                = Some (ConnectionInfo (VBool (_connected (cl w)))
                          (_last_update (cl w)) (_stats (cl w)))).
Proof.
  intros (entries & Hstore).
  unfold _async_update_data, get_latest_data. rewrite Hstore.
  destruct (ClientFacts.alloc_fresh (ParameterMap entries) (heap w)) as (Hf & Ha).
  destruct (alloc (ParameterMap entries) (heap w)) as [l h1] eqn:Hal.
  simpl in Hf, Ha. subst h1. unfold nonempty. simpl.
  rewrite lookup_insert_eq.
  assert (Hkeep1 : forall l0 o, heap w !! l0 = Some o ->
            (<[l := ParameterMap entries]> (heap w)) !! l0 = Some o).
  { intros l0 o Ho. rewrite lookup_insert_ne; [exact Ho|].
    intros E. rewrite E, Ho in Hf. discriminate. }
  destruct (decide (entries = ∅)) as [He|He].
  - rewrite bool_decide_eq_true_2 by exact He. simpl.
    destruct (ClientFacts.alloc_fresh (ParameterMap (∅ : gmap string loc))
                (<[l := ParameterMap entries]> (heap w))) as (Hf2 & _).
    unfold alloc in Hf2 |- *. simpl in Hf2 |- *.
    set (l2 := fresh (dom (<[l := ParameterMap entries]> (heap w)))) in *.
    assert (Hne : l2 <> l).
    { intros E. rewrite E, lookup_insert_eq in Hf2. discriminate. }
    exists l2, entries. split; [reflexivity|]. split; [reflexivity|].
    split; [rewrite lookup_insert_ne in Hf2
              by (intros E; apply Hne; symmetry; exact E); exact Hf2|].
    split; [reflexivity|]. split; [reflexivity|]. split; [reflexivity|].
    split; [|split].
    + intros l0 o Ho. rewrite lookup_insert_ne; [apply Hkeep1, Ho|].
      intros E. rewrite E, (Hkeep1 l0 o Ho) in Hf2. discriminate.
    + intros _. apply lookup_insert_eq.
    + intros Hno. contradiction.
  - rewrite bool_decide_eq_false_2 by exact He. simpl.
    destruct (set_connection_map l
                (connection_info (VBool (connected (cl w))) (cl w))
                (<[l := ParameterMap entries]> (heap w)) entries
                (lookup_insert_eq _ _ _)) as (Hf2 & Hne & ->).
    set (li := fst (alloc (connection_info (VBool (connected (cl w))) (cl w))
                      (<[l := ParameterMap entries]> (heap w)))) in *.
    simpl. exists l, entries. split; [reflexivity|]. split; [reflexivity|].
    split; [exact Hf|].
    split; [reflexivity|]. split; [reflexivity|]. split; [reflexivity|].
    assert (Hli : heap w !! li = None).
    { rewrite lookup_insert_ne in Hf2 by (intros E; apply Hne; symmetry; exact E).
      exact Hf2. }
    split; [|split].
    + intros l0 o Ho.
      rewrite lookup_insert_ne by (intros E; congruence).
      rewrite lookup_insert_ne by (intros E; congruence).
      apply Hkeep1, Ho.
    + intros Hyes. contradiction.
    + intros _. exists li. split; [exact Hli|]. split; [apply lookup_insert_eq|].
      rewrite lookup_insert_ne by (intros E; apply Hne; symmetry; exact E).
      apply lookup_insert_eq.
Qed.

(** X19.  [_handle_connection_change] publishes under [self.data] a
    dictionary with ["_connection"] holding the state it was called with.
    While [self.data] is [None] or an empty dictionary that is a new
    dictionary with this one entry, and every existing object, an empty
    [self.data] included, stays as it was; once [self.data] has entries it
    is that dictionary itself, written in place. *)
Theorem connection_change_reuses_only_nonempty_data connected c
    (self : option loc) h :
  (nonempty self h = false ->
   exists l li,
     h !! l = None /\ h !! li = None
     /\ fst (handle_connection_change connected c self h) = (Ok tt, Some l)
     /\ let h' := snd (handle_connection_change connected c self h) in
        h' !! l = Some (ParameterMap {["_connection" := li]})
        /\ h' !! li = Some (ConnectionInfo connected (_last_update c) (_stats c))
        /\ forall l0 o, h !! l0 = Some o -> h' !! l0 = Some o)
  /\ (forall data entries,
        self = Some data -> h !! data = Some (ParameterMap entries) ->
        entries <> ∅ ->
        exists li,
          h !! li = None
          /\ handle_connection_change connected c self h
             = (Ok tt, Some data,
                <[data := ParameterMap (<["_connection" := li]> entries)]>
                  (<[li := ConnectionInfo connected (_last_update c) (_stats c)]> h))).
Proof.
  split.
  - intros Hempty. unfold handle_connection_change.
    assert (Hnew : (let '(current_data, h0) :=
                      match self with
                      | Some data => if nonempty self h then (data, h)
                                     else alloc (ParameterMap ∅) h
                      | None => alloc (ParameterMap ∅) h
                      end in (current_data, h0))
                   = alloc (ParameterMap ∅) h).
    { destruct self as [data|]; [rewrite Hempty|];
        destruct (alloc (ParameterMap ∅) h); reflexivity. }
    destruct (match self with
              | Some data => if nonempty self h then (data, h)
                             else alloc (ParameterMap ∅) h
              | None => alloc (ParameterMap ∅) h
              end) as [l h1] eqn:Hsel.
    destruct (ClientFacts.alloc_fresh (ParameterMap (∅ : gmap string loc)) h)
      as (Hf & Ha).
    rewrite <- Hnew in Hf, Ha. simpl in Hf, Ha. subst h1.
    destruct (set_connection_map l (connection_info connected c)
                (<[l := ParameterMap ∅]> h) ∅ (lookup_insert_eq _ _ _))
      as (Hf2 & Hne & ->).
    set (li := fst (alloc (connection_info connected c) (<[l := ParameterMap ∅]> h)))
      in *.
    assert (Hli : h !! li = None).
    { rewrite lookup_insert_ne in Hf2 by (intros E; apply Hne; symmetry; exact E).
      exact Hf2. }
    exists l, li. split; [exact Hf|]. split; [exact Hli|]. split; [reflexivity|].
    simpl. split; [|split].
    + rewrite lookup_insert_eq, insert_empty. reflexivity.
    + rewrite lookup_insert_ne by (intros E; apply Hne; symmetry; exact E).
      apply lookup_insert_eq.
    + intros l0 o Ho.
      rewrite lookup_insert_ne by (intros E; congruence).
      rewrite lookup_insert_ne by (intros E; congruence).
      rewrite lookup_insert_ne by (intros E; congruence).
      exact Ho.
  - intros data entries -> Hd He. unfold handle_connection_change, nonempty.
    rewrite Hd, bool_decide_eq_false_2 by exact He. simpl.
    destruct (set_connection_map data (connection_info connected c) h entries Hd)
      as (Hf & _ & ->).
    eexists. split; [exact Hf|]. reflexivity.
Qed.

End WithParameterData.

End CoordinatorFacts.

(** ** The properties at work on the scenario *)

Module ScenarioFacts.
Import Client.
Import Scenario.

Ltac unparseable :=
  eexists; eexists; split; [reflexivity | vm_compute; repeat constructor].

Lemma probe_calls_leave_registry : leaves_registry probe_calls.
Proof. intros p l c calls h. reflexivity. Qed.

(** *** The codecs *)

Example utf_8_wins :
  decode_chunk (bytes_of "pm 7") = Ok [112; 109; 32; 55].
Proof. reflexivity. Qed.

(** 0xE4 alone is not UTF-8; Latin-1 reads it as U+00E4. *)
Example latin_1_takes_over : decode_chunk [xe4] = Ok [228].
Proof. reflexivity. Qed.

(** 0x81 is undefined in code page 1252, and the chunk decodes all the
    same. *)
Example undefined_in_cp1252 :
  Py.decode "cp1252" Py.Strict [x81] = Raise UnicodeDecodeError
  /\ decode_chunk [x81] = Ok [129].
Proof. split; reflexivity. Qed.

Example replacement_of_truncated_sequence :
  Py.decode "utf-8" Py.Replace [xe2; x82] = Ok [Py.REPLACEMENT_CHARACTER].
Proof. reflexivity. Qed.

(** *** Connection-state changes *)

(** The coordinator's data handler is registered and the peer closes the
    connection: the flag goes from true to false and no handler hears of
    it. *)
Example peer_closes_unnoticed :
  let w := after_first_frame [Coordinator._handle_data_update] in
  let w' := iteration (hangs_up SECOND) w in
  _data_callbacks (cl w) = [Coordinator._handle_data_update]
  /\ _connected (cl w) = true /\ _connected (cl w') = false
  /\ events_since w w' = [EvRead 1%nat].
Proof. vm_compute. repeat split. Qed.

(** *** Backoff *)


(** *** Read timeouts *)


(** *** Staleness *)

(** C2 as stated fails: a client that has never stored a parsed map reads
    noise at 0 s, 100 s and 1000 s with a staleness timeout of 60 s; it is
    connected after every pass and nothing is ever closed. *)
Lemma never_parsed_never_stale :
  let script := [sends 0 NOISE; sends (100 * SECOND) NOISE; sends (1000 * SECOND) NOISE] in
  Forall (reads_unparseable parse_message) script
  /\ 1000 * SECOND - 0 > TELNET_DATA_STALENESS_TIMEOUT K * MICROSECONDS
  /\ Forall (fun n => _connected (cl (_receiver_loop (take n script) (started []))) = true)
       [1; 2; 3]%nat
  /\ _last_update (cl (_receiver_loop script (started []))) = None
  /\ messages_parsed (_stats (cl (_receiver_loop script (started [])))) = 0
  /\ count is_close (trace (_receiver_loop script (started []))) = 0%nat.
Proof.
  cbn zeta. split; [repeat constructor; unparseable|].
  split; [vm_compute; reflexivity|].
  split; [repeat constructor|]. repeat split.
Qed.

(** After a frame stored at 0 s, noise at 10 s is read, and the pass at
    100 s closes the connection. *)
Lemma stale_after_first_frame :
  _last_update (cl (after_first_frame [])) = Some 0
  /\ _connected
       (cl (_receiver_loop ([sends (10 * SECOND) NOISE] ++ [sends (100 * SECOND) NOISE])
              (after_first_frame []))) = false.
Proof.
  split; [reflexivity|].
  refine (proj1 (proj2 (proj2 (proj2
    (proj1 (ClientFacts.staleness_disconnects_once_a_map_was_stored
              K parse_message Coordinator.call Coordinator.registry_calls)
       [sends (10 * SECOND) NOISE] (sends (100 * SECOND) NOISE) (after_first_frame [])
       0 1%nat 2%nat eq_refl eq_refl eq_refl eq_refl eq_refl _ _))))).
  - repeat constructor; [unparseable | vm_compute; discriminate].
  - vm_compute. reflexivity.
Defined.

(** C9 as stated fails: the data are stale at 100 s and the connection is
    closed unread; then the wall clock is set back, the next pass reads
    30 s, finds the data fresh, reads a frame and stores it. *)
Lemma clock_set_back_reads_again :
  let w := after_first_frame [] in
  let w1 := iteration (sends (100 * SECOND) (bytes_of "pm 8")) w in
  let w2 := iteration (sends (30 * SECOND) (bytes_of "pm 9")) w1 in
  _last_update (cl w) = Some 0
  /\ events_since w w1 = [EvClose 2%nat] /\ _connected (cl w1) = false
  /\ count is_read (events_since w1 w2) = 1%nat
  /\ _connected (cl w2) = true
  /\ _last_update (cl w2) = Some (30 * SECOND).
Proof. vm_compute. repeat split. Qed.

(** Stale at 100 s: whatever the boiler sends later, nothing is read. *)
Lemma stale_at_100_never_reads_again :
  let w1 := iteration (sends (100 * SECOND) (bytes_of "pm 8")) (after_first_frame []) in
  let later := [sends (200 * SECOND) (bytes_of "pm 9"); refuses (300 * SECOND);
                sends (400 * SECOND) (bytes_of "pm 1")] in
  100 * SECOND - 0 > TELNET_DATA_STALENESS_TIMEOUT K * MICROSECONDS
  /\ count is_read (events_since w1 (_receiver_loop later w1)) = 0%nat
  /\ _last_update (cl (_receiver_loop later w1)) = Some 0.
Proof.
  cbn zeta.
  assert (Hgt : 100 * SECOND - 0 > TELNET_DATA_STALENESS_TIMEOUT K * MICROSECONDS)
    by (vm_compute; reflexivity).
  split; [exact Hgt|].
  pose proof (ClientFacts.staleness_is_permanent K parse_message Coordinator.call Coordinator.registry_calls
                (sends (100 * SECOND) (bytes_of "pm 8")) (after_first_frame [])
                0 2%nat eq_refl Hgt (or_introl (conj eq_refl eq_refl)))
    as (_ & _ & _ & _ & Hrun).
  destruct (Hrun [sends (200 * SECOND) (bytes_of "pm 9"); refuses (300 * SECOND);
                  sends (400 * SECOND) (bytes_of "pm 1")]) as (Hu & _ & Hn & _).
  { repeat constructor; vm_compute; discriminate. }
  split; [exact Hn|exact Hu].
Defined.

(** *** Frames and handlers *)

(** C4 as stated fails: a chunk with two candidate frames, neither of
    which parses to a non-empty map; both are tried and none is stored or
    handed out. *)
Lemma two_candidates_none_stored :
  let w := after_first_frame [Coordinator._handle_data_update] in
  let w' := _process_data SECOND TWO_EMPTY_FRAMES w in
  candidates (chunk_lines TWO_EMPTY_FRAMES) = [[112; 109; 32; 120]; [112; 109; 32; 121]]
  /\ events_since w w' = [EvParse [112; 109; 32; 120]; EvParse [112; 109; 32; 121]]
  /\ count is_store (events_since w w') = 0%nat
  /\ _latest_data (cl w') = _latest_data (cl w)
  /\ messages_parsed (_stats (cl w')) = messages_parsed (_stats (cl w)).
Proof. vm_compute. repeat split. Qed.

(** Of three candidates the second is the first to parse: it is stored,
    the third is never parsed. *)
Lemma second_of_three_stored :
  let w := after_first_frame [Coordinator._handle_data_update] in
  let w' := _process_data SECOND THREE_FRAMES w in
  candidates (chunk_lines THREE_FRAMES)
    = [[112; 109; 32; 33]] ++ [112; 109; 32; 55] :: [[112; 109; 32; 56]]
  /\ events_since w w'
     = [EvParse [112; 109; 32; 33]; EvParse [112; 109; 32; 55];
        EvStore (_latest_data (cl w'));
        EvCallback Coordinator._handle_data_update (_latest_data (cl w'))]
  /\ _last_update (cl w') = Some SECOND.
Proof.
  cbn zeta. unfold Scenario._process_data.
  assert (Hc : candidates (chunk_lines THREE_FRAMES)
               = [[112; 109; 32; 33]] ++ [112; 109; 32; 55] :: [[112; 109; 32; 56]])
    by reflexivity.
  split; [exact Hc|].
  destruct (proj1 (proj2 (ClientFacts.first_parsing_frame_is_the_only_one_stored
              parse_message Coordinator.call Coordinator.registry_calls SECOND THREE_FRAMES
              (after_first_frame [Coordinator._handle_data_update])))
              [[112; 109; 32; 33]] [112; 109; 32; 55] [[112; 109; 32; 56]]
              [("temp"%string, 7)] Hc)
    as ((called & Hev & Hq) & _ & Hl & Hu & _).
  - repeat constructor.
  - reflexivity.
  - discriminate.
  - split; [|exact Hu].
    rewrite Hev, Hl, (Hq CoordinatorFacts.registry_calls_leave_registry). reflexivity.
Defined.

(** C8 as stated fails: a one-shot subscription, registered first,
    unregisters itself when it is called; the walk over the registry then
    finds the list at its end, and the listener registered second, which
    is registered before the store and after it, is not called with the
    stored map. *)
Lemma one_shot_handler_hides_the_next :
  let w' := Client._process_data parse_message call_subscriber subscriber_calls
              0 (bytes_of "pm 7") subscribed in
  _data_callbacks (cl subscribed) = [OneShot; Listener]
  /\ events_since subscribed w'
     = [EvParse [112; 109; 32; 55]; EvStore (_latest_data (cl w'));
        EvCallback OneShot (_latest_data (cl w'))]
  /\ ~ In (EvCallback Listener (_latest_data (cl w'))) (events_since subscribed w')
  /\ _data_callbacks (cl w') = [Listener].
Proof.
  vm_compute. split; [reflexivity|]. split; [reflexivity|]. split; [|reflexivity].
  intros [H|[H|[H|[]]]]; discriminate H.
Qed.

(** The first handler raises; the second is called all the same, after
    the store and with the stored object. *)
Lemma faulty_handler_does_not_stop_dispatch :
  let w' := Client._process_data parse_message call_probe probe_calls SECOND THREE_FRAMES probed in
  _data_callbacks (cl probed) = [Faulty; Quiet]
  /\ app w' = 2%nat
  /\ exists before,
       events_since probed w'
       = before ++ [EvStore (_latest_data (cl w'))]
           ++ [EvCallback Faulty (_latest_data (cl w'));
               EvCallback Quiet (_latest_data (cl w'))].
Proof.
  cbn zeta. split; [reflexivity|]. split; [reflexivity|].
  destruct (proj1 (proj2 (ClientFacts.handlers_notified_once_in_order_after_store
              K parse_message call_probe probe_calls))
              SECOND THREE_FRAMES probed
              [[112; 109; 32; 33]] [112; 109; 32; 55] [[112; 109; 32; 56]]
              [("temp"%string, 7)] eq_refl)
    as (before & called & Hev & _ & Hq).
  - repeat constructor.
  - reflexivity.
  - discriminate.
  - exists before. rewrite Hev, (proj1 (Hq probe_calls_leave_registry)). reflexivity.
Defined.

(** *** The latest-value store *)

(** C3 as stated fails: the coordinator's handler has put a
    ["_connection"] dictionary into the stored map; a caller fetches the
    map, writes into that dictionary, and the next fetch sees what was
    written. *)
Lemma nested_write_reaches_the_store :
  let w1 := after_first_frame [Coordinator._handle_data_update] in
  let '(l1, w2) := fetch w1 in
  let '(l2, w4) := fetch (overwrite_connection l1 w2) in
  l1 = Some 5%positive /\ l2 = Some 6%positive
  /\ connection_of w2 l1
     = Some (ConnectionInfo (VBool true) (Some 0)
               {| messages_received := 1; messages_parsed := 1; parse_errors := 0;
                  reconnections := 1; last_error := None |})
  /\ connection_of w4 l2 = Some (ConnectionInfo (VBool false) None NO_STATISTICS)
  /\ connection_of w4 l2 <> connection_of w2 l1.
Proof. vm_compute. repeat split. discriminate. Qed.

Lemma first_frame_store_closed :
  store_closed (after_first_frame [Coordinator._handle_data_update]).
Proof.
  eexists. split; [vm_compute; reflexivity|].
  apply (bool_decide_eq_true_1
           (map_Forall (fun (_ : string) (r : loc) =>
              is_Some (heap (after_first_frame [Coordinator._handle_data_update]) !! r)) _)).
  vm_compute. reflexivity.
Defined.

(** The copy is a new dictionary, and emptying it leaves the store
    alone. *)
Lemma top_level_write_stays_in_the_copy :
  let w := after_first_frame [Coordinator._handle_data_update] in
  exists l,
    l <> _latest_data (cl w)
    /\ let w' := set_heap (assign_entries l ∅ (heap (snd (get_latest_data w))))
                   (snd (get_latest_data w)) in
       snapshot (heap w') (_latest_data (cl w'))
       = snapshot (heap w) (_latest_data (cl w)).
Proof.
  cbn zeta.
  destruct (ClientFacts.get_latest_data_returns_shallow_copy
              (after_first_frame [Coordinator._handle_data_update])
              first_frame_store_closed)
    as (l & entries & _ & _ & _ & Hne & _ & _ & Hmut).
  exists l. split; [exact Hne|]. exact (proj1 (Hmut ∅)).
Defined.

(** *** Frames and text *)

(** A frame sent with blanks around it reaches the parser without
    them. *)
Lemma padded_frame_is_parsed_trimmed :
  let w := started [] in
  let line := [112; 109; 32; 55] in
  In (EvParse line) (events_since w (_process_data 0 (bytes_of "  pm 7 ") w))
  /\ Py.strip line = line /\ ~ In Py.NEWLINE line.
Proof.
  cbn zeta.
  assert (H : In (EvParse [112; 109; 32; 55])
                (events_since (started [])
                   (_process_data 0 (bytes_of "  pm 7 ") (started []))))
    by (vm_compute; left; reflexivity).
  split; [exact H|].
  pose proof (ClientFacts.parser_is_given_trimmed_frames parse_message Coordinator.call Coordinator.registry_calls
                0 (bytes_of "  pm 7 ") (started []) [112; 109; 32; 55] H)
    as (_ & _ & Hstrip & _ & _ & Hnl).
  split; [exact Hstrip|exact Hnl].
Defined.

Lemma ascii_frame_decodes_to_itself :
  Forall (fun b => Py.byte_val b < 0x80) (bytes_of "pm 7")
  /\ decode_chunk (bytes_of "pm 7") = Ok (map Py.byte_val (bytes_of "pm 7")).
Proof.
  assert (H : Forall (fun b => Py.byte_val b < 0x80) (bytes_of "pm 7"))
    by (repeat constructor).
  split; [exact H|].
  exact (ClientFacts.ascii_chunk_decodes_to_itself (bytes_of "pm 7") H).
Defined.

(** A-umlaut in UTF-8: two bytes, one code point. *)
Lemma two_bytes_one_code_point :
  decode_chunk [xc3; xa4] = Ok [228]
  /\ (length [228] <= length [xc3; xa4])%nat
  /\ forallb Py.is_scalar_value [228] = true.
Proof.
  assert (H : decode_chunk [xc3; xa4] = Ok [228]) by reflexivity.
  split; [exact H|].
  exact (ClientFacts.decoded_text_is_short_and_scalar [xc3; xa4] [228] H).
Defined.

(** *** The store and the coordinator *)

(** The coordinator's handlers leave dictionaries dictionaries, so a
    fetch after the first frame returns. *)
Lemma fetch_after_first_frame_returns :
  exists l,
    fst (get_latest_data (after_first_frame [Coordinator._handle_data_update])) = Ok l.
Proof.
  refine (proj2 (proj2 (ClientFacts.get_latest_data_always_returns
                          K parse_message Coordinator.call Coordinator.registry_calls
                          CoordinatorFacts.call_keeps_maps)
                   [sends 0 (bytes_of "pm 7")]
                   (started [Coordinator._handle_data_update]) _)).
  exists ∅. vm_compute. reflexivity.
Defined.

(** The second of three frames is stored, and it is that object the
    coordinator publishes. *)
Lemma coordinator_publishes_the_stored_object :
  let w := after_first_frame [Coordinator._handle_data_update] in
  let w' := _process_data SECOND THREE_FRAMES w in
  _data_callbacks (cl w) = [Coordinator._handle_data_update]
  /\ app w' = Some (_latest_data (cl w')).
Proof.
  cbn zeta.
  assert (Hcbs : _data_callbacks (cl (after_first_frame [Coordinator._handle_data_update]))
                 = [Coordinator._handle_data_update]) by (vm_compute; reflexivity).
  split; [exact Hcbs|].
  refine (proj1 (CoordinatorFacts.data_update_stamps_the_clients_store parse_message
                   SECOND THREE_FRAMES
                   (after_first_frame [Coordinator._handle_data_update])
                   [[112; 109; 32; 33]] [112; 109; 32; 55] [[112; 109; 32; 56]]
                   Hcbs _ _ _)).
  - vm_compute. reflexivity.
  - repeat constructor.
  - reflexivity.
Defined.

Lemma first_frame_store_live :
  store_live (after_first_frame [Coordinator._handle_data_update]).
Proof. eexists. vm_compute. reflexivity. Defined.

(** The fallback fetch after the first frame returns a dictionary that
    did not exist before, and the client is as it was. *)
Lemma fallback_fetch_after_first_frame :
  let w := after_first_frame [Coordinator._handle_data_update] in
  exists l,
    fst (Coordinator._async_update_data w) = Ok l
    /\ heap w !! l = None
    /\ cl (snd (Coordinator._async_update_data w)) = cl w.
Proof.
  cbn zeta.
  destruct (CoordinatorFacts.fallback_fetch_leaves_the_store_alone
              (after_first_frame [Coordinator._handle_data_update])
              first_frame_store_live)
    as (l & entries & _ & Hret & Hnew & Hcl & _).
  exists l. split; [exact Hret|]. split; [exact Hnew|exact Hcl].
Defined.

(** *** Reconnecting *)

(** The boiler hangs up after the first frame: nothing is closed. *)
Lemma hang_up_closes_nothing :
  let w := after_first_frame [] in
  let w' := iteration (hangs_up SECOND) w in
  _connected (cl w) = true
  /\ _connected (cl w') = false
  /\ _writer (cl w') = Some 2%nat
  /\ events_since w w' = [EvRead 1%nat].
Proof.
  cbn zeta.
  assert (Hc : _connected (cl (after_first_frame [])) = true) by (vm_compute; reflexivity).
  split; [exact Hc|].
  pose proof (ClientFacts.peer_close_reconnects_without_closing
                K parse_message Coordinator.call Coordinator.registry_calls (hangs_up SECOND) (after_first_frame [])
                1%nat 2%nat Hc) as H.
  destruct H as (Hconn & _ & _ & Hwr & _ & _ & Hev & _).
  - vm_compute. reflexivity.
  - vm_compute. reflexivity.
  - vm_compute. reflexivity.
  - reflexivity.
  - split; [exact Hconn|]. split; [exact Hwr|exact Hev].
Defined.

(** The keepalive options are refused at the first attempt. *)
Lemma keepalive_refused_at_first_attempt :
  let a := {| on_connect := OpenedKeepaliveRefused 1%nat 2%nat; now_check := 0;
              on_read := ReadTimeout; now_store := 0 |} in
  let w' := iteration a (started []) in
  events_since (started []) w' = [EvConnect; EvClose 2%nat; EvSleep 5]
  /\ _writer (cl w') = None.
Proof.
  cbn zeta.
  pose proof (ClientFacts.refused_keepalive_closes_the_new_connection
                K parse_message Coordinator.call Coordinator.registry_calls
                {| on_connect := OpenedKeepaliveRefused 1%nat 2%nat; now_check := 0;
                   on_read := ReadTimeout; now_store := 0 |}
                (started []) 1%nat 2%nat eq_refl eq_refl)
    as (Hev & _ & _ & Hwr & _).
  split; [exact Hev|exact Hwr].
Defined.

(** Three refusals in a row: the loop sleeps 5, 10 and 20 seconds. *)
Lemma three_refusals_sleep_5_10_20 :
  let script := [refuses 0; refuses SECOND; refuses (2 * SECOND)] in
  0 <= TELNET_RECONNECT_DELAY K <= TELNET_MAX_RECONNECT_DELAY K
  /\ List.filter is_sleep
       (events_since (started []) (_receiver_loop script (started [])))
     = [EvSleep 5; EvSleep 10; EvSleep 20].
Proof.
  cbn zeta.
  assert (Hk : 0 <= TELNET_RECONNECT_DELAY K <= TELNET_MAX_RECONNECT_DELAY K)
    by (simpl; lia).
  split; [exact Hk|].
  refine (ClientFacts.consecutive_failures_sleep_doubling_delays
            K parse_message Coordinator.call Coordinator.registry_calls
            [refuses 0; refuses SECOND; refuses (2 * SECOND)] (started [])
            Hk _ eq_refl eq_refl eq_refl).
  repeat constructor.
Defined.

(** *** Counting *)

(** Of the three frames the first makes the parser raise and the second
    parses: one parse error is counted. *)
Lemma raising_frame_counts_as_one_error :
  let w := after_first_frame [] in
  parse_errors (_stats (cl (_process_data SECOND THREE_FRAMES w)))
  = parse_errors (_stats (cl w)) + 1.
Proof.
  cbn zeta.
  refine (proj2 (proj2 (ClientFacts.parse_errors_count_raising_frames
                          parse_message Coordinator.call Coordinator.registry_calls SECOND THREE_FRAMES
                          (after_first_frame [])))
            [[112; 109; 32; 33]] [112; 109; 32; 55] [[112; 109; 32; 56]] _ _ _).
  - vm_compute. reflexivity.
  - repeat constructor.
  - reflexivity.
Defined.

(** A connection change before any data: the coordinator publishes a new
    dictionary. *)
Lemma connection_change_before_any_data :
  let w := started [] in
  exists l,
    heap w !! l = None
    /\ fst (Coordinator.handle_connection_change (VBool true) (cl w) None (heap w))
       = (Ok tt, Some l).
Proof.
  cbn zeta.
  destruct (proj1 (CoordinatorFacts.connection_change_reuses_only_nonempty_data
                     (VBool true) (cl (started [])) None (heap (started [])))
              eq_refl)
    as (l & li & Hl & _ & Hret & _).
  exists l. split; [exact Hl|exact Hret].
Defined.

End ScenarioFacts.
